(** * xcd: a colorizing hexdump utility -- shallow embedding of xcd.c

    The C program is embedded function by function.  Conventions:

    - an [int] or a [byte] is a [Z]; a byte is a value in [0, 256).
      Positions are plain [Z] arithmetic and are printed through their low
      32 bits.  The one computation that leaves [int] on input the program
      accepts, that of [hexwidth], is embedded with the wrap-around of a
      32-bit two's complement [int] ([wrap_int]) and C's truncating
      division ([Z.quot]), which is what the compiled program does;
    - a C array ([palette], [line], [zeroline], [colorset]) is a [list Z],
      read with stdpp's total lookup and written with stdpp's list insert;
      the one read whose index is not a byte, [colorset[nextcolorfromset++]],
      is a partial lookup, and a miss is a fault ([None]);
    - a [for] loop with a known bound recurses on the number of rounds left;
      a [while] or [for (;;)] loop recurses on fuel, chosen from the
      termination measure of the loop and proved below never to run out;
    - standard output is the list of the items written so far, in order;
      the terminal's control strings are kept as abstract items; standard
      error is not modelled;
    - the file system is abstracted by what it answers for every name:
      whether the file opens, the bytes [fgetc] delivers, and whether
      reading or closing reports an error; the command line by what
      [getopt_long] and [strtol] answer for it, and the terminal by what
      the terminfo database answers;
    - a function that may call [exit] returns its value or the exit status
      together with what stdout holds at that point.

    The first part holds the embedding, in the order of the C source (the
    top-level functions [getn], [parsecommandline] and [main] stand at its
    end), and the notions the properties are stated with; the second part
    holds the properties. *)

From Stdlib.Strings Require Import Byte String.
From Stdlib Require Import ZArith List Lia Bool.
From stdpp Require Import base option list.
Import ListNotations.

Local Open Scope Z_scope.

(** ** Constants of the C library *)

Definition EOF : Z := -1.
Definition EXIT_FAILURE : Z := 1.
Definition INT_MAX : Z := 2147483647.

(** [isprint] and [isgraph] of <ctype.h>.  The program never calls
    [setlocale], so the "C" locale is in force: the printing characters are
    32..126 and the graphic ones 33..126. *)
Definition isprint (ch : Z) : bool := (32 <=? ch) && (ch <=? 126).
Definition isgraph (ch : Z) : bool := (33 <=? ch) && (ch <=? 126).

(** ** The color index palette *)

Definition colorset : list Z :=
  [   8;  11;  53; 202;  87;   9;  41; 217;  32; 222;  57; 214; 126; 191;  88; 148;
     94; 219;  22; 228; 121;   4;   3;  23;  30; 179;  14;  13; 195;  12; 225; 123;
    230;  27; 159;  10; 207; 165;  50; 227; 235; 200;  45;  82; 213; 197;  47; 255;
     20; 190;  93; 229; 236;  33; 220; 129;  49; 160;  39; 198; 118; 199;  48; 208;
     63; 154;  81;  52; 171; 194;  17; 224;  40; 206;  86; 237; 189; 203;  83;  19;
    254;   1; 221; 177;   2; 117;  18; 158; 212; 124; 183;  28; 122; 204;  34; 153;
    193;  69; 205;  84; 238; 218; 192;  99; 119; 135; 209;  75; 223;  85; 215;  56;
    155; 164;  58;  44; 161; 184;  26;  76; 105; 166; 120; 141; 210; 239; 111; 156;
    211; 147; 216; 157;  92;  42; 162;  38; 112; 163;  43; 172; 128;  29; 253;  54;
    178;  24;  55;  64; 188;  89;  35;  25; 130;  80; 125;  70; 170; 185; 240; 252;
     62;  77;   5; 167; 152;   6; 182;  37; 187;  91; 142; 116; 136; 176;  31; 186;
     90; 106; 127;  36; 100; 251;  59;  74; 134;  79; 149; 169; 241;  68; 113; 168;
     78;  98; 173;   7; 242; 146;  61; 151;  71; 131; 181;  60; 110; 150; 175;  65;
    115; 140; 180;  95; 104; 114; 174; 250; 243;  73; 133; 143;  67; 107; 132;  72;
     97; 137;  66;  96; 101; 249; 145; 248; 109; 139; 144; 247; 103; 108; 138; 246;
    245; 102; 245; 102; 245; 102; 245; 102; 245; 102; 245; 102; 245; 102; 245; 102 ].

(** ** User-controlled settings (the program's global variables) *)

Record config := {
  autoskip : bool;     (* skip repeated lines of zero bytes *)
  linesize : Z;        (* bytes per line of dump output *)
  groupsize : Z;       (* bytes grouped together in output *)
  hexoutput : bool;    (* display hexadecimal values *)
  colorize : bool;     (* add colors to the output *)
  useunicode : bool;   (* extended glyphs for non-graphic characters *)
  hexwidth : Z         (* width of the output holding the hex values *)
}.

(** The value an [int] operation leaves when its mathematical result is
    [z]: [z] itself inside the range of [int], and [z] wrapped around
    modulo 2^32 outside it.  (Signed overflow is undefined behaviour in C;
    with a 32-bit two's complement [int] the compiled program wraps.) *)
Definition wrap_int (z : Z) : Z := (z + 2 ^ 31) mod 2 ^ 32 - 2 ^ 31.

(** The end of [parsecommandline], from the values the options left in
    [autoskip], [linesize], [groupsize], [hexoutput], [colorize] and
    [useunicode]: the forced [autoskip = 0] of raw output, the defaults for
    a zero [linesize] or [groupsize], and [hexwidth].  (Raw output without
    color makes the program exit there; [getn] has kept the numbers within
    0 .. INT_MAX and [linesize] within 0 .. 255.)  The expression
    [2 * linesize + (linesize + groupsize - 1) / groupsize] is evaluated
    in [int], operation by operation: the sum [linesize + groupsize]
    leaves [int] for the group sizes above INT_MAX - linesize, which [getn]
    accepts, and [/] is C's division, which truncates. *)
Definition parsecommandline_finish
    (a : bool) (c g : Z) (h col u : bool) : config :=
  let a := if negb h then false else a in
  let c := if c =? 0 then 16 else c in
  let g := if g =? 0 then c else g in
  {| autoskip := a; linesize := c; groupsize := g; hexoutput := h;
     colorize := col; useunicode := u;
     hexwidth :=
       wrap_int (wrap_int (2 * c)
                 + Z.quot (wrap_int (wrap_int (c + g) - 1)) g) |}.

Section Glyphs.
Variable cfg : config.

(** [getbyterepresentation]: the bytes stored in [buf] before the
    terminating NUL, that is, the C string the function returns. *)
Definition getbyterepresentation (ch : Z) : list Z :=
  if useunicode cfg then
    if ch <? 32 then [0xE2; 0x90; Z.lor 0x80 ch]
    else if ch =? 32 then [0xE2; 0x90; 0xA0]
    else if ch <? 127 then [ch]
    else if ch =? 127 then [0xE2; 0x90; 0xA1]
    else if ch <? 160 then [0xE2; 0x90; 0xA6]
    else if ch =? 160 then [0xE2; 0x90; 0xA3]
    else [Z.lor 0xC0 (Z.shiftr ch 6); Z.lor 0x80 (Z.land ch 0x3F)]
  else
    [if isprint ch then ch else 46].
End Glyphs.

(** ** Standard output and the palette *)

(** What the program writes: a character, the terminal's [setaf] string
    instantiated by [tiparm] with a color index, the [sgr0] string, or one
    of the initialization strings is1, is2, is3. *)
Inductive outitem :=
  | OChar (c : Z)
  | OSetaf (color : Z)
  | OSgr0
  | OIs (k : Z).

(** The output-side globals: [palette], [nextcolorfromset], and the
    characters written to stdout so far. *)
Record output := {
  palette : list Z;
  nextcolorfromset : Z;
  stdout : list outitem
}.

Definition output_start : output :=
  {| palette := replicate 256 0; nextcolorfromset := 0; stdout := [] |}.

Definition emit (xs : list outitem) (o : output) : output :=
  {| palette := palette o; nextcolorfromset := nextcolorfromset o;
     stdout := stdout o ++ xs |}.

Definition chars (s : list Z) : list outitem := map OChar s.

Definition SP : Z := 32.
Definition NL : Z := 10.

(** One hexadecimal digit, upper case. *)
Definition hexdigit (d : Z) : Z := if d <? 10 then 48 + d else 55 + d.

(** The low [n] hexadecimal digits of [v], most significant first. *)
Fixpoint hexdigits (n : nat) (v : Z) : list Z :=
  match n with
  | O => []
  | S n' => hexdigits n' (v / 16) ++ [hexdigit (v mod 16)]
  end.

(** printf's "%02X" of a byte. *)
Definition fmt_02X (b : Z) : list Z := hexdigits 2 b.

(** printf's "%08X" of an [int]: the argument is read as an unsigned int. *)
Definition fmt_08X (pos : Z) : list Z := hexdigits 8 (pos mod 2 ^ 32).

(** printf's "%*s" of the empty string: [x] blanks; a negative width is
    taken as a left adjustment flag followed by a positive width. *)
Definition fmt_pad (x : Z) : list Z := replicate (Z.to_nat (Z.abs x)) SP.

(** [initoutput], on the path where the terminal offers 256 colors (every
    other path exits).  [has_is k] tells whether the terminal defines the
    initialization string number [k]. *)
Definition initoutput (cfg : config) (has_is : Z -> bool) (o : output) : output :=
  if negb (colorize cfg) then o
  else
    let seq_of k := if has_is k then [OIs k] else [] in
    let seqs := seq_of 1 ++ seq_of 2 ++ seq_of 3 in
    {| palette := <[0%nat := colorset !!! 0%nat]> (palette o);
       nextcolorfromset := 1;
       stdout := stdout o ++ seqs |}.

(** The statement
    [if (!palette[ch]) palette[ch] = colorset[nextcolorfromset++];]
    shared by the colorizing renderers.  [ch] is a byte and [palette] has
    256 entries; the read of [colorset] faults when the index is outside
    the table. *)
Definition assigncolor (ch : Z) (o : output) : option output :=
  if palette o !!! Z.to_nat ch =? 0 then
    if nextcolorfromset o <? 0 then None
    else
      match colorset !! Z.to_nat (nextcolorfromset o) with
      | Some c =>
          Some {| palette := <[Z.to_nat ch := c]> (palette o);
                  nextcolorfromset := nextcolorfromset o + 1;
                  stdout := stdout o |}
      | None => None
      end
  else Some o.

Section Renderers.
Variable cfg : config.

(** *** Output colorized bytes directly *)

Fixpoint renderbytescolored_loop (buf : list Z) (k : nat) (i : Z)
    (o : output) : option output :=
  match k with
  | O => Some o
  | S k' =>
      let ch := buf !!! Z.to_nat i in
      if negb (isgraph ch) then
        renderbytescolored_loop buf k' (i + 1) (emit [OChar ch] o)
      else
        match assigncolor ch o with
        | Some o1 =>
            renderbytescolored_loop buf k' (i + 1)
              (emit (OSetaf (palette o1 !!! Z.to_nat ch)
                       :: chars (getbyterepresentation cfg ch)) o1)
        | None => None
        end
  end.

Definition renderbytescolored (buf : list Z) (count : Z) (o : output)
    : option output :=
  match renderbytescolored_loop buf (Z.to_nat count) 0 o with
  | Some o1 => Some (emit [OSgr0] o1)
  | None => None
  end.

(** *** One line of hexdump, uncolored *)

Fixpoint renderlineuncolored_hex (buf : list Z) (k : nat) (i x : Z)
    (o : output) : Z * output :=
  match k with
  | O => (x, o)
  | S k' =>
      let '(x1, o1) :=
        if i mod groupsize cfg =? 0 then (x - 1, emit [OChar SP] o)
        else (x, o) in
      renderlineuncolored_hex buf k' (i + 1) x1
        (emit (chars (fmt_02X (buf !!! Z.to_nat i))) o1)
  end.

Fixpoint renderlineuncolored_text (buf : list Z) (k : nat) (i : Z)
    (o : output) : output :=
  match k with
  | O => o
  | S k' =>
      renderlineuncolored_text buf k' (i + 1)
        (emit (chars (getbyterepresentation cfg (buf !!! Z.to_nat i))) o)
  end.

(** The function up to the padding that precedes the text column ... *)
Definition renderlineuncolored_head (buf : list Z) (count pos : Z)
    (o : output) : output :=
  let o := emit (chars (fmt_08X pos ++ [58])) o in
  let x := hexwidth cfg - 2 * count in
  let '(x, o) := renderlineuncolored_hex buf (Z.to_nat count) 0 x o in
  emit (chars (fmt_pad x ++ [SP; SP])) o.

(** ... and the whole of it. *)
Definition renderlineuncolored (buf : list Z) (count pos : Z) (o : output)
    : output :=
  let o := renderlineuncolored_head buf count pos o in
  let o := renderlineuncolored_text buf (Z.to_nat count) 0 o in
  emit [OChar NL] o.

(** *** One line of hexdump, colored *)

Fixpoint renderlinecolored_hex (buf : list Z) (k : nat) (i x : Z)
    (o : output) : option (Z * output) :=
  match k with
  | O => Some (x, o)
  | S k' =>
      let '(x1, o1) :=
        if i mod groupsize cfg =? 0 then (x - 1, emit [OChar SP] o)
        else (x, o) in
      let ch := buf !!! Z.to_nat i in
      match assigncolor ch o1 with
      | Some o2 =>
          renderlinecolored_hex buf k' (i + 1) x1
            (emit (OSetaf (palette o2 !!! Z.to_nat ch) :: chars (fmt_02X ch)) o2)
      | None => None
      end
  end.

Fixpoint renderlinecolored_text (buf : list Z) (k : nat) (i : Z)
    (o : output) : option output :=
  match k with
  | O => Some o
  | S k' =>
      let ch := buf !!! Z.to_nat i in
      match assigncolor ch o with
      | Some o1 =>
          renderlinecolored_text buf k' (i + 1)
            (emit (OSetaf (palette o1 !!! Z.to_nat ch)
                     :: chars (getbyterepresentation cfg ch)) o1)
      | None => None
      end
  end.

(** The function up to the padding that precedes the text column ... *)
Definition renderlinecolored_head (buf : list Z) (count pos : Z)
    (o : output) : option output :=
  let o := emit (OSgr0 :: chars (fmt_08X pos ++ [58])) o in
  let x := hexwidth cfg - 2 * count in
  match renderlinecolored_hex buf (Z.to_nat count) 0 x o with
  | Some (x, o) => Some (emit (OSgr0 :: chars (fmt_pad x ++ [SP; SP])) o)
  | None => None
  end.

(** ... and the whole of it. *)
Definition renderlinecolored (buf : list Z) (count pos : Z) (o : output)
    : option output :=
  match renderlinecolored_head buf count pos o with
  | Some o =>
      match renderlinecolored_text buf (Z.to_nat count) 0 o with
      | Some o => Some (emit [OSgr0; OChar NL] o)
      | None => None
      end
  | None => None
  end.

(** *** The line output functions *)

Definition dumpline (buf : list Z) (count pos : Z) (o : output)
    : option output :=
  if count =? 0 then Some o
  else if negb (hexoutput cfg) then renderbytescolored buf count o
  else if colorize cfg then renderlinecolored buf count pos o
  else Some (renderlineuncolored buf count pos o).

Definition zeroline : list Z := replicate 256 0.

Fixpoint dumpzerolines_loop (k : nat) (i pos : Z) (o : output)
    : option output :=
  match k with
  | O => Some o
  | S k' =>
      match dumpline zeroline (linesize cfg) (pos + i * linesize cfg) o with
      | Some o1 => dumpzerolines_loop k' (i + 1) pos o1
      | None => None
      end
  end.

Definition dumpzerolines (count pos : Z) (o : output) : option output :=
  if count >? 2 then
    match dumpline zeroline (linesize cfg) pos o with
    | Some o1 => Some (emit (chars [42; NL]) o1)
    | None => None
    end
  else dumpzerolines_loop (Z.to_nat count) 0 pos o.
End Renderers.

(** ** File input *)

(** What the file system answers for one entry of the list of filenames:
    whether the name is "-" (standard input), whether [fopen] succeeds, the
    bytes [fgetc] delivers before it returns EOF, whether that EOF is a read
    error ([ferror]), and whether [fclose] fails. *)
Record input := {
  in_stdin : bool;
  in_opens : bool;
  in_data : list byte;
  in_ferror : bool;
  in_fclose_fails : bool
}.

(** The program's input file state.  [filenames] is the list from the
    current name on; [currentfile], when open, holds the bytes the handle
    has yet to deliver.  The global [exitcode] is written by [fail] only,
    which receives the state, and is carried here with it. *)
Record state := {
  startoffset : Z;
  maxinputlen : Z;
  filenames : list input;
  currentfile : option (list byte);
  exitcode : Z
}.

(** A byte read from a file, as the [int] that [fgetc] returns. *)
Definition byteval (b : byte) : Z := Z.of_N (Byte.to_N b).

Definition set_files (fs : list input) (cur : option (list byte)) (s : state)
    : state :=
  {| startoffset := startoffset s; maxinputlen := maxinputlen s;
     filenames := fs; currentfile := cur; exitcode := exitcode s |}.

Definition set_maxinputlen (m : Z) (s : state) : state :=
  {| startoffset := startoffset s; maxinputlen := m;
     filenames := filenames s; currentfile := currentfile s;
     exitcode := exitcode s |}.

(** [fail]: the message goes to stderr, which is not modelled. *)
Definition fail (s : state) : state :=
  {| startoffset := startoffset s; maxinputlen := maxinputlen s;
     filenames := filenames s; currentfile := currentfile s;
     exitcode := EXIT_FAILURE |}.

(** [inputinit] when no file is open: the recursion of the C function runs
    down the list of filenames. *)
Fixpoint inputinit_closed (fs : list input) (s : state) : bool * state :=
  match fs with
  | [] => (false, set_files [] None s)
  | f :: fs' =>
      if in_stdin f || in_opens f
      then (true, set_files fs (Some (in_data f)) s)
      else inputinit_closed fs' (fail (set_files fs None s))
  end.

Definition inputinit (s : state) : bool * state :=
  match currentfile s with
  | Some _ => (true, s)
  | None => inputinit_closed (filenames s) s
  end.

(** [inputupdate]: close the current input file and step to the next name. *)
Definition inputupdate (s : state) : state :=
  let s1 :=
    match filenames s with
    | f :: _ =>
        if in_ferror f then fail s
        else if negb (in_stdin f) && in_fclose_fails f then fail s
        else s
    | [] => s
    end in
  set_files (tail (filenames s1)) None s1.

(** [fgetc] on the current file. *)
Definition fgetc (s : state) : Z * state :=
  match currentfile s with
  | Some (b :: rest) => (byteval b, set_files (filenames s) (Some rest) s)
  | _ => (EOF, s)
  end.

(** [nextbyte]: the loop runs once per file it has to step over, so the
    number of filenames left, plus two, bounds its iterations. *)
Fixpoint nextbyte_loop (fuel : nat) (s : state) : Z * state :=
  match fuel with
  | O => (EOF, s)
  | S fuel' =>
      let '(ok, s1) := inputinit s in
      if negb ok then (EOF, s1)
      else
        let '(ch, s2) := fgetc s1 in
        if negb (ch =? EOF) then (ch, s2)
        else nextbyte_loop fuel' (inputupdate s2)
  end.

Definition nextbyte (s : state) : Z * state :=
  nextbyte_loop (2 + length (filenames s)) s.

(** The logical stream: the bytes still to come from the files, those of
    the open file first.  Its length is the termination measure of the
    drivers' loops, each round of which takes at least one byte of it. *)
Definition file_bytes (f : input) : list Z :=
  if in_stdin f || in_opens f then map byteval (in_data f) else [].

Definition pending (s : state) : list Z :=
  match currentfile s with
  | Some rest => map byteval rest ++ concat (map file_bytes (tail (filenames s)))
  | None => concat (map file_bytes (filenames s))
  end.

(** ** The dump drivers *)

Section Drivers.
Variable cfg : config.

(** The inner loop of [dumpfiles]; [k] counts the rounds left before
    [n < linesize] fails.  The result is [n], [ch], [line] and the state. *)
Fixpoint dumpfiles_fill (k : nat) (n ch : Z) (line : list Z) (s : state)
    : Z * Z * list Z * state :=
  match k with
  | O => (n, ch, line, s)
  | S k' =>
      if maxinputlen s >? 0 then
        let '(c, s1) := nextbyte s in
        if c =? EOF then (n, c, line, s1)
        else dumpfiles_fill k' (n + 1) c (<[Z.to_nat n := c]> line)
               (set_maxinputlen (maxinputlen s1 - 1) s1)
      else (n, ch, line, s)
  end.

Fixpoint dumpfiles_loop (fuel : nat) (line : list Z) (ch pos : Z)
    (s : state) (o : output) : option (state * output) :=
  match fuel with
  | O => None
  | S fuel' =>
      if negb (ch =? EOF) && (maxinputlen s >? 0) then
        let '(n, ch1, line1, s1) :=
          dumpfiles_fill (Z.to_nat (linesize cfg)) 0 ch line s in
        if n =? 0 then Some (s1, o)
        else
          match dumpline cfg line1 n pos o with
          | Some o1 => dumpfiles_loop fuel' line1 ch1 (pos + n) s1 o1
          | None => None
          end
      else Some (s, o)
  end.

(** [dumpfiles]; [line0] is the content of the uninitialized array. *)
Definition dumpfiles (line0 : list Z) (s : state) (pos : Z) (o : output)
    : option (state * output) :=
  dumpfiles_loop (S (length (pending s))) line0 0 pos s o.

(** The local variables of [dumpfileswithautoskip] that the statements
    after its loop read. *)
Record held := {
  line : list Z;
  linesheld : Z;
  lastheldsize : Z;
  holdpos : Z;
  pos : Z
}.

(** Its inner loop, which also gathers [nonzero]. *)
Fixpoint autoskip_fill (k : nat) (n ch nonzero : Z) (line : list Z)
    (s : state) : Z * Z * Z * list Z * state :=
  match k with
  | O => (n, ch, nonzero, line, s)
  | S k' =>
      if maxinputlen s >? 0 then
        let '(c, s1) := nextbyte s in
        if c =? EOF then (n, c, nonzero, line, s1)
        else autoskip_fill k' (n + 1) c (Z.lor nonzero c)
               (<[Z.to_nat n := c]> line)
               (set_maxinputlen (maxinputlen s1 - 1) s1)
      else (n, ch, nonzero, line, s)
  end.

Fixpoint autoskip_loop (fuel : nat) (h : held) (ch : Z) (s : state)
    (o : output) : option (held * state * output) :=
  match fuel with
  | O => None
  | S fuel' =>
      if negb (ch =? EOF) && (maxinputlen s >? 0) then
        let '(n, ch1, nonzero, line1, s1) :=
          autoskip_fill (Z.to_nat (linesize cfg)) 0 ch 0 (line h) s in
        if n =? 0 then
          Some ({| line := line1; linesheld := linesheld h;
                   lastheldsize := lastheldsize h; holdpos := holdpos h;
                   pos := pos h |}, s1, o)
        else if negb (nonzero =? 0) then
          let flushed :=
            if negb (linesheld h =? 0)
            then dumpzerolines cfg (linesheld h) (holdpos h) o
            else Some o in
          match flushed with
          | Some o1 =>
              match dumpline cfg line1 n (pos h) o1 with
              | Some o2 =>
                  autoskip_loop fuel'
                    {| line := line1; linesheld := 0;
                       lastheldsize := lastheldsize h; holdpos := holdpos h;
                       pos := pos h + n |} ch1 s1 o2
              | None => None
              end
          | None => None
          end
        else
          autoskip_loop fuel'
            {| line := line1; linesheld := linesheld h + 1;
               lastheldsize := n;
               holdpos := if linesheld h =? 0 then pos h else holdpos h;
               pos := pos h + n |} ch1 s1 o
      else Some (h, s, o)
  end.

(** The statements after the loop: the lines still held at the end. *)
Definition autoskip_finish (h : held) (o : output) : option output :=
  if negb (linesheld h =? 0) then
    match dumpzerolines cfg (linesheld h - 1) (holdpos h) o with
    | Some o1 => dumpline cfg (line h) (lastheldsize h)
                   (pos h - lastheldsize h) o1
    | None => None
    end
  else Some o.

Definition autoskip_start (line0 : list Z) (p : Z) : held :=
  {| line := line0; linesheld := 0; lastheldsize := 0; holdpos := 0;
     pos := p |}.

Definition dumpfileswithautoskip (line0 : list Z) (s : state) (p : Z)
    (o : output) : option (held * state * output) :=
  match autoskip_loop (S (length (pending s))) (autoskip_start line0 p) 0 s o
  with
  | Some (h, s1, o1) =>
      match autoskip_finish h o1 with
      | Some o2 => Some (h, s1, o2)
      | None => None
      end
  | None => None
  end.

(** The skipping loop of [dump]: [k] rounds are left before
    [pos < startoffset] fails.  The first component is [None] for the
    [return] at the end of input, and the final [pos] otherwise. *)
Fixpoint dump_skip (k : nat) (pos : Z) (s : state) : option Z * state :=
  match k with
  | O => (Some pos, s)
  | S k' =>
      let '(c, s1) := nextbyte s in
      if c =? EOF then (None, s1) else dump_skip k' (pos + 1) s1
  end.

Definition dump (line0 : list Z) (s : state) (o : output)
    : option (state * output) :=
  match dump_skip (Z.to_nat (startoffset s)) 0 s with
  | (None, s1) => Some (s1, o)
  | (Some pos, s1) =>
      if autoskip cfg then
        match dumpfileswithautoskip line0 s1 pos o with
        | Some (_, s2, o2) => Some (s2, o2)
        | None => None
        end
      else dumpfiles line0 s1 pos o
  end.
End Drivers.

(** ** Reference notions the properties are stated with *)

(** The program's default settings: 16 bytes per line in groups of 2, hex
    display, color and extended glyphs on, autoskip off. *)
Definition default_config : config :=
  parsecommandline_finish false 16 2 true true true.

(** The byte values the text column shows as control pictures. *)
Definition is_control (b : Z) : Prop :=
  0 <= b <= 31 \/ b = 127 \/ 128 <= b <= 160.

(** UTF-8 as the Unicode standard defines it for code points below
    U+0800: one byte up to U+007F, two bytes beyond. *)
Definition utf8_encode (cp : Z) : list Z :=
  if cp <? 128 then [cp] else [192 + cp / 64; 128 + cp mod 64].

Definition utf8_decode2 (s : list Z) : Z :=
  match s with
  | [b0; b1] => (b0 mod 32) * 64 + b1 mod 64
  | _ => -1
  end.

(** The number of columns a piece of output takes on the terminal, for
    output made of single-column characters: the terminal's control
    strings take none. *)
Fixpoint width (xs : list outitem) : Z :=
  match xs with
  | [] => 0
  | OChar _ :: xs' => 1 + width xs'
  | _ :: xs' => width xs'
  end.

(** The number of groups that [n] bytes fall into: the blanks the hex
    loops write before them. *)
Definition groups (cfg : config) (n : Z) : Z :=
  (n + groupsize cfg - 1) / groupsize cfg.

(** A literal of the C source as character codes. *)
Definition str (s : String.string) : list Z :=
  map byteval (String.list_byte_of_string s).

(** *** Palette bookkeeping *)

Definition isbyte (b : Z) : Prop := 0 <= b < 256.

(** The byte values met so far, each once, in the order they were first
    met: [observe seen bs] extends [seen] by the new values of [bs]. *)
Definition observe_one (seen : list Z) (b : Z) : list Z :=
  if decide (b ∈ seen) then seen else seen ++ [b].

Definition observe (seen bs : list Z) : list Z :=
  fold_left observe_one bs seen.

(** The palette agrees with a list of observed byte values: [palette] has
    its 256 entries, the j-th value of the list holds the j-th color of
    [colorset], every other byte value is unassigned, and
    [nextcolorfromset] is the number of values listed. *)
Definition in_sync (seen : list Z) (o : output) : Prop :=
  length (palette o) = 256%nat /\
  NoDup seen /\
  Forall isbyte seen /\
  nextcolorfromset o = Z.of_nat (length seen) /\
  (forall (j : nat) (b : Z),
      seen !! j = Some b -> palette o !!! Z.to_nat b = colorset !!! j) /\
  (forall b : Z, isbyte b -> b ∉ seen -> palette o !!! Z.to_nat b = 0).

(** The byte values a call of [dumpline] colorizes: the graphic ones in
    raw output, all of them in a colored hex dump, none otherwise. *)
Definition colored (cfg : config) (b : Z) : bool :=
  if negb (hexoutput cfg) then isgraph b else colorize cfg.

(** What the colorizing loops write for the bytes [i .. i + k - 1] of [buf]
    when the color of every byte value is read from the table [p]. *)
Fixpoint hex_items (cfg : config) (p buf : list Z) (k : nat) (i : Z)
    : list outitem :=
  match k with
  | O => []
  | S k' =>
      let ch := buf !!! Z.to_nat i in
      (if i mod groupsize cfg =? 0 then [OChar SP] else [])
      ++ OSetaf (p !!! Z.to_nat ch) :: chars (fmt_02X ch)
      ++ hex_items cfg p buf k' (i + 1)
  end.

Fixpoint text_items (cfg : config) (p buf : list Z) (k : nat) (i : Z)
    : list outitem :=
  match k with
  | O => []
  | S k' =>
      let ch := buf !!! Z.to_nat i in
      OSetaf (p !!! Z.to_nat ch) :: chars (getbyterepresentation cfg ch)
      ++ text_items cfg p buf k' (i + 1)
  end.

Fixpoint raw_items (cfg : config) (p buf : list Z) (k : nat) (i : Z)
    : list outitem :=
  match k with
  | O => []
  | S k' =>
      let ch := buf !!! Z.to_nat i in
      (if isgraph ch
       then OSetaf (p !!! Z.to_nat ch) :: chars (getbyterepresentation cfg ch)
       else [OChar ch])
      ++ raw_items cfg p buf k' (i + 1)
  end.

(** One colored hex line, and one chunk of raw colored bytes. *)
Definition colored_line_items (cfg : config) (p buf : list Z) (n pos : Z)
    : list outitem :=
  OSgr0 :: chars (fmt_08X pos ++ [58])
  ++ hex_items cfg p buf (Z.to_nat n) 0
  ++ OSgr0 :: chars (fmt_pad (hexwidth cfg - 2 * n - groups cfg n) ++ [SP; SP])
  ++ text_items cfg p buf (Z.to_nat n) 0
  ++ [OSgr0; OChar NL].

Definition colored_bytes_items (cfg : config) (p buf : list Z) (n : Z)
    : list outitem :=
  raw_items cfg p buf (Z.to_nat n) 0 ++ [OSgr0].

(** The states the output goes through: [rendered cfg o bs o'] when calls of
    [dumpline], with elision markers written in between, lead from [o] to
    [o'], and [bs] lists the bytes those calls were given, in order. *)
Inductive rendered (cfg : config) : output -> list Z -> output -> Prop :=
  | rendered_nil (o : output) : rendered cfg o [] o
  | rendered_line (o o1 o2 : output) (buf : list Z) (n pos : Z) (bs : list Z) :
      0 <= n -> (Z.to_nat n <= length buf)%nat -> Forall isbyte buf ->
      dumpline cfg buf n pos o = Some o1 ->
      rendered cfg o1 bs o2 ->
      rendered cfg o (take (Z.to_nat n) buf ++ bs) o2
  | rendered_marker (o o2 : output) (bs : list Z) :
      rendered cfg (emit (chars [42; NL]) o) bs o2 ->
      rendered cfg o bs o2.

(** The bytes [i .. i + k - 1] of the array [buf]. *)
Definition buf_bytes (buf : list Z) (i : Z) (k : nat) : list Z :=
  map (fun j => buf !!! j) (seq (Z.to_nat i) k).

(** *** The stream as the drivers consume it *)

(** What reading a byte leaves untouched in the input state. *)
Definition keeps (s s' : state) : Prop :=
  maxinputlen s' = maxinputlen s /\ startoffset s' = startoffset s.

(** The successive chunks of [L] bytes of a stream; the last one may be
    shorter. *)
Fixpoint chunks_fuel (fuel L : nat) (xs : list Z) : list (list Z) :=
  match fuel with
  | O => []
  | S fuel' =>
      match xs with
      | [] => []
      | _ :: _ => take L xs :: chunks_fuel fuel' L (drop L xs)
      end
  end.

Definition chunks (L : Z) (xs : list Z) : list (list Z) :=
  chunks_fuel (length xs) (Z.to_nat L) xs.

(** The bytes [bs] stored into the array [line] from index [n] on. *)
Fixpoint store (line : list Z) (n : Z) (bs : list Z) : list Z :=
  match bs with
  | [] => line
  | b :: bs' => store (<[Z.to_nat n := b]> line) (n + 1) bs'
  end.

(** A list of chunks, each rendered by [dumpline] at its position. *)
Fixpoint dumplines (cfg : config) (cs : list (list Z)) (pos : Z) (o : output)
    : option output :=
  match cs with
  | [] => Some o
  | c :: cs' =>
      match dumpline cfg c (Z.of_nat (length c)) pos o with
      | Some o1 => dumplines cfg cs' (pos + Z.of_nat (length c)) o1
      | None => None
      end
  end.

(** One round of the loop of [dumpfileswithautoskip], for the chunk [c]
    that its inner loop has read into [line]. *)
Definition autoskip_round (cfg : config) (h : held) (c : list Z) (o : output)
    : option (held * output) :=
  let n := Z.of_nat (length c) in
  let line1 := c ++ drop (length c) (line h) in
  if forallb (Z.eqb 0) c then
    Some ({| line := line1; linesheld := linesheld h + 1; lastheldsize := n;
             holdpos := if linesheld h =? 0 then pos h else holdpos h;
             pos := pos h + n |}, o)
  else
    match (if negb (linesheld h =? 0)
           then dumpzerolines cfg (linesheld h) (holdpos h) o
           else Some o) with
    | Some o1 =>
        match dumpline cfg c n (pos h) o1 with
        | Some o2 =>
            Some ({| line := line1; linesheld := 0;
                     lastheldsize := lastheldsize h; holdpos := holdpos h;
                     pos := pos h + n |}, o2)
        | None => None
        end
    | None => None
    end.

Fixpoint autoskip_rounds (cfg : config) (cs : list (list Z)) (h : held)
    (o : output) : option (held * output) :=
  match cs with
  | [] => Some (h, o)
  | c :: cs' =>
      match autoskip_round cfg h c o with
      | Some (h1, o1) => autoskip_rounds cfg cs' h1 o1
      | None => None
      end
  end.

(** The elision coordinator run over a list of chunks: the rounds, then
    the lines still held at the end. *)
Definition autoskip_lines (cfg : config) (cs : list (list Z)) (h : held)
    (o : output) : option (held * output) :=
  match autoskip_rounds cfg cs h o with
  | Some (h1, o1) =>
      match autoskip_finish cfg h1 o1 with
      | Some o2 => Some (h1, o2)
      | None => None
      end
  | None => None
  end.

(** Two arrays hold the same bytes at the indices [i .. i + k - 1]. *)
Definition same_bytes (buf buf' : list Z) (i : Z) (k : nat) : Prop :=
  forall j : nat, (Z.to_nat i <= j < Z.to_nat i + k)%nat -> buf !!! j = buf' !!! j.

(** An input that opens, reads and closes without an error. *)
Definition clean (f : input) : Prop :=
  in_stdin f || in_opens f = true /\ in_ferror f = false /\
  negb (in_stdin f) && in_fclose_fails f = false.

(** The bytes of the logical stream that [dump] is asked to show: those
    from offset [startoffset] on, [maxinputlen] of them at most. *)
Definition selected (s : state) : list Z :=
  take (Z.to_nat (maxinputlen s)) (drop (Z.to_nat (startoffset s)) (pending s)).

(** A full line of zero bytes. *)
Definition zero_chunk (cfg : config) : list Z :=
  replicate (Z.to_nat (linesize cfg)) 0.

(** The elision marker line. *)
Definition marker : list outitem := chars [42; NL].

(** What the rounds of [dumpfileswithautoskip] keep true of its array. *)
Definition held_ok (h : held) : Prop :=
  length (line h) = 256%nat /\ Forall isbyte (line h) /\
  0 <= lastheldsize h <= 256.

(** *** Inputs for the examples *)

(** A regular file holding [data] that opens, reads and closes well. *)
Definition file_of (data : list byte) : input :=
  {| in_stdin := false; in_opens := true; in_data := data;
     in_ferror := false; in_fclose_fails := false |}.

(** The state [parsecommandline] leaves for the filenames [fs], a start
    offset and a length limit. *)
Definition state_of (fs : list input) (start len : Z) : state :=
  {| startoffset := start; maxinputlen := len; filenames := fs;
     currentfile := None; exitcode := 0 |}.

(** The content an input contributes to the stream: nothing when it does
    not open. *)
Definition contents (f : input) : list byte :=
  if in_stdin f || in_opens f then in_data f else [].

(** Plain settings with autoskip on: 16 bytes per line in groups of 2,
    hex display without color, ASCII text column. *)
Definition plain_autoskip_config : config :=
  parsecommandline_finish true 16 2 true false false.

(** *** Checks by enumeration of the 256 byte values *)

(** Every byte value, in increasing order. *)
Definition all_bytes : list Z := map Z.of_nat (seq 0 256).

(** A glyph is a string of 1 to 3 bytes, none of them NUL. *)
Definition glyph_wellformed (g : list Z) : bool :=
  (1 <=? Z.of_nat (length g)) && (Z.of_nat (length g) <=? 3)
  && forallb (fun c => (1 <=? c) && (c <=? 255)) g.

(** [is_control] as a test, equality of glyphs as a test, and the test
    that two control values share a glyph only when they are equal or both
    in 128..159. *)
Definition is_controlb (b : Z) : bool :=
  (b <=? 31) || (b =? 127) || ((128 <=? b) && (b <=? 160)).

Definition list_Z_eqb (x y : list Z) : bool :=
  bool_decide (x = y).

Definition glyph_clash_ok (cfg : config) (a b : Z) : bool :=
  negb (is_controlb a && is_controlb b
        && list_Z_eqb (getbyterepresentation cfg a) (getbyterepresentation cfg b))
  || (a =? b)
  || ((128 <=? a) && (a <=? 159) && (128 <=? b) && (b <=? 159)).

(** The glyph of a value in 161..255 is the pair of the C source, is its
    UTF-8 encoding, and decodes to the value. *)
Definition glyph_latin1_ok (cfg : config) (b : Z) : bool :=
  negb ((161 <=? b) && (b <=? 255))
  || (list_Z_eqb (getbyterepresentation cfg b)
        [Z.lor 0xC0 (Z.shiftr b 6); Z.lor 0x80 (Z.land b 0x3F)]
      && list_Z_eqb (getbyterepresentation cfg b) (utf8_encode b)
      && (utf8_decode2 (getbyterepresentation cfg b) =? b)).

(** *** Notions for the further properties of the byte source *)

(** The results of [k] successive calls of [nextbyte]. *)
Fixpoint nextbytes (k : nat) (s : state) : list Z :=
  match k with
  | O => []
  | S k' => let '(c, s1) := nextbyte s in c :: nextbytes k' s1
  end.

(** An input that yields no byte and reports no success: its name does not
    open. *)
Definition unopenable (f : input) : Prop := in_stdin f || in_opens f = false.

(** An exit code after a step that may have called [fail]: unchanged, or
    EXIT_FAILURE. *)
Definition exit_after (before after : Z) : Prop :=
  after = before \/ after = EXIT_FAILURE.

(** ** The top-level functions *)

(** How a function that may call [exit] ends: it returns a value, or the
    program exits with a status; [exit] flushes stdout, so the exit carries
    what had been written there. *)
Inductive run (A : Type) : Type :=
  | Returns (a : A)
  | Exits (status : Z) (out : list outitem).
Arguments Returns {A} a.
Arguments Exits {A} status out.

Definition bind {A B : Type} (r : run A) (k : A -> run B) : run B :=
  match r with
  | Returns a => k a
  | Exits status out => Exits status out
  end.

(** The online help and the version information. *)
Definition yowzitch : list Z :=
  str "Usage: xcd [OPTIONS] [FILENAME]..." ++ [NL] ++
  str "Output the contents of FILENAME as a hex dump (displaying octets as"
    ++ [NL] ++
  str "hexadecimal values, and characters when appropriate), using contrasting"
    ++ [NL] ++
  str "colors to help bring out patterns. With multiple arguments, the files'"
    ++ [NL] ++
  str "contents are concatenated together. With no arguments, or when FILENAME"
    ++ [NL] ++
  str "is -, read from standard input." ++ [NL] ++
  [NL] ++
  str "  -c, --count=N         Display N bytes per line [default=16]" ++ [NL] ++
  str "  -g, --group=N         Display N bytes per groups [default=2]" ++ [NL] ++
  str "  -s, --start=N         Start N bytes after start of input" ++ [NL] ++
  str "  -l, --limit=N         Stop after N bytes of input" ++ [NL] ++
  str "  -a, --autoskip        Omit lines of zero bytes with a single "
    ++ [34; 42; 34; NL] ++
  str "  -N, --no-color        Suppress color output" ++ [NL] ++
  str "  -R, --raw             Dump colorized bytes without the hex display"
    ++ [NL] ++
  str "  -A, --ascii           Don't use Unicode characters in text column"
    ++ [NL] ++
  str "      --help            Display this help and exit" ++ [NL] ++
  str "      --version         Display version information and exit" ++ [NL].

Definition vourzhon : list Z :=
  str "xcd: v1.2" ++ [NL] ++
  str "Copyright (C) 2018 by Brian Raiter <breadbox@muppetlabs.com>" ++ [NL] ++
  str "This is free software; you are free to change and redistribute it."
    ++ [NL] ++
  str "There is NO WARRANTY, to the extent permitted by law." ++ [NL].

(** [die]: the message goes to stderr, which is not modelled.  Every call
    of it precedes the first write to stdout. *)
Definition die {A : Type} : run A := Exits EXIT_FAILURE [].

(** What the C library answers for the argument of a numeric option:
    whether the string is null or empty, and for [strtol (str, &p, 0)] the
    value, whether [*p] is the terminating NUL, whether [p] has moved off
    [str], and whether [errno] is ERANGE after the call. *)
Record numarg := {
  arg_missing : bool;
  strtol_value : Z;
  strtol_at_end : bool;
  strtol_moved : bool;
  strtol_erange : bool
}.

(** The code of a character constant of the C source. *)
Definition char_code (c : byte) : Z := byteval c.
Arguments char_code c%_byte.

(** One answer of [getopt_long]: the value it returns and [optarg]. *)
Record found_option := {
  opt_ch : Z;
  opt_arg : numarg
}.

(** What the terminfo database answers: whether [setupterm] succeeds,
    whether the terminal has the strings sgr0 and setaf, its number of
    colors, and which of the strings is1, is2, is3 it has. *)
Record terminal := {
  setupterm_ok : bool;
  has_sgr0 : bool;
  has_setaf : bool;
  colors : Z;
  has_is : Z -> bool
}.

(** Standard input as an entry of the list of filenames: the name "-". *)
Definition standard_input (data : list byte) (read_error : bool) : input :=
  {| in_stdin := true; in_opens := false; in_data := data;
     in_ferror := read_error; in_fclose_fails := false |}.

(** The initial values of the global settings; [hexwidth] is a static
    variable without initializer. *)
Definition settings_start : config :=
  {| autoskip := false; linesize := 16; groupsize := 2; hexoutput := true;
     colorize := true; useunicode := true; hexwidth := 0 |}.

Section TopLevel.
(** The largest [long] of the platform. *)
Variable LONG_MAX : Z.

(** [getn]: a small non-negative integer read from a string. *)
Definition getn (a : numarg) (maxval : Z) : run Z :=
  if arg_missing a then die
  else
    let n := strtol_value a in
    if negb (strtol_at_end a) || negb (strtol_moved a)
       || ((n =? LONG_MAX) && strtol_erange a)
       || (n <? 0) || (n >? INT_MAX)
    then die
    else if negb (maxval =? 0) && (n >? maxval) then die
    else Returns n.

(** The [switch] of [parsecommandline] on one answer of [getopt_long],
    acting on the global settings [g] and the state [s]. *)
Definition parsecommandline_switch (ch : Z) (optarg : numarg) (g : config)
    (s : state) : run (config * state) :=
  if ch =? char_code "l" then
    bind (getn optarg 0) (fun n => Returns (g, set_maxinputlen n s))
  else if ch =? char_code "s" then
    bind (getn optarg 0) (fun n =>
      Returns (g, {| startoffset := n; maxinputlen := maxinputlen s;
                     filenames := filenames s; currentfile := currentfile s;
                     exitcode := exitcode s |}))
  else if ch =? char_code "c" then
    bind (getn optarg 255) (fun n =>
      Returns ({| autoskip := autoskip g; linesize := n;
                  groupsize := groupsize g; hexoutput := hexoutput g;
                  colorize := colorize g; useunicode := useunicode g;
                  hexwidth := hexwidth g |}, s))
  else if ch =? char_code "g" then
    bind (getn optarg 0) (fun n =>
      Returns ({| autoskip := autoskip g; linesize := linesize g;
                  groupsize := n; hexoutput := hexoutput g;
                  colorize := colorize g; useunicode := useunicode g;
                  hexwidth := hexwidth g |}, s))
  else if ch =? char_code "a" then
    Returns ({| autoskip := true; linesize := linesize g;
                groupsize := groupsize g; hexoutput := hexoutput g;
                colorize := colorize g; useunicode := useunicode g;
                hexwidth := hexwidth g |}, s)
  else if ch =? char_code "N" then
    Returns ({| autoskip := autoskip g; linesize := linesize g;
                groupsize := groupsize g; hexoutput := hexoutput g;
                colorize := false; useunicode := useunicode g;
                hexwidth := hexwidth g |}, s)
  else if ch =? char_code "R" then
    Returns ({| autoskip := autoskip g; linesize := linesize g;
                groupsize := groupsize g; hexoutput := false;
                colorize := colorize g; useunicode := useunicode g;
                hexwidth := hexwidth g |}, s)
  else if ch =? char_code "A" then
    Returns ({| autoskip := autoskip g; linesize := linesize g;
                groupsize := groupsize g; hexoutput := hexoutput g;
                colorize := colorize g; useunicode := false;
                hexwidth := hexwidth g |}, s)
  else if ch =? char_code "h" then Exits 0 (chars yowzitch)
  else if ch =? char_code "v" then Exits 0 (chars vourzhon)
  else die.

(** Its [while] loop, over the answers of [getopt_long] up to EOF. *)
Fixpoint parsecommandline_loop (opts : list found_option) (g : config)
    (s : state) : run (config * state) :=
  match opts with
  | [] => Returns (g, s)
  | o :: opts' =>
      bind (parsecommandline_switch (opt_ch o) (opt_arg o) g s)
        (fun '(g1, s1) => parsecommandline_loop opts' g1 s1)
  end.

(** [parsecommandline]: [opts] lists the answers of [getopt_long], [args]
    the arguments from [optind] on, and [stdin] stands for the default
    argument "-". *)
Definition parsecommandline (opts : list found_option) (args : list input)
    (stdin : input) : run (config * state) :=
  let s := {| startoffset := 0; maxinputlen := INT_MAX; filenames := [stdin];
              currentfile := None; exitcode := 0 |} in
  bind (parsecommandline_loop opts settings_start s) (fun '(g, s) =>
    if negb (hexoutput g) && negb (colorize g) then die
    else
      let cfg := parsecommandline_finish (autoskip g) (linesize g)
                   (groupsize g) (hexoutput g) (colorize g) (useunicode g) in
      Returns (cfg,
               match args with
               | [] => s
               | _ :: _ => set_files args (currentfile s) s
               end)).

(** [initoutput] with its exits: nothing has been written when it gives
    up on the terminal. *)
Definition initoutput_or_exit (cfg : config) (t : terminal) (o : output)
    : run output :=
  if negb (colorize cfg) then Returns o
  else if negb (setupterm_ok t) then Exits EXIT_FAILURE (stdout o)
  else if negb (has_sgr0 t) || negb (has_setaf t)
  then Exits EXIT_FAILURE (stdout o)
  else if colors t <? 256 then Exits EXIT_FAILURE (stdout o)
  else Returns (initoutput cfg (has_is t) o).

(** [main]: the exit status and what stdout holds at the end, or [None]
    for a run that faults.  [line0] is the content of the uninitialized
    array of the dump driver. *)
Definition main (opts : list found_option) (args : list input)
    (stdin : input) (t : terminal) (line0 : list Z)
    : option (Z * list outitem) :=
  match parsecommandline opts args stdin with
  | Exits status out => Some (status, out)
  | Returns (cfg, s) =>
      match initoutput_or_exit cfg t output_start with
      | Exits status out => Some (status, out)
      | Returns o =>
          match dump cfg line0 s o with
          | Some (s', o') => Some (exitcode s', stdout o')
          | None => None
          end
      end
  end.
End TopLevel.

(** What a step of the program may do to the exit code: leave it, or set
    EXIT_FAILURE; and it leaves it when the inputs still listed are clean,
    which they then remain. *)
Definition exit_step (s s' : state) : Prop :=
  exit_after (exitcode s) (exitcode s') /\
  (Forall clean (filenames s) ->
   exitcode s' = exitcode s /\ Forall clean (filenames s')).

(** The list of filenames that [parsecommandline] leaves in the state. *)
Definition filenames_of (args : list input) (stdin : input) : list input :=
  match args with
  | [] => [stdin]
  | _ :: _ => args
  end.

(** *** The text of the output *)

(** The characters of a piece of output: what is left of it when the
    terminal's control strings are taken out. *)
Fixpoint only_chars (xs : list outitem) : list Z :=
  match xs with
  | [] => []
  | OChar c :: xs' => c :: only_chars xs'
  | _ :: xs' => only_chars xs'
  end.

(** The hex column and the text column of the bytes [i .. i + k - 1] of
    [buf], and the line of a hex dump, as characters. *)
Fixpoint hex_text (cfg : config) (buf : list Z) (k : nat) (i : Z) : list Z :=
  match k with
  | O => []
  | S k' =>
      (if i mod groupsize cfg =? 0 then [SP] else [])
      ++ fmt_02X (buf !!! Z.to_nat i) ++ hex_text cfg buf k' (i + 1)
  end.

Fixpoint glyph_text (cfg : config) (buf : list Z) (k : nat) (i : Z)
    : list Z :=
  match k with
  | O => []
  | S k' =>
      getbyterepresentation cfg (buf !!! Z.to_nat i)
      ++ glyph_text cfg buf k' (i + 1)
  end.

Definition line_text (cfg : config) (buf : list Z) (n pos : Z) : list Z :=
  fmt_08X pos ++ [58]
  ++ hex_text cfg buf (Z.to_nat n) 0
  ++ fmt_pad (hexwidth cfg - 2 * n - groups cfg n) ++ [SP; SP]
  ++ glyph_text cfg buf (Z.to_nat n) 0
  ++ [NL].

(** The characters that one call of [dumpline] writes. *)
Definition dumpline_text (cfg : config) (buf : list Z) (n pos : Z) : list Z :=
  if n =? 0 then []
  else if negb (hexoutput cfg) then buf_bytes buf 0 (Z.to_nat n)
  else line_text cfg buf n pos.

(** The settings with color switched on or off. *)
Definition set_colorize (b : bool) (cfg : config) : config :=
  {| autoskip := autoskip cfg; linesize := linesize cfg;
     groupsize := groupsize cfg; hexoutput := hexoutput cfg;
     colorize := b; useunicode := useunicode cfg;
     hexwidth := hexwidth cfg |}.

(** A character that a hex dump may write: a newline, a printable ASCII
    character or, with extended glyphs, a byte of a UTF-8 sequence. *)
Definition dump_char (cfg : config) (c : Z) : bool :=
  (c =? NL) || ((32 <=? c) && (c <=? 126))
  || (useunicode cfg && (128 <=? c) && (c <=? 255)).

(** The characters that [dumpline] writes for a list of chunks, the first
    of them at position [pos]. *)
Fixpoint lines_text (cfg : config) (cs : list (list Z)) (pos : Z) : list Z :=
  match cs with
  | [] => []
  | c :: cs' =>
      dumpline_text cfg c (Z.of_nat (length c)) pos
      ++ lines_text cfg cs' (pos + Z.of_nat (length c))
  end.

(** Two outputs that show the same characters. *)
Definition same_text (o p : output) : Prop :=
  only_chars (stdout o) = only_chars (stdout p).

(** *** Reading a hex dump back *)

(** The value of a hexadecimal digit, upper case. *)
Definition unhex (c : Z) : option Z :=
  if (48 <=? c) && (c <=? 57) then Some (c - 48)
  else if (65 <=? c) && (c <=? 70) then Some (c - 55)
  else None.

Fixpoint unhex_number (acc : Z) (cs : list Z) : option Z :=
  match cs with
  | [] => Some acc
  | c :: cs' =>
      match unhex c with
      | Some d => unhex_number (16 * acc + d) cs'
      | None => None
      end
  end.

(** The bytes of a hex column: pairs of digits, each preceded by one blank
    at most, up to the first place where no such pair stands. *)
Fixpoint unhex_bytes (fuel : nat) (cs : list Z) : list Z :=
  match fuel with
  | O => []
  | S fuel' =>
      let cs1 :=
        match cs with
        | c :: rest => if c =? SP then rest else cs
        | [] => cs
        end in
      match cs1 with
      | a :: b :: rest =>
          match unhex a, unhex b with
          | Some x, Some y => (16 * x + y) :: unhex_bytes fuel' rest
          | _, _ => []
          end
      | _ => []
      end
  end.

(** The offset and the bytes of the line of a hex dump that a text starts
    with. *)
Definition undump_line (cs : list Z) : option (Z * list Z) :=
  match unhex_number 0 (take 8 cs), drop 8 cs with
  | Some offset, c :: rest =>
      if c =? 58 then Some (offset, unhex_bytes (length rest) rest) else None
  | _, _ => None
  end.

(** The text after the first newline. *)
Fixpoint skip_line (cs : list Z) : list Z :=
  match cs with
  | [] => []
  | c :: cs' => if c =? NL then cs' else skip_line cs'
  end.

(** The lines of a hex dump, each with its offset and its bytes. *)
Fixpoint undump (fuel : nat) (cs : list Z) : list (Z * list Z) :=
  match fuel with
  | O => []
  | S fuel' =>
      match undump_line cs with
      | Some l => l :: undump fuel' (skip_line cs)
      | None => []
      end
  end.

(** A list of chunks with the offsets they are shown at, as printed: the
    low 32 bits of the position. *)
Fixpoint lines_at (pos : Z) (cs : list (list Z)) : list (Z * list Z) :=
  match cs with
  | [] => []
  | c :: cs' => (pos mod 2 ^ 32, c) :: lines_at (pos + Z.of_nat (length c)) cs'
  end.

Definition not_NL (c : Z) : bool := negb (c =? NL).

(** *** UTF-8 text *)

(** A continuation byte of UTF-8. *)
Definition is_cont (c : Z) : bool := (128 <=? c) && (c <=? 191).

(** The code points of a UTF-8 string made of sequences of one, two and
    three bytes (the code points below U+10000), or [None] when the string
    is not well formed: a stray or missing continuation byte, an overlong
    form, a surrogate, or a lead byte of a longer sequence. *)
Fixpoint utf8_decode (s : list Z) : option (list Z) :=
  match s with
  | [] => Some []
  | b0 :: s1 =>
      if (0 <=? b0) && (b0 <? 128) then option_map (cons b0) (utf8_decode s1)
      else if (194 <=? b0) && (b0 <=? 223) then
        match s1 with
        | b1 :: s2 =>
            if is_cont b1
            then option_map (cons ((b0 - 192) * 64 + (b1 - 128)))
                   (utf8_decode s2)
            else None
        | [] => None
        end
      else if (224 <=? b0) && (b0 <=? 239) then
        match s1 with
        | b1 :: b2 :: s3 =>
            let cp := (b0 - 224) * 4096 + (b1 - 128) * 64 + (b2 - 128) in
            if is_cont b1 && is_cont b2 && (2048 <=? cp)
               && negb ((55296 <=? cp) && (cp <=? 57343))
            then option_map (cons cp) (utf8_decode s3)
            else None
        | _ => None
        end
      else None
  end.

(** The character that stands for a byte in the text column: with
    extended glyphs, the control pictures U+2400 .. U+241F for the C0
    controls, U+2420 for the blank, U+2421 for DEL, U+2426 for the C1
    controls, U+2423 for the no-break space, and the Latin-1 character
    itself otherwise; in ASCII mode, the character itself if it prints and
    a full stop if not. *)
Definition shown_codepoint (cfg : config) (b : Z) : Z :=
  if useunicode cfg then
    if b <? 32 then 0x2400 + b
    else if b =? 32 then 0x2420
    else if b <? 127 then b
    else if b =? 127 then 0x2421
    else if b <? 160 then 0x2426
    else if b =? 160 then 0x2423
    else b
  else if isprint b then b else 46.

(** The glyph of [b] is a single well-formed UTF-8 sequence for that
    character, as a test. *)
Definition glyph_utf8_ok (cfg : config) (b : Z) : bool :=
  match getbyterepresentation cfg b with
  | [b0] => (0 <=? b0) && (b0 <? 128) && (b0 =? shown_codepoint cfg b)
  | [b0; b1] =>
      negb ((0 <=? b0) && (b0 <? 128)) && (194 <=? b0) && (b0 <=? 223)
      && is_cont b1 && ((b0 - 192) * 64 + (b1 - 128) =? shown_codepoint cfg b)
  | [b0; b1; b2] =>
      let cp := (b0 - 224) * 4096 + (b1 - 128) * 64 + (b2 - 128) in
      negb ((0 <=? b0) && (b0 <? 128)) && negb ((194 <=? b0) && (b0 <=? 223))
      && (224 <=? b0) && (b0 <=? 239)
      && is_cont b1 && is_cont b2 && (2048 <=? cp)
      && negb ((55296 <=? cp) && (cp <=? 57343))
      && (cp =? shown_codepoint cfg b)
  | _ => false
  end.

(** *** What elision drops *)

(** The non-zero bytes of a list, in order. *)
Definition nonzero_bytes (bs : list Z) : list Z :=
  List.filter (fun b => negb (b =? 0)) bs.

(** What the rounds of [dumpfileswithautoskip] keep true of the lines it
    holds back: the last of them, still in the array, is all zeros. *)
Definition held_zero (h : held) : Prop :=
  linesheld h <> 0 ->
  nonzero_bytes (take (Z.to_nat (lastheldsize h)) (line h)) = [].

(** *** The exit status *)

(** The open file, if there is one, belongs to the first name of the list,
    which opened. *)
Definition open_ok (s : state) : Prop :=
  currentfile s <> None ->
  exists (f : input) (fs : list input),
    filenames s = f :: fs /\ in_stdin f || in_opens f = true.

(** A failure has been recorded, or is in store: an input still listed is
    not clean. *)
Definition failing (s : state) : Prop :=
  exitcode s = EXIT_FAILURE \/ Exists (fun f => ~ clean f) (filenames s).

(** Every input has been read and closed. *)
Definition all_read (s : state) : Prop :=
  filenames s = [] /\ currentfile s = None.

(** The limit on the input exceeds what is left of the stream. *)
Definition beyond_end (s : state) : Prop :=
  Z.of_nat (length (pending s)) < maxinputlen s.

(** *** Short runs of zero lines *)

(** The settings with autoskip switched on or off. *)
Definition set_autoskip (b : bool) (cfg : config) : config :=
  {| autoskip := b; linesize := linesize cfg;
     groupsize := groupsize cfg; hexoutput := hexoutput cfg;
     colorize := colorize cfg; useunicode := useunicode cfg;
     hexwidth := hexwidth cfg |}.

(** No three chunks in a row are all zeros, when [k] chunks of zeros
    precede the list. *)
Fixpoint zero_run_ok (k : nat) (cs : list (list Z)) : bool :=
  match cs with
  | [] => true
  | c :: cs' =>
      if forallb (Z.eqb 0) c then (k <? 2)%nat && zero_run_ok (S k) cs'
      else zero_run_ok 0 cs'
  end.

(** The shape of the chunks of a stream: 1 to [L] bytes each, and [L]
    bytes in all but the last. *)
Fixpoint well_chunked (L : nat) (cs : list (list Z)) : Prop :=
  match cs with
  | [] => True
  | c :: cs' =>
      (1 <= length c <= L)%nat /\ (cs' <> [] -> length c = L) /\
      well_chunked L cs'
  end.

(** The lines that [dumpfileswithautoskip] is holding back: full lines of
    zeros, and a last one of [lastheldsize] zeros. *)
Definition deferred (cfg : config) (h : held) : list (list Z) :=
  if linesheld h =? 0 then []
  else replicate (Z.to_nat (linesheld h - 1)) (zero_chunk cfg)
       ++ [replicate (Z.to_nat (lastheldsize h)) 0].

(** What the rounds keep true of the lines held back, as long as they are
    two at most. *)
Definition held_short (cfg : config) (h : held) : Prop :=
  0 <= linesheld h <= 2 /\ length (line h) = 256%nat /\
  (linesheld h <> 0 ->
   1 <= lastheldsize h <= linesize cfg /\
   pos h = holdpos h + (linesheld h - 1) * linesize cfg + lastheldsize h /\
   take (Z.to_nat (lastheldsize h)) (line h)
   = replicate (Z.to_nat (lastheldsize h)) 0).

(** * Properties *)

(** ** Bytes *)

Lemma all_bytes_complete (b : Z) : 0 <= b < 256 -> In b all_bytes.
Proof.
  intros Hb. unfold all_bytes. apply in_map_iff.
  exists (Z.to_nat b). split; [lia|]. apply in_seq. lia.
Qed.

Lemma byte_forallb (P : Z -> bool) :
  forallb P all_bytes = true -> forall b, 0 <= b < 256 -> P b = true.
Proof.
  intros H b Hb. rewrite forallb_forall in H. apply H.
  by apply all_bytes_complete.
Qed.

Lemma byteval_range (b : byte) : 0 <= byteval b < 256.
Proof.
  unfold byteval. pose proof (Byte.to_N_bounded b) as H. lia.
Qed.

Lemma byteval_not_EOF (b : byte) : (byteval b =? EOF) = false.
Proof.
  apply Z.eqb_neq. pose proof (byteval_range b). unfold EOF. lia.
Qed.

(** ** The glyph resolver *)

Lemma glyph_wellformed_all (u : bool) (c g : Z) (a h col : bool) (w : Z) :
  forallb (fun b => glyph_wellformed
     (getbyterepresentation
        {| autoskip := a; linesize := c; groupsize := g; hexoutput := h;
           colorize := col; useunicode := u; hexwidth := w |} b))
    all_bytes = true.
Proof. destruct u; vm_compute; reflexivity. Qed.

Lemma glyph_clash_all (c g : Z) (a h col : bool) (w : Z) :
  let cfg := {| autoskip := a; linesize := c; groupsize := g; hexoutput := h;
                colorize := col; useunicode := true; hexwidth := w |} in
  forallb (fun x => forallb (glyph_clash_ok cfg x) all_bytes) all_bytes = true.
Proof. vm_compute. reflexivity. Qed.

Lemma glyph_latin1_all (c g : Z) (a h col : bool) (w : Z) :
  let cfg := {| autoskip := a; linesize := c; groupsize := g; hexoutput := h;
                colorize := col; useunicode := true; hexwidth := w |} in
  forallb (glyph_latin1_ok cfg) all_bytes = true.
Proof. vm_compute. reflexivity. Qed.

(** C8, as the specification states it, fails: the extended mode shows
    every byte value from 128 to 159 as the same control picture, so 128
    and 129, both control values, share the glyph E2 90 A6. *)
Lemma glyph_control_collision :
  getbyterepresentation default_config 128 = [226; 144; 166] /\
  getbyterepresentation default_config 129 = [226; 144; 166] /\
  ~ (forall a b : Z, is_control a -> is_control b ->
       getbyterepresentation default_config a
       = getbyterepresentation default_config b -> a = b).
Proof.
  split; [reflexivity|]. split; [reflexivity|].
  intros H. specialize (H 128 129).
  assert (128 = 129) as Habs; [|lia].
  apply H; unfold is_control; try lia. reflexivity.
Qed.

(** C8, amended: in each mode the glyph resolver maps every byte value
    0..255 to one display string of 1 to 3 bytes, none of them NUL (so the
    C string read back is that string); in extended mode two control values
    (0..31, 127, 128..160) share a glyph only if they are equal or both lie
    in 128..159, and every value in 128..159 has the glyph E2 90 A6. *)
Theorem glyph_total_controls_distinct (cfg : config) (a b : Z) :
  0 <= a <= 255 -> 0 <= b <= 255 ->
  (exists g : list Z,
      getbyterepresentation cfg a = g /\
      (1 <= length g <= 3)%nat /\ Forall (fun c => 1 <= c <= 255) g) /\
  (useunicode cfg = true -> is_control a -> is_control b ->
   getbyterepresentation cfg a = getbyterepresentation cfg b ->
   a = b \/ (128 <= a <= 159 /\ 128 <= b <= 159)) /\
  (useunicode cfg = true -> 128 <= a <= 159 ->
   getbyterepresentation cfg a = [226; 144; 166]).
Proof.
  intros Ha Hb. split; [|split].
  - exists (getbyterepresentation cfg a). split; [reflexivity|].
    destruct cfg as [sk c g h col u w].
    pose proof (byte_forallb _ (glyph_wellformed_all u c g sk h col w) a) as H.
    specialize (H ltac:(lia)). unfold glyph_wellformed in H.
    apply andb_prop in H as [H H3]. apply andb_prop in H as [H1 H2].
    split; [lia|]. apply Forall_forall. intros x Hx.
    rewrite forallb_forall in H3. apply list_elem_of_In in Hx.
    specialize (H3 x Hx). lia.
  - intros Hu Hca Hcb Heq.
    destruct cfg as [sk c g h col u w]. simpl in Hu. subst u.
    pose proof (glyph_clash_all c g sk h col w) as H. cbv zeta in H.
    rewrite forallb_forall in H.
    specialize (H a (all_bytes_complete a ltac:(lia))).
    pose proof (byte_forallb _ H b ltac:(lia)) as H'.
    unfold glyph_clash_ok, list_Z_eqb in H'.
    rewrite bool_decide_eq_true_2 in H' by exact Heq.
    unfold is_control in Hca, Hcb. unfold is_controlb in H'. lia.
  - intros Hu Hr. unfold getbyterepresentation. rewrite Hu.
    repeat match goal with
           | |- context [?x <? ?y] => destruct (Z.ltb_spec x y); try lia
           | |- context [?x =? ?y] => destruct (Z.eqb_spec x y); try lia
           end.
    reflexivity.
Qed.

Lemma glyph_total_controls_distinct_witness :
  (exists g : list Z,
      getbyterepresentation default_config 10 = g /\
      (1 <= length g <= 3)%nat /\ Forall (fun c => 1 <= c <= 255) g) /\
  (useunicode default_config = true -> is_control 10 -> is_control 127 ->
   getbyterepresentation default_config 10
   = getbyterepresentation default_config 127 ->
   10 = 127 \/ (128 <= 10 <= 159 /\ 128 <= 127 <= 159)) /\
  (useunicode default_config = true -> 128 <= 10 <= 159 ->
   getbyterepresentation default_config 10 = [226; 144; 166]).
Proof.
  apply (glyph_total_controls_distinct default_config 10 127); lia.
Defined.

(** C10: in extended mode every byte value b in 161..255 is shown as the
    pair 0xC0|(b>>6), 0x80|(b&0x3F), which is the two-byte UTF-8 encoding
    of the code point b; decoding the pair gives b back, so the mapping is
    injective on 161..255. *)
Theorem glyph_latin1_utf8 (cfg : config) (b : Z) :
  useunicode cfg = true -> 161 <= b <= 255 ->
  getbyterepresentation cfg b
    = [Z.lor 0xC0 (Z.shiftr b 6); Z.lor 0x80 (Z.land b 0x3F)] /\
  getbyterepresentation cfg b = utf8_encode b /\
  utf8_decode2 (getbyterepresentation cfg b) = b /\
  (forall b' : Z, 161 <= b' <= 255 ->
     getbyterepresentation cfg b' = getbyterepresentation cfg b -> b' = b).
Proof.
  intros Hu Hb.
  assert (forall x, 161 <= x <= 255 ->
            getbyterepresentation cfg x
              = [Z.lor 0xC0 (Z.shiftr x 6); Z.lor 0x80 (Z.land x 0x3F)] /\
            getbyterepresentation cfg x = utf8_encode x /\
            utf8_decode2 (getbyterepresentation cfg x) = x) as Hall.
  { intros x Hx. destruct cfg as [sk c g h col u w]. simpl in Hu. subst u.
    pose proof (byte_forallb _ (glyph_latin1_all c g sk h col w) x
                  ltac:(lia)) as H.
    unfold glyph_latin1_ok, list_Z_eqb in H.
    apply orb_prop in H as [H|H]; [lia|].
    apply andb_prop in H as [H H3]. apply andb_prop in H as [H1 H2].
    apply bool_decide_eq_true_1 in H1, H2. apply Z.eqb_eq in H3. auto. }
  destruct (Hall b Hb) as (H1 & H2 & H3).
  repeat split; try assumption.
  intros b' Hb' Heq. destruct (Hall b' Hb') as (_ & _ & H3').
  rewrite Heq in H3'. lia.
Qed.

Lemma glyph_latin1_utf8_witness :
  getbyterepresentation default_config 233
    = [Z.lor 0xC0 (Z.shiftr 233 6); Z.lor 0x80 (Z.land 233 0x3F)] /\
  getbyterepresentation default_config 233 = utf8_encode 233 /\
  utf8_decode2 (getbyterepresentation default_config 233) = 233 /\
  (forall b' : Z, 161 <= b' <= 255 ->
     getbyterepresentation default_config b'
     = getbyterepresentation default_config 233 -> b' = 233).
Proof.
  apply (glyph_latin1_utf8 default_config 233); [reflexivity | lia].
Defined.

(** ** Column layout of the hex dump *)

Lemma width_app (xs ys : list outitem) : width (xs ++ ys) = width xs + width ys.
Proof.
  induction xs as [|x xs IH]; simpl; [lia|]. destruct x; rewrite IH; lia.
Qed.

Lemma width_chars (s : list Z) : width (chars s) = Z.of_nat (length s).
Proof. induction s as [|c s IH]; simpl length; simpl width; lia. Qed.

Lemma length_hexdigits (n : nat) (v : Z) : length (hexdigits n v) = n.
Proof.
  revert v. induction n as [|n IH]; intros v; simpl; [reflexivity|].
  rewrite length_app, IH. simpl. lia.
Qed.

Lemma groups_step (cfg : config) (i : Z) :
  1 <= groupsize cfg -> 0 <= i ->
  groups cfg (i + 1)
  = groups cfg i + (if i mod groupsize cfg =? 0 then 1 else 0).
Proof.
  intros Hg Hi. unfold groups.
  pose proof (Z.div_mod i (groupsize cfg) ltac:(lia)) as Hdm.
  pose proof (Z.mod_pos_bound i (groupsize cfg) ltac:(lia)) as Hr.
  set (g := groupsize cfg) in *. set (q := i / g) in *. set (r := i mod g) in *.
  destruct (Z.eqb_spec r 0) as [H0|H0].
  - replace (i + 1 + g - 1) with (g * (q + 1) + 0) by lia.
    replace (i + g - 1) with (g * q + (g - 1)) by lia.
    rewrite !(Z.mul_comm g), !Z.div_add_l by lia.
    rewrite Z.div_0_l, (Z.div_small (g - 1) g) by lia. lia.
  - replace (i + 1 + g - 1) with (g * (q + 1) + r) by lia.
    replace (i + g - 1) with (g * (q + 1) + (r - 1)) by lia.
    rewrite !(Z.mul_comm g), !Z.div_add_l by lia.
    rewrite !Z.div_small by lia. lia.
Qed.

Lemma groups_0 (cfg : config) : 1 <= groupsize cfg -> groups cfg 0 = 0.
Proof. intros Hg. unfold groups. apply Z.div_small. lia. Qed.

Lemma groups_mono (cfg : config) (n m : Z) :
  1 <= groupsize cfg -> n <= m -> groups cfg n <= groups cfg m.
Proof. intros Hg Hnm. unfold groups. apply Z.div_le_mono; lia. Qed.

Lemma renderlineuncolored_hex_layout (cfg : config) (buf : list Z) (k : nat) :
  1 <= groupsize cfg ->
  forall (i x : Z) (o : output), 0 <= i ->
  let r := renderlineuncolored_hex cfg buf k i x o in
  fst r = x - (groups cfg (i + Z.of_nat k) - groups cfg i) /\
  width (stdout (snd r))
  = width (stdout o) + 2 * Z.of_nat k
    + (groups cfg (i + Z.of_nat k) - groups cfg i).
Proof.
  intros Hg. induction k as [|k IH]; intros i x o Hi.
  - simpl. rewrite Z.add_0_r. lia.
  - cbn zeta. cbn [renderlineuncolored_hex].
    pose proof (groups_step cfg i Hg Hi) as Hs.
    replace (i + Z.of_nat (S k)) with (i + 1 + Z.of_nat k) by lia.
    destruct (i mod groupsize cfg =? 0);
      match goal with
      | |- context [renderlineuncolored_hex cfg buf k (i + 1) ?x1 ?o1] =>
          destruct (IH (i + 1) x1 o1 ltac:(lia)) as [E1 E2]
      end;
      rewrite E1, E2; simpl stdout; rewrite ?width_app, ?width_chars;
      unfold fmt_02X; rewrite ?length_hexdigits; simpl width; lia.
Qed.

Lemma assigncolor_stdout (ch : Z) (o o1 : output) :
  assigncolor ch o = Some o1 -> stdout o1 = stdout o.
Proof.
  unfold assigncolor. intros H.
  destruct (palette o !!! Z.to_nat ch =? 0); [|by injection H as <-].
  destruct (nextcolorfromset o <? 0); [discriminate|].
  destruct (colorset !! Z.to_nat (nextcolorfromset o)); [|discriminate].
  by injection H as <-.
Qed.

Lemma renderlinecolored_hex_layout (cfg : config) (buf : list Z) (k : nat) :
  1 <= groupsize cfg ->
  forall (i x : Z) (o : output) (r : Z * output), 0 <= i ->
  renderlinecolored_hex cfg buf k i x o = Some r ->
  fst r = x - (groups cfg (i + Z.of_nat k) - groups cfg i) /\
  width (stdout (snd r))
  = width (stdout o) + 2 * Z.of_nat k
    + (groups cfg (i + Z.of_nat k) - groups cfg i).
Proof.
  intros Hg. induction k as [|k IH]; intros i x o r Hi Hr.
  - simpl in Hr. injection Hr as <-. simpl. rewrite Z.add_0_r. lia.
  - cbn [renderlinecolored_hex] in Hr.
    pose proof (groups_step cfg i Hg Hi) as Hs.
    replace (i + Z.of_nat (S k)) with (i + 1 + Z.of_nat k) by lia.
    destruct (i mod groupsize cfg =? 0); cbn zeta beta iota in Hr;
      match type of Hr with
      | context [assigncolor ?c ?o1] =>
          destruct (assigncolor c o1) as [o2|] eqn:Ha; [|discriminate];
          apply assigncolor_stdout in Ha
      end;
      (apply IH in Hr as [E1 E2]; [|lia]);
      rewrite E1, E2; simpl stdout; rewrite Ha; simpl stdout;
      rewrite ?width_app; simpl width; rewrite ?width_chars;
      unfold fmt_02X; rewrite ?length_hexdigits; simpl width; lia.
Qed.

(** *** The hex width that [parsecommandline] computes *)

Lemma wrap_int_small (z : Z) :
  -2147483648 <= z < 2147483648 -> wrap_int z = z.
Proof.
  intros H. unfold wrap_int.
  change (2 ^ 31) with 2147483648. change (2 ^ 32) with 4294967296.
  rewrite Z.mod_small by lia. lia.
Qed.

Lemma wrap_int_above (z : Z) :
  2147483648 <= z < 6442450944 -> wrap_int z = z - 4294967296.
Proof.
  intros H. unfold wrap_int.
  change (2 ^ 31) with 2147483648. change (2 ^ 32) with 4294967296.
  replace (z + 2147483648) with (z - 2147483648 + 1 * 4294967296) by lia.
  rewrite Z.mod_add by lia. rewrite Z.mod_small by lia. lia.
Qed.

Lemma wrap_int_add_l (a b : Z) : wrap_int (wrap_int a + b) = wrap_int (a + b).
Proof.
  unfold wrap_int.
  replace ((a + 2 ^ 31) mod 2 ^ 32 - 2 ^ 31 + b + 2 ^ 31)
    with ((a + 2 ^ 31) mod 2 ^ 32 + b) by lia.
  rewrite Zplus_mod_idemp_l. f_equal. f_equal. lia.
Qed.

(** [hexwidth] is the width of a full line as long as the computation
    stays inside [int]; for the larger group sizes it is one or two
    columns short of it. *)
Lemma hexwidth_finish (a : bool) (c g : Z) (h col u : bool) :
  0 <= c <= 255 -> 0 <= g <= INT_MAX ->
  let cfg := parsecommandline_finish a c g h col u in
  (linesize cfg + groupsize cfg - 1 <= INT_MAX ->
   hexwidth cfg = 2 * linesize cfg + groups cfg (linesize cfg)) /\
  (INT_MAX < linesize cfg + groupsize cfg - 1 ->
   hexwidth cfg = 2 * linesize cfg \/ hexwidth cfg = 2 * linesize cfg - 1).
Proof.
  intros Hc Hg. unfold parsecommandline_finish, groups.
  cbn [linesize groupsize hexwidth].
  set (c1 := if c =? 0 then 16 else c).
  assert (1 <= c1 <= 255) as Hc1
    by (unfold c1; destruct (Z.eqb_spec c 0); lia).
  set (g1 := if g =? 0 then c1 else g).
  assert (1 <= g1 <= INT_MAX) as Hg1
    by (unfold g1; destruct (Z.eqb_spec g 0); unfold INT_MAX in *; lia).
  clearbody c1 g1. unfold INT_MAX in *.
  rewrite (wrap_int_small (2 * c1)) by lia.
  change (wrap_int (c1 + g1) - 1) with (wrap_int (c1 + g1) + -1).
  rewrite wrap_int_add_l.
  split; intros Hs.
  - rewrite (wrap_int_small (c1 + g1 + -1)) by lia.
    rewrite Z.quot_div_nonneg by lia.
    replace (c1 + g1 + -1) with (c1 + g1 - 1) by lia.
    assert (0 <= (c1 + g1 - 1) / g1 <= 256) as Hq.
    { split; [apply Z.div_pos; lia|].
      apply Z.div_le_upper_bound; nia. }
    rewrite wrap_int_small by lia. reflexivity.
  - rewrite (wrap_int_above (c1 + g1 + -1)) by lia.
    replace (c1 + g1 + -1 - 4294967296)
      with (- (4294967297 - c1 - g1)) by lia.
    rewrite Z.quot_opp_l by lia.
    rewrite Z.quot_div_nonneg by lia.
    assert ((4294967297 - c1 - g1) / g1 = 0 \/ (4294967297 - c1 - g1) / g1 = 1)
      as [-> | ->].
    { assert (0 <= (4294967297 - c1 - g1) / g1) by (apply Z.div_pos; lia).
      assert ((4294967297 - c1 - g1) / g1 < 2)
        by (apply Z.div_lt_upper_bound; lia).
      lia. }
    + left. rewrite wrap_int_small by lia. lia.
    + right. rewrite wrap_int_small by lia. lia.
Qed.

Lemma width_fmt_pad (x : Z) : 0 <= x -> Z.of_nat (length (fmt_pad x)) = x.
Proof. intros Hx. unfold fmt_pad. rewrite length_replicate. lia. Qed.

(** C7, as the specification states it, fails: with the default settings
    (16 bytes per line in groups of 2, so that the hex column is 40 wide) a
    full line of 16 bytes leaves the width 0 to the padding directive, not
    40 - 2 * 16 = 8: the blanks written before the groups are taken off
    first.  Only the two fixed blanks separate the last hex digit from the
    text column. *)
Lemma padding_full_line_counterexample :
  hexwidth default_config - 2 * 16 = 8 /\
  fst (renderlineuncolored_hex default_config (replicate 256 65)
         (Z.to_nat 16) 0 (hexwidth default_config - 2 * 16) output_start) = 0 /\
  fst (renderlineuncolored_hex default_config (replicate 256 65)
         (Z.to_nat 16) 0 (hexwidth default_config - 2 * 16) output_start)
  <> hexwidth default_config - 2 * 16 /\
  stdout (renderlineuncolored default_config (replicate 256 65) 16 0
            output_start)
  = chars (str "00000000: 4141 4141 4141 4141 4141 4141 4141 4141  AAAAAAAAAAAAAAAA"
           ++ [NL]).
Proof.
  split; [reflexivity|]. split; [vm_compute; reflexivity|].
  split; [vm_compute; discriminate|]. vm_compute. reflexivity.
Qed.

Lemma stdout_emit (xs : list outitem) (o : output) :
  stdout (emit xs o) = stdout o ++ xs.
Proof. reflexivity. Qed.

Lemma length_fmt_08X (pos : Z) : length (fmt_08X pos) = 8%nat.
Proof. apply length_hexdigits. Qed.

(** The layout of the head of a line, for settings whose [hexwidth] is the
    width of a full line. *)
Lemma hex_padding_layout (cfg : config) (buf : list Z) (n pos : Z)
    (o : output) :
  1 <= groupsize cfg -> 1 <= n <= linesize cfg ->
  hexwidth cfg = 2 * linesize cfg + groups cfg (linesize cfg) ->
  let x := hexwidth cfg - 2 * n - groups cfg n in
  0 <= x /\
  fst (renderlineuncolored_hex cfg buf (Z.to_nat n) 0
         (hexwidth cfg - 2 * n) o) = x /\
  width (stdout (renderlineuncolored_head cfg buf n pos o))
  = width (stdout o) + 11 + hexwidth cfg /\
  (forall r : Z * output,
     renderlinecolored_hex cfg buf (Z.to_nat n) 0 (hexwidth cfg - 2 * n) o
     = Some r -> fst r = x) /\
  (forall o' : output,
     renderlinecolored_head cfg buf n pos o = Some o' ->
     width (stdout o') = width (stdout o) + 11 + hexwidth cfg).
Proof.
  intros Hg Hn Hw x.
  pose proof (groups_mono cfg n (linesize cfg) Hg ltac:(lia)) as Hm.
  pose proof (groups_0 cfg Hg) as H0.
  assert (0 <= x) as Hx by (unfold x; lia).
  split; [exact Hx|]. split; [|split; [|split]].
  - destruct (renderlineuncolored_hex_layout cfg buf (Z.to_nat n) Hg 0
                (hexwidth cfg - 2 * n) o ltac:(lia)) as [E _].
    rewrite E. rewrite Z.add_0_l, Z2Nat.id by lia. unfold x. lia.
  - unfold renderlineuncolored_head.
    match goal with
    | |- context [renderlineuncolored_hex cfg buf ?k 0 ?x0 ?o0] =>
        destruct (renderlineuncolored_hex_layout cfg buf k Hg 0 x0 o0
                    ltac:(lia)) as [E1 E2];
        destruct (renderlineuncolored_hex cfg buf k 0 x0 o0) as [x1 o1]
    end.
    cbn [fst snd] in E1, E2. rewrite Z.add_0_l, Z2Nat.id in E1, E2 by lia.
    rewrite stdout_emit, width_app, width_chars, length_app in E2 |- *.
    rewrite length_fmt_08X in E2.
    rewrite E2. pose proof (width_fmt_pad x1 ltac:(lia)). simpl length. lia.
  - intros r Hr.
    destruct (renderlinecolored_hex_layout cfg buf (Z.to_nat n) Hg 0 _ _ r
                ltac:(lia) Hr) as [E _].
    rewrite E. rewrite Z.add_0_l, Z2Nat.id by lia. unfold x. lia.
  - intros o' Ho'. unfold renderlinecolored_head in Ho'.
    match type of Ho' with
    | context [renderlinecolored_hex cfg buf ?k 0 ?x0 ?o0] =>
        destruct (renderlinecolored_hex cfg buf k 0 x0 o0) as [[x1 o1]|] eqn:Hr;
        [|discriminate];
        destruct (renderlinecolored_hex_layout cfg buf k Hg 0 x0 o0 _
                    ltac:(lia) Hr) as [E1 E2]
    end.
    injection Ho' as <-.
    cbn [fst snd] in E1, E2. rewrite Z.add_0_l, Z2Nat.id in E1, E2 by lia.
    rewrite stdout_emit, width_app in E2 |- *. cbn [width] in E2 |- *.
    rewrite width_chars, length_app in E2 |- *.
    rewrite length_fmt_08X in E2.
    rewrite E2. pose proof (width_fmt_pad x1 ltac:(lia)). simpl length. lia.
Qed.

(** C7, amended: in both hex-dump renderers, with the settings that
    [parsecommandline] leaves for a count in 0..255 and a group size in
    0..INT_MAX such that linesize + groupsize - 1 does not exceed INT_MAX
    (so that the computation of [hexwidth] stays inside [int]), hexwidth is
    2 * linesize + ceil (linesize / groupsize), and for a line of n bytes
    with 1 <= n <= linesize the width handed to the padding directive is
    hexwidth - 2 * n - ceil (n / groupsize), which is not negative; the
    position label, the hex bytes with their group blanks, the padding and
    the two fixed blanks together take 11 + hexwidth columns, so the text
    column starts at the same offset on every line whatever n is. *)
Theorem hex_padding_alignment (a : bool) (c g : Z) (h col u : bool)
    (buf : list Z) (n pos : Z) (o : output) :
  let cfg := parsecommandline_finish a c g h col u in
  0 <= c <= 255 -> 0 <= g <= INT_MAX ->
  linesize cfg + groupsize cfg - 1 <= INT_MAX ->
  1 <= n <= linesize cfg ->
  let x := hexwidth cfg - 2 * n - groups cfg n in
  hexwidth cfg = 2 * linesize cfg + groups cfg (linesize cfg) /\
  0 <= x /\
  fst (renderlineuncolored_hex cfg buf (Z.to_nat n) 0
         (hexwidth cfg - 2 * n) o) = x /\
  width (stdout (renderlineuncolored_head cfg buf n pos o))
  = width (stdout o) + 11 + hexwidth cfg /\
  (forall r : Z * output,
     renderlinecolored_hex cfg buf (Z.to_nat n) 0 (hexwidth cfg - 2 * n) o
     = Some r -> fst r = x) /\
  (forall o' : output,
     renderlinecolored_head cfg buf n pos o = Some o' ->
     width (stdout o') = width (stdout o) + 11 + hexwidth cfg).
Proof.
  intros cfg Hc Hg Hs Hn x.
  destruct (hexwidth_finish a c g h col u Hc Hg) as [Hw _].
  fold cfg in Hw. specialize (Hw Hs).
  assert (1 <= groupsize cfg) as Hgs.
  { unfold cfg, parsecommandline_finish. cbn [groupsize].
    destruct (Z.eqb_spec g 0); [|lia]. destruct (Z.eqb_spec c 0); lia. }
  split; [exact Hw|].
  exact (hex_padding_layout cfg buf n pos o Hgs Hn Hw).
Qed.

Lemma hex_padding_alignment_witness :
  let cfg := parsecommandline_finish false 16 2 true true true in
  let buf := replicate 256 65 in
  let x := hexwidth cfg - 2 * 5 - groups cfg 5 in
  hexwidth cfg = 2 * linesize cfg + groups cfg (linesize cfg) /\
  0 <= x /\
  fst (renderlineuncolored_hex cfg buf (Z.to_nat 5) 0
         (hexwidth cfg - 2 * 5) output_start) = x /\
  width (stdout (renderlineuncolored_head cfg buf 5 0 output_start))
  = width (stdout output_start) + 11 + hexwidth cfg /\
  (forall r : Z * output,
     renderlinecolored_hex cfg buf (Z.to_nat 5) 0 (hexwidth cfg - 2 * 5)
       output_start
     = Some r -> fst r = x) /\
  (forall o' : output,
     renderlinecolored_head cfg buf 5 0 output_start = Some o' ->
     width (stdout o') = width (stdout output_start) + 11 + hexwidth cfg).
Proof.
  apply (hex_padding_alignment false 16 2 true true true (replicate 256 65)
           5 0 output_start);
    [lia | unfold INT_MAX; lia | vm_compute; discriminate | simpl; lia].
Defined.

(** Past that bound the alignment is lost: with 16 bytes per line and a
    group size of 2147483647, which [getn] accepts, the sum in the
    computation of [hexwidth] wraps around and leaves 32 where the full
    line takes 33 columns; the padding directive of a full line is handed
    the width -1, and its text column starts at column 45, that of a line
    of 5 bytes at column 43. *)
Example alignment_lost_on_overflow :
  let cfg := parsecommandline_finish false 16 2147483647 true true true in
  INT_MAX < linesize cfg + groupsize cfg - 1 /\
  hexwidth cfg = 32 /\
  2 * linesize cfg + groups cfg (linesize cfg) = 33 /\
  fst (renderlineuncolored_hex cfg (replicate 256 65) (Z.to_nat 16) 0
         (hexwidth cfg - 2 * 16) output_start) = -1 /\
  width (stdout (renderlineuncolored_head cfg (replicate 256 65)
                   16 0 output_start)) = 45 /\
  width (stdout (renderlineuncolored_head cfg (replicate 256 65)
                   5 0 output_start)) = 43.
Proof. vm_compute. repeat split; reflexivity. Qed.

(** The settings [parsecommandline] leaves satisfy what the layout needs:
    for a count in 0..255 and a group size in 0..INT_MAX, at least one
    byte per line and per group, and the hex column width of the formula
    when its computation stays inside [int]. *)
Lemma parsecommandline_finish_layout (a : bool) (c g : Z) (h col u : bool) :
  0 <= c <= 255 -> 0 <= g <= INT_MAX ->
  let cfg := parsecommandline_finish a c g h col u in
  1 <= linesize cfg /\ 1 <= groupsize cfg /\
  (linesize cfg + groupsize cfg - 1 <= INT_MAX ->
   hexwidth cfg = 2 * linesize cfg + groups cfg (linesize cfg)).
Proof.
  intros Hc Hg cfg.
  destruct (hexwidth_finish a c g h col u Hc Hg) as [Hw _].
  split; [|split; [|exact Hw]].
  - unfold cfg, parsecommandline_finish. cbn [linesize].
    destruct (Z.eqb_spec c 0); lia.
  - unfold cfg, parsecommandline_finish. cbn [groupsize].
    destruct (Z.eqb_spec g 0); [|lia]. destruct (Z.eqb_spec c 0); lia.
Qed.

(** The example of the specification: with 16 bytes per line in groups of
    2, the text column of a line of 5 bytes starts where that of a full
    line starts, 51 columns in. *)
Example alignment_5_and_16 :
  width (stdout (renderlineuncolored_head default_config (replicate 256 65)
                   5 0 output_start)) = 51 /\
  width (stdout (renderlineuncolored_head default_config (replicate 256 65)
                   16 0 output_start)) = 51 /\
  stdout (renderlineuncolored default_config (replicate 256 65) 5 0
            output_start)
  = chars (str "00000000: 4141 4141 41                             AAAAA"
           ++ [NL]).
Proof. vm_compute. repeat split; reflexivity. Qed.

(** ** The palette *)

Lemma colorset_length : length colorset = 256%nat.
Proof. reflexivity. Qed.

Lemma colorset_nonzero (j : nat) (c : Z) : colorset !! j = Some c -> c <> 0.
Proof.
  intros H.
  assert (forallb (fun c => negb (c =? 0)) colorset = true) as Hall
    by (vm_compute; reflexivity).
  rewrite forallb_forall in Hall.
  specialize (Hall c). apply list_elem_of_lookup_2, list_elem_of_In in H.
  specialize (Hall H). lia.
Qed.

Lemma colorset_lookup_total (j : nat) :
  (j < 256)%nat -> colorset !! j = Some (colorset !!! j).
Proof.
  intros Hj. apply list_lookup_lookup_total_lt. rewrite colorset_length. lia.
Qed.

Lemma observe_cons (seen : list Z) (b : Z) (bs : list Z) :
  observe seen (b :: bs) = observe (observe_one seen b) bs.
Proof. reflexivity. Qed.

Lemma observe_app (seen bs1 bs2 : list Z) :
  observe seen (bs1 ++ bs2) = observe (observe seen bs1) bs2.
Proof. unfold observe. apply fold_left_app. Qed.

Lemma observe_one_prefix (seen : list Z) (b : Z) :
  seen `prefix_of` observe_one seen b.
Proof.
  unfold observe_one. destruct (decide (b ∈ seen)); [done|].
  by apply prefix_app_r.
Qed.

Lemma observe_prefix (seen bs : list Z) : seen `prefix_of` observe seen bs.
Proof.
  revert seen. induction bs as [|b bs IH]; intros seen; [done|].
  rewrite observe_cons. etrans; [apply observe_one_prefix | apply IH].
Qed.

Lemma observe_one_elem (seen : list Z) (b x : Z) :
  x ∈ observe_one seen b <-> x ∈ seen \/ x = b.
Proof.
  unfold observe_one. destruct (decide (b ∈ seen)) as [Hin|Hin].
  - split; [by left|]. intros [H | ->]; done.
  - rewrite elem_of_app, list_elem_of_singleton. done.
Qed.

Lemma observe_elem (seen bs : list Z) (x : Z) :
  x ∈ observe seen bs <-> x ∈ seen \/ x ∈ bs.
Proof.
  revert seen. induction bs as [|b bs IH]; intros seen.
  - simpl. split; [by left|]. intros [H|H]; [done|]. by apply elem_of_nil in H.
  - rewrite observe_cons, IH, observe_one_elem, elem_of_cons. tauto.
Qed.

Lemma observe_one_known (seen : list Z) (b : Z) :
  b ∈ seen -> observe_one seen b = seen.
Proof. intros H. unfold observe_one. by rewrite decide_True. Qed.

Lemma observe_known (seen bs : list Z) :
  (forall b, b ∈ bs -> b ∈ seen) -> observe seen bs = seen.
Proof.
  induction bs as [|b bs IH]; intros H; [done|].
  rewrite observe_cons, observe_one_known by (apply H; left).
  apply IH. intros x Hx. apply H. by right.
Qed.

Lemma observe_twice (seen bs : list Z) :
  observe (observe seen bs) bs = observe seen bs.
Proof. apply observe_known. intros b Hb. apply observe_elem. by right. Qed.

Lemma length_all_bytes : length all_bytes = 256%nat.
Proof. reflexivity. Qed.

Lemma sync_fresh_lt (seen : list Z) (b : Z) :
  NoDup seen -> Forall isbyte seen -> isbyte b -> b ∉ seen ->
  (length seen < 256)%nat.
Proof.
  intros Hnd Hall Hb Hnin.
  assert (NoDup (b :: seen)) as Hnd' by (by constructor).
  apply NoDup_ListNoDup in Hnd'.
  apply (NoDup_incl_length (l' := all_bytes)) in Hnd'.
  - rewrite length_all_bytes in Hnd'. simpl in Hnd'. lia.
  - intros x Hx. apply all_bytes_complete.
    destruct Hx as [<-|Hx]; [exact Hb|].
    rewrite Forall_forall in Hall. apply Hall. by apply list_elem_of_In.
Qed.

Lemma sync_length_le (seen : list Z) (o : output) :
  in_sync seen o -> (length seen <= 256)%nat.
Proof.
  intros (_ & Hnd & Hall & _). apply NoDup_ListNoDup in Hnd.
  apply (NoDup_incl_length (l' := all_bytes)) in Hnd.
  - rewrite length_all_bytes in Hnd. lia.
  - intros x Hx. apply all_bytes_complete.
    rewrite Forall_forall in Hall. apply Hall. by apply list_elem_of_In.
Qed.

Lemma sync_assigned (seen : list Z) (o : output) (b : Z) :
  in_sync seen o -> b ∈ seen -> palette o !!! Z.to_nat b <> 0.
Proof.
  intros Hs Hin. pose proof (sync_length_le _ _ Hs) as Hle.
  destruct Hs as (_ & _ & _ & _ & Hcol & _).
  apply list_elem_of_lookup in Hin as [j Hj].
  rewrite (Hcol j b Hj).
  apply lookup_lt_Some in Hj as Hlt.
  apply (colorset_nonzero j). apply colorset_lookup_total. lia.
Qed.

Lemma sync_assigned_iff (seen : list Z) (o : output) (b : Z) :
  in_sync seen o -> isbyte b -> (palette o !!! Z.to_nat b <> 0 <-> b ∈ seen).
Proof.
  intros Hs Hb. split; [|by apply sync_assigned].
  intros Hne. destruct (decide (b ∈ seen)) as [|Hnin]; [done|].
  destruct Hs as (_ & _ & _ & _ & _ & Hun). by rewrite Hun in Hne.
Qed.

Lemma sync_agree (seen1 seen2 : list Z) (o1 o2 : output) (b : Z) :
  in_sync seen1 o1 -> in_sync seen2 o2 -> seen1 `prefix_of` seen2 ->
  b ∈ seen1 -> palette o2 !!! Z.to_nat b = palette o1 !!! Z.to_nat b.
Proof.
  intros (_ & _ & _ & _ & Hc1 & _) (_ & _ & _ & _ & Hc2 & _) [k ->] Hin.
  apply list_elem_of_lookup in Hin as [j Hj].
  rewrite (Hc1 j b Hj). apply Hc2. by apply lookup_app_l_Some.
Qed.

Lemma assigncolor_sync (seen : list Z) (o : output) (ch : Z) :
  in_sync seen o -> isbyte ch ->
  exists o', assigncolor ch o = Some o' /\ in_sync (observe_one seen ch) o' /\
             stdout o' = stdout o.
Proof.
  intros Hs Hch. unfold assigncolor.
  destruct (decide (ch ∈ seen)) as [Hin|Hnin].
  - pose proof (sync_assigned _ _ _ Hs Hin) as Hne.
    apply Z.eqb_neq in Hne. rewrite Hne.
    exists o. by rewrite observe_one_known.
  - destruct Hs as (Hlen & Hnd & Hall & Hnext & Hcol & Hun).
    rewrite (Hun ch Hch Hnin). simpl.
    pose proof (sync_fresh_lt seen ch Hnd Hall Hch Hnin) as Hlt.
    rewrite Hnext, Nat2Z.id, (colorset_lookup_total _ Hlt).
    assert ((Z.of_nat (length seen) <? 0) = false) as -> by lia.
    eexists. split; [reflexivity|]. split; [|reflexivity].
    unfold observe_one. rewrite decide_False by done.
    unfold in_sync. simpl.
    split; [by rewrite length_insert|].
    split; [apply NoDup_app; split_and!; [done| |apply NoDup_singleton]|].
    { intros x Hx Hx'. apply list_elem_of_singleton in Hx'. by subst. }
    split; [apply Forall_app; split; [done|by constructor]|].
    split; [rewrite length_app; simpl; lia|].
    split.
    + intros j b Hj. destruct (decide (j < length seen)%nat) as [Hjl|Hjl].
      * rewrite lookup_app_l in Hj by done.
        assert (b <> ch) as Hne
          by (intros ->; apply Hnin; by eapply list_elem_of_lookup_2).
        rewrite Forall_forall in Hall.
        pose proof (Hall b (list_elem_of_lookup_2 _ _ _ Hj)) as Hb.
        rewrite list_lookup_total_insert_ne by (unfold isbyte in *; lia).
        by apply Hcol.
      * apply lookup_lt_Some in Hj as Hjl'.
        rewrite length_app in Hjl'. simpl in Hjl'.
        assert (j = length seen) as -> by lia.
        rewrite lookup_app_r, Nat.sub_diag in Hj by lia.
        injection Hj as <-.
        apply list_lookup_total_insert_eq. unfold isbyte in Hch. lia.
    + intros b Hb Hbn. rewrite not_elem_of_app, list_elem_of_singleton in Hbn.
      destruct Hbn as [Hbn Hne].
      rewrite list_lookup_total_insert_ne by (unfold isbyte in *; lia).
      by apply Hun.
Qed.

Lemma buf_bytes_S (buf : list Z) (i : Z) (k : nat) :
  0 <= i ->
  buf_bytes buf i (S k) = buf !!! Z.to_nat i :: buf_bytes buf (i + 1) k.
Proof.
  intros Hi. unfold buf_bytes. simpl.
  by replace (Z.to_nat (i + 1)) with (S (Z.to_nat i)) by lia.
Qed.

Lemma buf_bytes_take (buf : list Z) (k : nat) :
  (k <= length buf)%nat -> buf_bytes buf 0 k = take k buf.
Proof.
  intros Hk. unfold buf_bytes. simpl Z.to_nat.
  apply list_eq. intros j. rewrite list_lookup_fmap.
  destruct (decide (j < k)%nat) as [Hj|Hj].
  - rewrite lookup_seq_lt, lookup_take_lt by done. simpl.
    by rewrite list_lookup_lookup_total_lt by lia.
  - rewrite lookup_seq_ge, lookup_take_ge by lia. done.
Qed.

Lemma lookup_total_isbyte (buf : list Z) (j : nat) :
  Forall isbyte buf -> isbyte (buf !!! j).
Proof.
  intros Hall. destruct (decide (j < length buf)%nat) as [Hj|Hj].
  - rewrite Forall_forall in Hall. apply Hall.
    apply list_elem_of_lookup_total_2. done.
  - rewrite list_lookup_total_alt, lookup_ge_None_2 by lia.
    vm_compute. split; [discriminate|reflexivity].
Qed.

Lemma buf_bytes_isbyte (buf : list Z) (i : Z) (k : nat) :
  Forall isbyte buf -> Forall isbyte (buf_bytes buf i k).
Proof.
  intros Hall. unfold buf_bytes. apply Forall_forall. intros x Hx.
  apply list_elem_of_fmap in Hx as (j & -> & _).
  by apply lookup_total_isbyte.
Qed.

Lemma in_sync_emit (seen : list Z) (xs : list outitem) (o : output) :
  in_sync seen o -> in_sync seen (emit xs o).
Proof. done. Qed.

Lemma palette_emit (xs : list outitem) (o : output) :
  palette (emit xs o) = palette o.
Proof. reflexivity. Qed.

Lemma observe_bytes (seen bs : list Z) :
  Forall isbyte seen -> Forall isbyte bs -> Forall isbyte (observe seen bs).
Proof.
  intros Hs Hb. apply Forall_forall. intros x Hx.
  apply observe_elem in Hx as [Hx|Hx];
    [rewrite Forall_forall in Hs | rewrite Forall_forall in Hb]; auto.
Qed.

Lemma renderlinecolored_hex_sync (cfg : config) (buf : list Z) (k : nat) :
  Forall isbyte buf ->
  forall (i x : Z) (o : output) (seen : list Z),
  0 <= i -> in_sync seen o ->
  exists r,
    renderlinecolored_hex cfg buf k i x o = Some r /\
    in_sync (observe seen (buf_bytes buf i k)) (snd r) /\
    stdout (snd r) = stdout o ++ hex_items cfg (palette (snd r)) buf k i.
Proof.
  intros Hbuf. induction k as [|k IH]; intros i x o seen Hi Hs.
  - eexists. split; [reflexivity|]. split; [exact Hs|].
    simpl. by rewrite app_nil_r.
  - cbn [renderlinecolored_hex hex_items]. rewrite buf_bytes_S by done.
    rewrite observe_cons.
    set (ch := buf !!! Z.to_nat i).
    set (sp := if i mod groupsize cfg =? 0 then [OChar SP] else []).
    assert (exists oa xa, (if i mod groupsize cfg =? 0
                        then (x - 1, emit [OChar SP] o) else (x, o)) = (xa, oa)
                       /\ in_sync seen oa /\ stdout oa = stdout o ++ sp)
      as (oa & xa & -> & Hsa & Houta).
    { subst sp. destruct (i mod groupsize cfg =? 0); do 2 eexists;
        (split; [reflexivity|]); split; try done.
      simpl. by rewrite app_nil_r. }
    destruct (assigncolor_sync seen oa ch Hsa (lookup_total_isbyte buf _ Hbuf))
      as (o2 & -> & Hs2 & Hout2).
    edestruct (IH (i + 1) xa
                 (emit (OSetaf (palette o2 !!! Z.to_nat ch) :: chars (fmt_02X ch)) o2)
                 (observe_one seen ch) ltac:(lia) (in_sync_emit _ _ _ Hs2))
      as (r & -> & Hsr & Houtr).
    exists r. split; [reflexivity|]. split; [exact Hsr|].
    rewrite Houtr, stdout_emit, Hout2, Houta.
    rewrite (sync_agree _ _ o2 (snd r) ch Hs2 Hsr (observe_prefix _ _))
      by (apply observe_one_elem; by right).
    by rewrite <- !app_assoc.
Qed.

Lemma renderlinecolored_text_sync (cfg : config) (buf : list Z) (k : nat) :
  Forall isbyte buf ->
  forall (i : Z) (o : output) (seen : list Z),
  0 <= i -> in_sync seen o ->
  exists o',
    renderlinecolored_text cfg buf k i o = Some o' /\
    in_sync (observe seen (buf_bytes buf i k)) o' /\
    stdout o' = stdout o ++ text_items cfg (palette o') buf k i.
Proof.
  intros Hbuf. induction k as [|k IH]; intros i o seen Hi Hs.
  - eexists. split; [reflexivity|]. split; [exact Hs|].
    simpl. by rewrite app_nil_r.
  - cbn [renderlinecolored_text text_items]. rewrite buf_bytes_S by done.
    rewrite observe_cons.
    set (ch := buf !!! Z.to_nat i).
    destruct (assigncolor_sync seen o ch Hs (lookup_total_isbyte buf _ Hbuf))
      as (o2 & -> & Hs2 & Hout2).
    edestruct (IH (i + 1)
                 (emit (OSetaf (palette o2 !!! Z.to_nat ch)
                          :: chars (getbyterepresentation cfg ch)) o2)
                 (observe_one seen ch) ltac:(lia) (in_sync_emit _ _ _ Hs2))
      as (r & -> & Hsr & Houtr).
    exists r. split; [reflexivity|]. split; [exact Hsr|].
    rewrite Houtr, stdout_emit, Hout2.
    rewrite (sync_agree _ _ o2 r ch Hs2 Hsr (observe_prefix _ _))
      by (apply observe_one_elem; by right).
    by rewrite <- !app_assoc.
Qed.

Lemma renderbytescolored_loop_sync (cfg : config) (buf : list Z) (k : nat) :
  Forall isbyte buf ->
  forall (i : Z) (o : output) (seen : list Z),
  0 <= i -> in_sync seen o ->
  exists o',
    renderbytescolored_loop cfg buf k i o = Some o' /\
    in_sync (observe seen (List.filter isgraph (buf_bytes buf i k))) o' /\
    stdout o' = stdout o ++ raw_items cfg (palette o') buf k i.
Proof.
  intros Hbuf. induction k as [|k IH]; intros i o seen Hi Hs.
  - eexists. split; [reflexivity|]. split; [exact Hs|].
    simpl. by rewrite app_nil_r.
  - cbn [renderbytescolored_loop raw_items]. rewrite buf_bytes_S by done.
    cbn [List.filter].
    set (ch := buf !!! Z.to_nat i).
    destruct (isgraph ch) eqn:Hg; cbn [negb].
    + rewrite observe_cons.
      destruct (assigncolor_sync seen o ch Hs (lookup_total_isbyte buf _ Hbuf))
        as (o2 & -> & Hs2 & Hout2).
      edestruct (IH (i + 1)
                   (emit (OSetaf (palette o2 !!! Z.to_nat ch)
                            :: chars (getbyterepresentation cfg ch)) o2)
                   (observe_one seen ch) ltac:(lia) (in_sync_emit _ _ _ Hs2))
        as (r & -> & Hsr & Houtr).
      exists r. split; [reflexivity|]. split; [exact Hsr|].
      rewrite Houtr, stdout_emit, Hout2.
      rewrite (sync_agree _ _ o2 r ch Hs2 Hsr (observe_prefix _ _))
        by (apply observe_one_elem; by right).
      by rewrite <- !app_assoc.
    + edestruct (IH (i + 1) (emit [OChar ch] o) seen ltac:(lia)
                   (in_sync_emit _ _ _ Hs)) as (r & -> & Hsr & Houtr).
      exists r. split; [reflexivity|]. split; [exact Hsr|].
      rewrite Houtr, stdout_emit. by rewrite <- !app_assoc.
Qed.

(** Equations between outputs that differ in the bracketing of [++]. *)
Ltac list_assoc :=
  repeat (rewrite <- app_assoc || rewrite <- app_comm_cons).

Lemma sync_same (seen : list Z) (o1 o2 : output) (b : Z) :
  in_sync seen o1 -> in_sync seen o2 -> isbyte b ->
  palette o1 !!! Z.to_nat b = palette o2 !!! Z.to_nat b.
Proof.
  intros H1 H2 Hb. destruct (decide (b ∈ seen)) as [Hin|Hnin].
  - symmetry. by apply (sync_agree seen seen).
  - destruct H1 as (_ & _ & _ & _ & _ & Hu1).
    destruct H2 as (_ & _ & _ & _ & _ & Hu2).
    by rewrite Hu1, Hu2.
Qed.

Lemma hex_items_ext (cfg : config) (p p' buf : list Z) (k : nat) (i : Z) :
  Forall isbyte buf ->
  (forall b, isbyte b -> p !!! Z.to_nat b = p' !!! Z.to_nat b) ->
  hex_items cfg p buf k i = hex_items cfg p' buf k i.
Proof.
  intros Hbuf Hp. revert i. induction k as [|k IH]; intros i; [done|].
  cbn [hex_items]. rewrite IH.
  by rewrite (Hp _ (lookup_total_isbyte buf (Z.to_nat i) Hbuf)).
Qed.

Lemma renderlinecolored_sync (cfg : config) (buf : list Z) (n pos : Z)
    (o : output) (seen : list Z) :
  1 <= groupsize cfg -> 0 <= n -> Forall isbyte buf -> in_sync seen o ->
  exists o',
    renderlinecolored cfg buf n pos o = Some o' /\
    in_sync (observe seen (buf_bytes buf 0 (Z.to_nat n))) o' /\
    stdout o' = stdout o ++ colored_line_items cfg (palette o') buf n pos.
Proof.
  intros Hg Hn Hbuf Hs. unfold renderlinecolored, renderlinecolored_head.
  destruct (renderlinecolored_hex_sync cfg buf (Z.to_nat n) Hbuf 0
              (hexwidth cfg - 2 * n)
              (emit (OSgr0 :: chars (fmt_08X pos ++ [58])) o) seen
              ltac:(lia) (in_sync_emit _ _ _ Hs))
    as ([x1 o1] & Hr & Hs1 & Hout1).
  rewrite Hr.
  destruct (renderlinecolored_hex_layout cfg buf (Z.to_nat n) Hg 0 _ _ _
              ltac:(lia) Hr) as [Ex _].
  cbn [fst snd] in *. rewrite Z.add_0_l, Z2Nat.id, groups_0 in Ex by lia.
  destruct (renderlinecolored_text_sync cfg buf (Z.to_nat n) Hbuf 0
              (emit (OSgr0 :: chars (fmt_pad x1 ++ [SP; SP])) o1) _
              ltac:(lia) (in_sync_emit _ _ _ Hs1))
    as (o2 & -> & Hs2 & Hout2).
  rewrite observe_twice in Hs2.
  eexists. split; [reflexivity|]. split; [exact Hs2|].
  rewrite stdout_emit, Hout2, stdout_emit, Hout1, stdout_emit, palette_emit.
  unfold colored_line_items.
  rewrite (hex_items_ext cfg (palette o1) (palette o2)) by
    (try done; intros b Hb; by apply (sync_same _ _ _ _ Hs1 Hs2)).
  replace x1 with (hexwidth cfg - 2 * n - groups cfg n) by lia.
  by list_assoc.
Qed.

Lemma renderbytescolored_sync (cfg : config) (buf : list Z) (n : Z)
    (o : output) (seen : list Z) :
  Forall isbyte buf -> in_sync seen o ->
  exists o',
    renderbytescolored cfg buf n o = Some o' /\
    in_sync (observe seen (List.filter isgraph (buf_bytes buf 0 (Z.to_nat n)))) o' /\
    stdout o' = stdout o ++ colored_bytes_items cfg (palette o') buf n.
Proof.
  intros Hbuf Hs. unfold renderbytescolored.
  destruct (renderbytescolored_loop_sync cfg buf (Z.to_nat n) Hbuf 0 o seen
              ltac:(lia) Hs) as (o1 & -> & Hs1 & Hout1).
  eexists. split; [reflexivity|]. split; [exact Hs1|].
  rewrite stdout_emit, Hout1, palette_emit. unfold colored_bytes_items.
  by rewrite <- app_assoc.
Qed.

Lemma renderlineuncolored_hex_palette (cfg : config) (buf : list Z) (k : nat)
    (i x : Z) (o : output) :
  let o' := snd (renderlineuncolored_hex cfg buf k i x o) in
  palette o' = palette o /\ nextcolorfromset o' = nextcolorfromset o.
Proof.
  revert i x o. induction k as [|k IH]; intros i x o; [done|].
  cbn [renderlineuncolored_hex].
  destruct (i mod groupsize cfg =? 0); cbn zeta;
    match goal with
    | |- context [renderlineuncolored_hex cfg buf k ?i1 ?x1 ?o1] =>
        destruct (IH i1 x1 o1) as [-> ->]
    end; done.
Qed.

Lemma renderlineuncolored_text_palette (cfg : config) (buf : list Z) (k : nat)
    (i : Z) (o : output) :
  let o' := renderlineuncolored_text cfg buf k i o in
  palette o' = palette o /\ nextcolorfromset o' = nextcolorfromset o.
Proof.
  revert i o. induction k as [|k IH]; intros i o; [done|].
  cbn [renderlineuncolored_text].
  match goal with
  | |- context [renderlineuncolored_text cfg buf k ?i1 ?o1] =>
      destruct (IH i1 o1) as [-> ->]
  end; done.
Qed.

Lemma renderlineuncolored_palette (cfg : config) (buf : list Z) (n pos : Z)
    (o : output) :
  let o' := renderlineuncolored cfg buf n pos o in
  palette o' = palette o /\ nextcolorfromset o' = nextcolorfromset o.
Proof.
  unfold renderlineuncolored, renderlineuncolored_head. cbn zeta.
  match goal with
  | |- context [renderlineuncolored_hex cfg buf ?k ?i1 ?x1 ?o1] =>
      pose proof (renderlineuncolored_hex_palette cfg buf k i1 x1 o1) as H1;
      destruct (renderlineuncolored_hex cfg buf k i1 x1 o1) as [x2 o2]
  end.
  cbn zeta in H1. cbn [snd] in H1. destruct H1 as [H1 H2].
  match goal with
  | |- context [renderlineuncolored_text cfg buf ?k ?i1 ?o1] =>
      destruct (renderlineuncolored_text_palette cfg buf k i1 o1) as [H3 H4]
  end.
  rewrite !palette_emit. cbn [nextcolorfromset emit].
  rewrite H3, H4. cbn [nextcolorfromset emit palette]. by rewrite H1, H2.
Qed.

Lemma in_sync_same_palette (seen : list Z) (o o' : output) :
  palette o' = palette o -> nextcolorfromset o' = nextcolorfromset o ->
  in_sync seen o -> in_sync seen o'.
Proof. unfold in_sync. intros -> ->. done. Qed.

Lemma filter_all {A} (f : A -> bool) (l : list A) :
  (forall x, f x = true) -> List.filter f l = l.
Proof.
  intros H. induction l as [|x l IH]; [done|]. simpl. by rewrite H, IH.
Qed.

Lemma filter_none {A} (f : A -> bool) (l : list A) :
  (forall x, f x = false) -> List.filter f l = [].
Proof.
  intros H. induction l as [|x l IH]; [done|]. simpl. by rewrite H, IH.
Qed.

Lemma dumpline_sync (cfg : config) (buf : list Z) (n pos : Z) (o : output)
    (seen : list Z) :
  1 <= groupsize cfg -> 0 <= n -> Forall isbyte buf -> in_sync seen o ->
  exists o',
    dumpline cfg buf n pos o = Some o' /\
    in_sync (observe seen
               (List.filter (colored cfg) (buf_bytes buf 0 (Z.to_nat n)))) o'.
Proof.
  intros Hg Hn Hbuf Hs. unfold dumpline.
  destruct (Z.eqb_spec n 0) as [->|Hn0]; [by exists o|].
  destruct (hexoutput cfg) eqn:Hh; cbn [negb].
  - destruct (colorize cfg) eqn:Hc.
    + destruct (renderlinecolored_sync cfg buf n pos o seen Hg Hn Hbuf Hs)
        as (o' & -> & Hs' & _).
      exists o'. split; [done|].
      rewrite filter_all; [done|]. intros x. unfold colored. by rewrite Hh, Hc.
    + eexists. split; [reflexivity|].
      rewrite filter_none by (intros x; unfold colored; by rewrite Hh, Hc).
      destruct (renderlineuncolored_palette cfg buf n pos o) as [H1 H2].
      by apply (in_sync_same_palette seen o).
  - destruct (renderbytescolored_sync cfg buf n o seen Hbuf Hs)
      as (o' & -> & Hs' & _).
    exists o'. split; [done|].
    replace (List.filter (colored cfg)) with (List.filter isgraph (A:=Z)); [done|].
    unfold colored. rewrite Hh. reflexivity.
Qed.

Lemma rendered_sync (cfg : config) (o o' : output) (bs seen : list Z) :
  1 <= groupsize cfg -> rendered cfg o bs o' -> in_sync seen o ->
  in_sync (observe seen (List.filter (colored cfg) bs)) o'.
Proof.
  intros Hg Hr. revert seen.
  induction Hr as [o|o o1 o2 buf n pos bs Hn Hlen Hbuf Hd Hr IH|o o2 bs Hr IH];
    intros seen Hs.
  - exact Hs.
  - rewrite List.filter_app, observe_app. apply IH.
    destruct (dumpline_sync cfg buf n pos o seen Hg Hn Hbuf Hs)
      as (o1' & Hd' & Hs1).
    rewrite Hd in Hd'. injection Hd' as <-.
    by rewrite buf_bytes_take in Hs1.
  - apply IH. by apply in_sync_emit.
Qed.

Lemma rendered_trans (cfg : config) (o1 o2 o3 : output) (bs1 bs2 : list Z) :
  rendered cfg o1 bs1 o2 -> rendered cfg o2 bs2 o3 ->
  rendered cfg o1 (bs1 ++ bs2) o3.
Proof.
  intros H1 H2. induction H1 as [o|o oa ob buf n pos bs Hn Hlen Hbuf Hd Hr IH|o ob bs Hr IH].
  - exact H2.
  - rewrite <- app_assoc. eapply rendered_line; eauto.
  - apply rendered_marker. by apply IH.
Qed.

Lemma in_sync_start : in_sync [] output_start.
Proof.
  unfold in_sync. split; [reflexivity|]. split; [constructor|].
  split; [constructor|]. split; [reflexivity|]. split.
  - intros j b Hj. by rewrite lookup_nil in Hj.
  - intros b Hb _. unfold output_start. cbn [palette].
    apply lookup_total_replicate_2.
    unfold isbyte in Hb. lia.
Qed.

Lemma in_sync_initoutput (cfg : config) (has_is : Z -> bool) :
  in_sync (if colorize cfg then [0] else [])
    (initoutput cfg has_is output_start).
Proof.
  unfold initoutput. destruct (colorize cfg); cbn [negb]; [|apply in_sync_start].
  unfold in_sync, output_start. cbn [palette nextcolorfromset].
  split; [by rewrite length_insert, length_replicate|].
  split; [apply NoDup_singleton|].
  split; [repeat constructor; unfold isbyte; lia|]. split; [reflexivity|]. split.
  - intros j b Hj. destruct j as [|j]; [|destruct j; discriminate].
    injection Hj as <-.
    apply list_lookup_total_insert_eq. rewrite length_replicate. lia.
  - intros b Hb Hnin. rewrite list_elem_of_singleton in Hnin.
    rewrite list_lookup_total_insert_ne by (unfold isbyte in Hb; lia).
    apply lookup_total_replicate_2. unfold isbyte in Hb. lia.
Qed.

(** ** File input *)

Lemma keeps_refl (s : state) : keeps s s.
Proof. done. Qed.

Lemma keeps_trans (s1 s2 s3 : state) : keeps s1 s2 -> keeps s2 s3 -> keeps s1 s3.
Proof. unfold keeps. intros [-> ->] [-> ->]. done. Qed.

Lemma inputinit_closed_spec (fs : list input) (s : state) :
  let r := inputinit_closed fs s in
  keeps s (snd r) /\
  concat (map file_bytes fs) = pending (snd r) /\
  (length (filenames (snd r)) <= length fs)%nat /\
  if fst r then is_Some (currentfile (snd r)) /\ filenames (snd r) <> []
  else filenames (snd r) = [] /\ currentfile (snd r) = None.
Proof.
  revert s. induction fs as [|f fs IH]; intros s.
  - simpl. done.
  - cbn [inputinit_closed]. unfold file_bytes at 1. cbn [map concat].
    destruct (in_stdin f || in_opens f) eqn:Hop.
    + cbn [fst snd]. split; [done|]. split; [|split; [done|split; [by eexists|done]]].
      unfold pending. cbn [currentfile filenames set_files tail].
      reflexivity.
    + cbn zeta in IH.
      destruct (IH (fail (set_files (f :: fs) None s))) as (Hk & Hp & Hl & Hr).
      split; [exact Hk|]. split; [exact Hp|]. split; [simpl; lia|exact Hr].
Qed.

Lemma inputupdate_spec (s : state) :
  keeps s (inputupdate s) /\
  filenames (inputupdate s) = tail (filenames s) /\
  currentfile (inputupdate s) = None.
Proof.
  unfold inputupdate. destruct (filenames s) as [|f fs] eqn:Hfs.
  - cbn. by rewrite Hfs.
  - destruct (in_ferror f); [cbn; by rewrite Hfs|].
    destruct (negb (in_stdin f) && in_fclose_fails f); cbn; by rewrite Hfs.
Qed.

(** [nextbyte] delivers the head of the logical stream and leaves its
    tail, or reports EOF when the stream is empty; the fuel never runs
    out. *)
Lemma nextbyte_loop_spec (fuel : nat) :
  forall s : state,
  (length (filenames s)
   + match currentfile s with Some _ => 1 | None => 0 end < fuel)%nat ->
  let r := nextbyte_loop fuel s in
  keeps s (snd r) /\
  match pending s with
  | [] => fst r = EOF /\ pending (snd r) = []
  | b :: rest => fst r = b /\ pending (snd r) = rest
  end.
Proof.
  induction fuel as [|fuel IH]; intros s Hfuel; [lia|].
  cbn [nextbyte_loop]. unfold inputinit.
  destruct (currentfile s) as [cur|] eqn:Hcur.
  - unfold fgetc. rewrite Hcur. destruct cur as [|b rest].
    + cbn [negb Z.eqb EOF]. simpl (negb (-1 =? -1)). cbv iota.
      destruct (inputupdate_spec s) as (Hk & Hf & Hc).
      destruct (IH (inputupdate s)) as (Hk' & Hp).
      { rewrite Hf, Hc. destruct (filenames s); cbn [tail length] in *; lia. }
      split; [by eapply keeps_trans|].
      assert (pending (inputupdate s) = pending s) as Hpe.
      { unfold pending. by rewrite Hc, Hf, Hcur. }
      by rewrite Hpe in Hp.
    + rewrite byteval_not_EOF. cbn [negb fst snd].
      split; [done|]. unfold pending. rewrite Hcur. done.
  - pose proof (inputinit_closed_spec (filenames s) s) as Hi.
    cbn zeta in Hi.
    destruct (inputinit_closed (filenames s) s) as [ok s1].
    cbn [fst snd] in Hi. destruct Hi as (Hk & Hp & Hl & Hr).
    assert (pending s = pending s1) as Hps
      by (unfold pending at 1; by rewrite Hcur).
    rewrite Hps. destruct ok; cbn [negb].
    + destruct Hr as [[cur Hc1] Hne]. unfold fgetc. rewrite Hc1.
      destruct cur as [|b rest].
      * simpl (negb (EOF =? EOF)). cbv iota.
        destruct (inputupdate_spec s1) as (Hk1 & Hf1 & Hc1').
        destruct (IH (inputupdate s1)) as (Hk' & Hp').
        { rewrite Hf1, Hc1'. destruct (filenames s1); [done|].
          cbn [tail length] in *. lia. }
        split; [eapply keeps_trans; [|exact Hk']; by eapply keeps_trans|].
        assert (pending (inputupdate s1) = pending s1) as Hpe.
        { unfold pending. by rewrite Hc1', Hf1, Hc1. }
        by rewrite Hpe in Hp'.
      * rewrite byteval_not_EOF. cbn [negb fst snd].
        split; [done|]. unfold pending. rewrite Hc1. done.
    + destruct Hr as [Hf1 Hc1]. cbn [fst snd]. split; [done|].
      unfold pending. rewrite Hc1, Hf1. done.
Qed.

Lemma nextbyte_spec (s : state) :
  let r := nextbyte s in
  keeps s (snd r) /\
  match pending s with
  | [] => fst r = EOF /\ pending (snd r) = []
  | b :: rest => fst r = b /\ pending (snd r) = rest
  end.
Proof.
  apply nextbyte_loop_spec. destruct (currentfile s); lia.
Qed.

Lemma pending_isbyte (s : state) : Forall isbyte (pending s).
Proof.
  assert (forall l, Forall isbyte (map byteval l)) as Hmap.
  { intros l. apply Forall_forall. intros x Hx.
    apply list_elem_of_fmap in Hx as (b & -> & _). apply byteval_range. }
  assert (forall fs, Forall isbyte (concat (map file_bytes fs))) as Hfs.
  { intros fs. apply Forall_concat, Forall_forall. intros l Hl.
    apply list_elem_of_fmap in Hl as (f & -> & _).
    unfold file_bytes. destruct (in_stdin f || in_opens f); [apply Hmap|done]. }
  unfold pending. destruct (currentfile s); [|apply Hfs].
  apply Forall_app. split; [apply Hmap | apply Hfs].
Qed.

(** ** The loop of [nextbyte] *)

Lemma inputinit_measure (s : state) :
  let r := inputinit s in
  (length (filenames (snd r)) <= length (filenames s))%nat /\
  (fst r = true -> is_Some (currentfile (snd r)) /\
                   (currentfile s = None -> filenames (snd r) <> [])).
Proof.
  unfold inputinit. destruct (currentfile s) as [cur|] eqn:Hc.
  - cbn. split; [lia|]. intros _. split; [by rewrite Hc|done].
  - pose proof (inputinit_closed_spec (filenames s) s) as H. cbn zeta in H.
    destruct (inputinit_closed (filenames s) s) as [ok s1].
    cbn [fst snd] in *. destruct H as (_ & _ & Hl & Hr).
    split; [exact Hl|]. intros ->. destruct Hr as [Hs Hne]. done.
Qed.

(** Any fuel above the number of filenames left (plus one when a file is
    open) gives the same result. *)
Lemma nextbyte_loop_fuel (f1 : nat) :
  forall (f2 : nat) (s : state),
  (length (filenames s)
   + match currentfile s with Some _ => 1 | None => 0 end < f1)%nat ->
  (length (filenames s)
   + match currentfile s with Some _ => 1 | None => 0 end < f2)%nat ->
  nextbyte_loop f1 s = nextbyte_loop f2 s.
Proof.
  induction f1 as [|f1 IH]; intros f2 s H1 H2; [lia|].
  destruct f2 as [|f2]; [lia|]. cbn [nextbyte_loop].
  pose proof (inputinit_measure s) as Hi. cbn zeta in Hi.
  destruct (inputinit s) as [ok s1]. cbn [fst snd] in Hi.
  destruct Hi as [Hl Hok]. destruct ok; cbn [negb]; [|done].
  destruct (Hok eq_refl) as [[cur Hc1] Hne].
  unfold fgetc. rewrite Hc1. destruct cur as [|b rest].
  - simpl (negb (EOF =? EOF)). cbv iota.
    destruct (inputupdate_spec s1) as (_ & Hf & Hc).
    apply IH; rewrite Hf, Hc;
      (destruct (currentfile s);
       [destruct (filenames s1); cbn [tail length] in *; lia
       |specialize (Hne eq_refl);
        destruct (filenames s1); [done|cbn [tail length] in *; lia]]).
  - by rewrite byteval_not_EOF.
Qed.

Lemma nextbyte_loop_S (fuel : nat) (s : state) :
  nextbyte_loop (S fuel) s
  = let '(ok, s1) := inputinit s in
    if negb ok then (EOF, s1)
    else
      let '(ch, s2) := fgetc s1 in
      if negb (ch =? EOF) then (ch, s2)
      else nextbyte_loop fuel (inputupdate s2).
Proof. reflexivity. Qed.

(** [nextbyte] satisfies the equation of the C loop: the fuel of the model
    never runs out. *)
Lemma nextbyte_unfold (s : state) :
  nextbyte s
  = let '(ok, s1) := inputinit s in
    if negb ok then (EOF, s1)
    else
      let '(ch, s2) := fgetc s1 in
      if negb (ch =? EOF) then (ch, s2) else nextbyte (inputupdate s2).
Proof.
  unfold nextbyte at 1.
  change (2 + length (filenames s))%nat with (S (S (length (filenames s)))).
  rewrite nextbyte_loop_S.
  pose proof (inputinit_measure s) as Hi. cbn zeta in Hi.
  destruct (inputinit s) as [ok s1]. cbn [fst snd] in Hi.
  destruct Hi as [Hl Hok]. destruct ok; cbn [negb]; [|done].
  destruct (Hok eq_refl) as [[cur Hc1] Hne].
  unfold fgetc. rewrite Hc1. destruct cur as [|b rest].
  - simpl (negb (EOF =? EOF)). cbv iota. unfold nextbyte.
    destruct (inputupdate_spec s1) as (_ & Hf & Hc).
    apply nextbyte_loop_fuel; rewrite ?Hf, ?Hc;
      destruct (filenames s1); cbn [tail length] in *; lia.
  - by rewrite byteval_not_EOF.
Qed.

(** ** Reading one line *)

Lemma nextbyte_cases (s : state) :
  (pending s = [] /\ exists s', nextbyte s = (EOF, s') /\ keeps s s' /\
                                pending s' = []) \/
  (exists b rest s', pending s = b :: rest /\ isbyte b /\
                     nextbyte s = (b, s') /\ keeps s s' /\ pending s' = rest).
Proof.
  pose proof (nextbyte_spec s) as H. cbn zeta in H.
  pose proof (pending_isbyte s) as Hb.
  destruct (nextbyte s) as [c s']. cbn [fst snd] in H.
  destruct H as [Hk H]. destruct (pending s) as [|b rest].
  - left. destruct H as [-> Hp]. split; [done|]. by exists s'.
  - right. destruct H as [-> Hp]. exists b, rest, s'.
    by apply Forall_cons_1 in Hb as [Hb _].
Qed.

Lemma autoskip_fill_spec (k : nat) :
  forall (n ch nz : Z) (line : list Z) (s : state),
  let t := (k `min` (Z.to_nat (maxinputlen s) `min` length (pending s)))%nat in
  exists ch' s',
    autoskip_fill k n ch nz line s
    = (n + Z.of_nat t, ch', fold_left Z.lor (take t (pending s)) nz,
       store line n (take t (pending s)), s') /\
    startoffset s' = startoffset s /\
    maxinputlen s' = maxinputlen s - Z.of_nat t /\
    pending s' = drop t (pending s) /\
    (ch' = EOF -> ch = EOF \/ pending s' = []).
Proof.
  induction k as [|k IH]; intros n ch nz line s t.
  - exists ch, s. subst t. cbn. rewrite Z.add_0_r, Z.sub_0_r, take_0, drop_0.
    cbn. auto 10.
  - cbn [autoskip_fill]. destruct (Z.gtb_spec (maxinputlen s) 0) as [HM|HM].
    + destruct (nextbyte_cases s)
        as [(Hp & s' & -> & [Hk1 Hk2] & Hp')
           |(b & rest & s' & Hp & Hb & -> & [Hk1 Hk2] & Hp')].
      * simpl (EOF =? EOF). cbv iota.
        assert (t = 0%nat) as Ht by (subst t; rewrite Hp; cbn [length]; lia).
        clearbody t. subst t.
        exists EOF, s'. rewrite Hp. cbn. rewrite Z.add_0_r, Z.sub_0_r.
        rewrite Hp'. auto 10.
      * assert ((b =? EOF) = false) as ->
          by (apply Z.eqb_neq; unfold isbyte, EOF in *; lia).
        set (s1 := set_maxinputlen (maxinputlen s' - 1) s').
        assert (pending s1 = rest) as Hp1 by exact Hp'.
        destruct (IH (n + 1) b (Z.lor nz b) (<[Z.to_nat n := b]> line) s1)
          as (ch' & s2 & -> & Hso & Hmx & Hpe & Hch).
        assert (t = S (k `min` (Z.to_nat (maxinputlen s1)
                                  `min` length (pending s1)))) as Ht.
        { subst t. rewrite Hp, Hp1. subst s1. cbn [maxinputlen set_maxinputlen].
          rewrite Hk1. cbn [length]. lia. }
        clearbody t. subst t. rewrite Hp, Hp1 in *.
        cbn [take fold_left store drop].
        exists ch', s2. split; [f_equal; f_equal; f_equal; f_equal; lia|].
        split; [rewrite Hso; subst s1; cbn; done|].
        split; [rewrite Hmx; subst s1; cbn [maxinputlen set_maxinputlen]; lia|].
        split; [done|].
        intros He. right. destruct (Hch He) as [Hbe|]; [|done].
        unfold isbyte, EOF in *. lia.
    + assert (t = 0%nat) as Ht by (subst t; lia).
      clearbody t. subst t.
      exists ch, s. cbn. rewrite Z.add_0_r, Z.sub_0_r, take_0, drop_0.
      cbn. auto 10.
Qed.

Lemma dumpfiles_fill_autoskip_fill (k : nat) :
  forall (n ch nz : Z) (line : list Z) (s : state),
  dumpfiles_fill k n ch line s
  = let '(n', ch', _, line', s') := autoskip_fill k n ch nz line s in
    (n', ch', line', s').
Proof.
  induction k as [|k IH]; intros n ch nz line s; [done|].
  cbn [dumpfiles_fill autoskip_fill].
  destruct (maxinputlen s >? 0); [|done].
  destruct (nextbyte s) as [c s1]. destruct (c =? EOF); [done|].
  apply IH.
Qed.

Lemma store_app_drop (bs line : list Z) (n : nat) :
  (n + length bs <= length line)%nat ->
  store line (Z.of_nat n) bs = take n line ++ bs ++ drop (n + length bs) line.
Proof.
  revert line n. induction bs as [|b bs IH]; intros line n Hlen.
  - cbn [store length app]. by rewrite Nat.add_0_r, take_drop.
  - cbn [store length] in *. rewrite Nat2Z.id.
    replace (Z.of_nat n + 1) with (Z.of_nat (S n)) by lia.
    rewrite IH by (rewrite length_insert; lia).
    rewrite drop_insert_lt by lia.
    rewrite (take_S_r _ _ b) by (apply list_lookup_insert_eq; lia).
    rewrite take_insert_ge by lia.
    replace (S n + length bs)%nat with (n + S (length bs))%nat by lia.
    by rewrite <- app_assoc.
Qed.

Lemma store_0 (bs line : list Z) :
  (length bs <= length line)%nat ->
  store line 0 bs = bs ++ drop (length bs) line.
Proof. intros H. by apply (store_app_drop bs line 0). Qed.

Lemma lor_fold_zero (bs : list Z) (nz : Z) :
  fold_left Z.lor bs nz = 0 <-> nz = 0 /\ forallb (Z.eqb 0) bs = true.
Proof.
  revert nz. induction bs as [|b bs IH]; intros nz; cbn [fold_left forallb].
  - tauto.
  - rewrite IH, Z.lor_eq_0_iff, andb_true_iff, Z.eqb_eq. intuition lia.
Qed.

(** ** The renderers read the first [count] bytes of the array only *)

Lemma same_bytes_S (buf buf' : list Z) (i : Z) (k : nat) :
  0 <= i -> same_bytes buf buf' i (S k) ->
  buf !!! Z.to_nat i = buf' !!! Z.to_nat i /\ same_bytes buf buf' (i + 1) k.
Proof.
  intros Hi H. split; [apply H; lia|]. intros j Hj. apply H. lia.
Qed.

Ltac ext_loop IH :=
  match goal with
  | H : same_bytes _ _ _ (S _) |- _ =>
      apply same_bytes_S in H as [-> H]; [|lia]
  end;
  repeat match goal with
         | |- context [if ?b then _ else _] => destruct b
         | |- context [match ?x with Some _ => _ | None => _ end] => destruct x
         end;
  try reflexivity; apply IH; (lia || assumption).

Lemma renderbytescolored_loop_ext (cfg : config) (buf buf' : list Z) (k : nat) :
  forall (i : Z) (o : output), 0 <= i -> same_bytes buf buf' i k ->
  renderbytescolored_loop cfg buf k i o = renderbytescolored_loop cfg buf' k i o.
Proof.
  induction k as [|k IH]; intros i o Hi H; [done|].
  cbn [renderbytescolored_loop]. ext_loop IH.
Qed.

Lemma renderlineuncolored_hex_ext (cfg : config) (buf buf' : list Z) (k : nat) :
  forall (i x : Z) (o : output), 0 <= i -> same_bytes buf buf' i k ->
  renderlineuncolored_hex cfg buf k i x o
  = renderlineuncolored_hex cfg buf' k i x o.
Proof.
  induction k as [|k IH]; intros i x o Hi H; [done|].
  cbn [renderlineuncolored_hex]. ext_loop IH.
Qed.

Lemma renderlineuncolored_text_ext (cfg : config) (buf buf' : list Z) (k : nat) :
  forall (i : Z) (o : output), 0 <= i -> same_bytes buf buf' i k ->
  renderlineuncolored_text cfg buf k i o
  = renderlineuncolored_text cfg buf' k i o.
Proof.
  induction k as [|k IH]; intros i o Hi H; [done|].
  cbn [renderlineuncolored_text]. ext_loop IH.
Qed.

Lemma renderlinecolored_hex_ext (cfg : config) (buf buf' : list Z) (k : nat) :
  forall (i x : Z) (o : output), 0 <= i -> same_bytes buf buf' i k ->
  renderlinecolored_hex cfg buf k i x o = renderlinecolored_hex cfg buf' k i x o.
Proof.
  induction k as [|k IH]; intros i x o Hi H; [done|].
  cbn [renderlinecolored_hex]. ext_loop IH.
Qed.

Lemma renderlinecolored_text_ext (cfg : config) (buf buf' : list Z) (k : nat) :
  forall (i : Z) (o : output), 0 <= i -> same_bytes buf buf' i k ->
  renderlinecolored_text cfg buf k i o = renderlinecolored_text cfg buf' k i o.
Proof.
  induction k as [|k IH]; intros i o Hi H; [done|].
  cbn [renderlinecolored_text]. ext_loop IH.
Qed.

Lemma dumpline_ext (cfg : config) (buf buf' : list Z) (n pos : Z) (o : output) :
  same_bytes buf buf' 0 (Z.to_nat n) ->
  dumpline cfg buf n pos o = dumpline cfg buf' n pos o.
Proof.
  intros H. unfold dumpline, renderbytescolored, renderlinecolored,
    renderlinecolored_head, renderlineuncolored, renderlineuncolored_head.
  rewrite (renderbytescolored_loop_ext cfg buf buf') by (done || lia).
  rewrite (renderlinecolored_hex_ext cfg buf buf') by (done || lia).
  rewrite (renderlineuncolored_hex_ext cfg buf buf') by (done || lia).
  destruct (n =? 0); [done|]. destruct (negb (hexoutput cfg)); [done|].
  destruct (colorize cfg).
  - destruct (renderlinecolored_hex cfg buf' (Z.to_nat n) 0 _ _) as [[x1 o1]|];
      [|done].
    by rewrite (renderlinecolored_text_ext cfg buf buf') by (done || lia).
  - destruct (renderlineuncolored_hex cfg buf' (Z.to_nat n) 0 _ _) as [x1 o1].
    by rewrite (renderlineuncolored_text_ext cfg buf buf') by (done || lia).
Qed.

Lemma same_bytes_prefix (c rest buf' : list Z) (n : nat) :
  (n <= length c)%nat -> same_bytes (c ++ rest) c 0 n.
Proof.
  intros Hn j Hj. rewrite !list_lookup_total_alt.
  by rewrite lookup_app_l by (simpl in Hj; lia).
Qed.

Lemma same_bytes_replicate (n m : nat) (k : nat) (x : Z) :
  (k <= n)%nat -> (k <= m)%nat -> same_bytes (replicate n x) (replicate m x) 0 k.
Proof.
  intros Hn Hm j Hj. simpl in Hj.
  by rewrite !lookup_total_replicate_2 by lia.
Qed.

(** ** Chunks *)

Lemma chunks_fuel_enough (L : nat) (fuel1 fuel2 : nat) (xs : list Z) :
  (1 <= L)%nat -> (length xs <= fuel1)%nat -> (length xs <= fuel2)%nat ->
  chunks_fuel fuel1 L xs = chunks_fuel fuel2 L xs.
Proof.
  intros HL. revert fuel2 xs.
  induction fuel1 as [|f1 IH]; intros fuel2 xs H1 H2.
  - destruct xs; [|simpl in H1; lia]. by destruct fuel2.
  - destruct fuel2 as [|f2]; [destruct xs; [done|simpl in H2; lia]|].
    cbn [chunks_fuel]. destruct xs as [|x xs]; [done|].
    f_equal. apply IH; rewrite length_drop; simpl in *; lia.
Qed.

Lemma chunks_nil (L : Z) : chunks L [] = [].
Proof. reflexivity. Qed.

Lemma chunks_step (L : Z) (xs : list Z) :
  1 <= L -> xs <> [] ->
  chunks L xs = take (Z.to_nat L) xs :: chunks L (drop (Z.to_nat L) xs).
Proof.
  intros HL Hne. unfold chunks. destruct xs as [|x xs]; [done|].
  cbn [length chunks_fuel]. f_equal.
  apply chunks_fuel_enough; [lia| |lia].
  rewrite length_drop. simpl. lia.
Qed.

Lemma concat_chunks (L : Z) (xs : list Z) :
  1 <= L -> concat (chunks L xs) = xs.
Proof.
  intros HL. remember (length xs) as m eqn:Hm. revert xs Hm.
  induction m as [m IH] using lt_wf_ind. intros xs ->.
  destruct xs as [|x xs]; [done|].
  rewrite chunks_step by (done || lia). cbn [concat].
  rewrite (IH (length (drop (Z.to_nat L) (x :: xs)))); [apply take_drop| |done].
  rewrite length_drop. simpl. lia.
Qed.

(** ** The drivers' loops, chunk by chunk *)

Lemma take_min_length {A} (a : nat) (xs : list A) :
  take (a `min` length xs) xs = take a xs.
Proof.
  destruct (decide (a <= length xs)%nat).
  - by rewrite Nat.min_l by lia.
  - rewrite Nat.min_r by lia. by rewrite !take_ge by lia.
Qed.

(** The first chunk the inner loop reads, and what it leaves. *)
Lemma first_chunk (L M : nat) (xs : list Z) :
  let t := (L `min` (M `min` length xs))%nat in
  take t xs = take L (take M xs) /\
  take (M - t) (drop t xs) = drop L (take M xs).
Proof.
  intros t. split.
  - rewrite take_take. subst t.
    rewrite Nat.min_assoc. apply take_min_length.
  - rewrite take_drop_commute.
    replace (t + (M - t))%nat with M by lia.
    destruct (decide (t = L)) as [->|Hne]; [done|].
    rewrite !drop_ge; [done| |]; rewrite length_take; lia.
Qed.

Lemma length_store_0 (bs line : list Z) :
  (length bs <= length line)%nat -> length (store line 0 bs) = length line.
Proof.
  intros H. rewrite store_0 by done. rewrite length_app, length_drop. lia.
Qed.

Lemma dumpfiles_loop_spec (cfg : config) :
  1 <= linesize cfg <= 256 ->
  forall (fuel : nat) (line : list Z) (ch pos : Z) (s : state) (o : output),
  (length (pending s) < fuel)%nat -> length line = 256%nat ->
  (ch = EOF -> pending s = []) ->
  option_map snd (dumpfiles_loop cfg fuel line ch pos s o)
  = dumplines cfg
      (chunks (linesize cfg) (take (Z.to_nat (maxinputlen s)) (pending s)))
      pos o.
Proof.
  intros HL. induction fuel as [|fuel IH]; intros line ch pos s o Hf Hlen Hch;
    [lia|].
  cbn [dumpfiles_loop].
  destruct (Z.eqb_spec ch EOF) as [He|He]; cbn [negb andb].
  { by rewrite (Hch He), take_nil. }
  destruct (Z.gtb_spec (maxinputlen s) 0) as [HM|HM]; cycle 1.
  { by replace (Z.to_nat (maxinputlen s)) with 0%nat by lia. }
  rewrite (dumpfiles_fill_autoskip_fill _ _ _ 0).
  destruct (autoskip_fill_spec (Z.to_nat (linesize cfg)) 0 ch 0 line s)
    as (ch' & s' & -> & _ & Hmx & Hp & Hch').
  set (t := (Z.to_nat (linesize cfg)
               `min` (Z.to_nat (maxinputlen s) `min` length (pending s)))%nat)
    in *.
  destruct (first_chunk (Z.to_nat (linesize cfg)) (Z.to_nat (maxinputlen s))
              (pending s)) as [Hc Hrest].
  fold t in Hc, Hrest. rewrite Z.add_0_l.
  destruct (Z.eqb_spec (Z.of_nat t) 0) as [Ht|Ht].
  - assert (pending s = []) as ->
      by (apply nil_length_inv; unfold t in Ht; lia).
    by rewrite take_nil.
  - assert (pending s <> []) as Hne
      by (intros E; apply Ht; unfold t; rewrite E; cbn [length]; lia).
    assert (take (Z.to_nat (maxinputlen s)) (pending s) <> []) as Hne'.
    { destruct (pending s); [done|].
      replace (Z.to_nat (maxinputlen s)) with (S (Z.to_nat (maxinputlen s) - 1))
        by lia. done. }
    rewrite chunks_step by (done || lia). cbn [dumplines].
    rewrite <- Hc.
    assert (length (take t (pending s)) = t) as Hlt
      by (rewrite length_take; lia).
    rewrite Hlt.
    rewrite (dumpline_ext cfg _ (take t (pending s))); cycle 1.
    { rewrite store_0 by (rewrite Hlt; lia).
      rewrite Nat2Z.id. apply same_bytes_prefix; [exact []|lia]. }
    destruct (dumpline cfg (take t (pending s)) (Z.of_nat t) pos o) as [o1|];
      [|done].
    rewrite IH.
    + rewrite Hp, Hmx, <- Hrest. do 3 f_equal. lia.
    + rewrite Hp, length_drop. lia.
    + rewrite length_store_0; rewrite ?Hlt; lia.
    + intros E. destruct (Hch' E); done.
Qed.

Lemma held_eta (h : held) :
  {| line := line h; linesheld := linesheld h; lastheldsize := lastheldsize h;
     holdpos := holdpos h; pos := pos h |} = h.
Proof. by destruct h. Qed.

Lemma autoskip_loop_spec (cfg : config) :
  1 <= linesize cfg <= 256 ->
  forall (fuel : nat) (h : held) (ch : Z) (s : state) (o : output),
  (length (pending s) < fuel)%nat -> length (line h) = 256%nat ->
  (ch = EOF -> pending s = []) ->
  option_map (fun r => (fst (fst r), snd r)) (autoskip_loop cfg fuel h ch s o)
  = autoskip_rounds cfg
      (chunks (linesize cfg) (take (Z.to_nat (maxinputlen s)) (pending s)))
      h o.
Proof.
  intros HL. induction fuel as [|fuel IH]; intros h ch s o Hf Hlen Hch; [lia|].
  cbn [autoskip_loop].
  destruct (Z.eqb_spec ch EOF) as [He|He]; cbn [negb andb].
  { by rewrite (Hch He), take_nil. }
  destruct (Z.gtb_spec (maxinputlen s) 0) as [HM|HM]; cycle 1.
  { by replace (Z.to_nat (maxinputlen s)) with 0%nat by lia. }
  destruct (autoskip_fill_spec (Z.to_nat (linesize cfg)) 0 ch 0 (line h) s)
    as (ch' & s' & -> & _ & Hmx & Hp & Hch').
  set (t := (Z.to_nat (linesize cfg)
               `min` (Z.to_nat (maxinputlen s) `min` length (pending s)))%nat)
    in *.
  destruct (first_chunk (Z.to_nat (linesize cfg)) (Z.to_nat (maxinputlen s))
              (pending s)) as [Hc Hrest].
  fold t in Hc, Hrest. rewrite Z.add_0_l.
  destruct (Z.eqb_spec (Z.of_nat t) 0) as [Ht|Ht].
  - assert (pending s = []) as Hnil
      by (apply nil_length_inv; unfold t in Ht; lia).
    rewrite Hnil, !take_nil. cbn. by rewrite held_eta.
  - assert (pending s <> []) as Hne
      by (intros E; apply Ht; unfold t; rewrite E; cbn [length]; lia).
    assert (take (Z.to_nat (maxinputlen s)) (pending s) <> []) as Hne'.
    { destruct (pending s); [done|].
      replace (Z.to_nat (maxinputlen s)) with (S (Z.to_nat (maxinputlen s) - 1))
        by lia. done. }
    rewrite chunks_step by (done || lia). cbn [autoskip_rounds].
    rewrite <- Hc.
    assert (length (take t (pending s)) = t) as Hlt
      by (rewrite length_take; lia).
    unfold autoskip_round. rewrite Hlt.
    rewrite store_0 by (rewrite Hlt; lia). rewrite Hlt.
    set (c := take t (pending s)) in *.
    assert (length (c ++ drop t (line h)) = 256%nat) as Hlen1
      by (rewrite length_app, length_drop; lia).
    assert (take (Z.to_nat (maxinputlen s')) (pending s')
            = drop (Z.to_nat (linesize cfg))
                (take (Z.to_nat (maxinputlen s)) (pending s))) as Hnext.
    { rewrite Hp, Hmx, <- Hrest. do 2 f_equal. lia. }
    assert (length (pending s') < fuel)%nat as Hf'
      by (rewrite Hp, length_drop; lia).
    assert (ch' = EOF -> pending s' = []) as Hch''
      by (intros E; destruct (Hch' E); done).
    destruct (forallb (Z.eqb 0) c) eqn:Hz.
    + assert (fold_left Z.lor c 0 = 0) as -> by (by apply lor_fold_zero).
      cbn [Z.eqb negb]. rewrite IH by done. by rewrite Hnext.
    + assert ((fold_left Z.lor c 0 =? 0) = false) as ->.
      { apply Z.eqb_neq. intros E. apply lor_fold_zero in E as [_ E]. congruence. }
      cbn [negb].
      destruct (if negb (linesheld h =? 0)
                then dumpzerolines cfg (linesheld h) (holdpos h) o
                else Some o) as [o1|]; [|done].
      rewrite (dumpline_ext cfg _ c); cycle 1.
      { rewrite Nat2Z.id. apply same_bytes_prefix; [exact []|lia]. }
      destruct (dumpline cfg c (Z.of_nat t) (pos h) o1) as [o2|]; [|done].
      rewrite IH by done. by rewrite Hnext.
Qed.

(** ** The dump driver *)

Lemma dump_skip_spec (k : nat) :
  forall (p : Z) (s : state),
  let r := dump_skip k p s in
  keeps s (snd r) /\
  pending (snd r) = drop k (pending s) /\
  fst r = if decide (k <= length (pending s))%nat
          then Some (p + Z.of_nat k) else None.
Proof.
  induction k as [|k IH]; intros p s.
  - cbn. rewrite Z.add_0_r. split; [done|]. split; [done|].
    by rewrite decide_True by lia.
  - cbn [dump_skip].
    destruct (nextbyte_cases s)
      as [(Hp & s' & -> & Hk & Hp')
         |(b & rest & s' & Hp & Hb & -> & Hk & Hp')].
    + simpl (EOF =? EOF). cbv iota. cbn [fst snd]. rewrite Hp, Hp'.
      split; [done|]. split; [done|]. by rewrite decide_False by (simpl; lia).
    + assert ((b =? EOF) = false) as ->
        by (apply Z.eqb_neq; unfold isbyte, EOF in *; lia).
      destruct (IH (p + 1) s') as (Hk' & Hpe & Hr).
      split; [by eapply keeps_trans|]. rewrite Hpe, Hr, Hp, Hp'.
      split; [done|]. cbn [length].
      destruct (decide (k <= length rest)%nat);
        [rewrite decide_True by lia|rewrite decide_False by lia]; [|done].
      f_equal. lia.
Qed.

Lemma dumpfiles_spec (cfg : config) (line0 : list Z) (s : state) (p : Z)
    (o : output) :
  1 <= linesize cfg <= 256 -> length line0 = 256%nat ->
  option_map snd (dumpfiles cfg line0 s p o)
  = dumplines cfg
      (chunks (linesize cfg) (take (Z.to_nat (maxinputlen s)) (pending s)))
      p o.
Proof.
  intros HL Hlen. unfold dumpfiles.
  apply dumpfiles_loop_spec; [done|lia|done|unfold EOF; lia].
Qed.

Lemma dumpfileswithautoskip_spec (cfg : config) (line0 : list Z) (s : state)
    (p : Z) (o : output) :
  1 <= linesize cfg <= 256 -> length line0 = 256%nat ->
  option_map (fun r => (fst (fst r), snd r))
    (dumpfileswithautoskip cfg line0 s p o)
  = autoskip_lines cfg
      (chunks (linesize cfg) (take (Z.to_nat (maxinputlen s)) (pending s)))
      (autoskip_start line0 p) o.
Proof.
  intros HL Hlen. unfold dumpfileswithautoskip, autoskip_lines.
  rewrite <- (autoskip_loop_spec cfg HL (S (length (pending s))) _ 0 s o);
    [|lia|done|unfold EOF; lia].
  destruct (autoskip_loop cfg _ _ 0 s o) as [[[h1 s1] o1]|]; [|done].
  cbn [option_map fst snd]. by destruct (autoskip_finish cfg h1 o1).
Qed.

(** The output of [dump] is that of the line functions run over the chunks
    of the selected bytes, the first of them at position [startoffset]. *)
Lemma dump_spec (cfg : config) (line0 : list Z) (s : state) (o : output) :
  1 <= linesize cfg <= 256 -> length line0 = 256%nat -> 0 <= startoffset s ->
  option_map snd (dump cfg line0 s o)
  = if autoskip cfg
    then option_map snd
           (autoskip_lines cfg (chunks (linesize cfg) (selected s))
              (autoskip_start line0 (startoffset s)) o)
    else dumplines cfg (chunks (linesize cfg) (selected s)) (startoffset s) o.
Proof.
  intros HL Hlen HS. unfold dump, selected.
  destruct (dump_skip_spec (Z.to_nat (startoffset s)) 0 s)
    as ([Hk1 Hk2] & Hp & Hr).
  destruct (dump_skip (Z.to_nat (startoffset s)) 0 s) as [r s1].
  cbn [fst snd] in *. subst r.
  destruct (decide (Z.to_nat (startoffset s) <= length (pending s))%nat)
    as [Hle|Hgt].
  - rewrite Z.add_0_l, Z2Nat.id by lia. rewrite <- Hp, <- Hk1.
    destruct (autoskip cfg).
    + rewrite <- dumpfileswithautoskip_spec by done.
      by destruct (dumpfileswithautoskip cfg line0 s1 (startoffset s) o)
        as [[[h2 s2] o2]|].
    + by apply dumpfiles_spec.
  - rewrite drop_ge, take_nil by lia. by destruct (autoskip cfg).
Qed.

Lemma inputinit_closed_exitcode (fs : list input) (s : state) :
  Forall clean fs ->
  exitcode (snd (inputinit_closed fs s)) = exitcode s /\
  Forall clean (filenames (snd (inputinit_closed fs s))).
Proof.
  intros Hc. destruct fs as [|f fs]; [done|].
  cbn [inputinit_closed]. apply Forall_cons_1 in Hc as Hc'.
  destruct Hc' as [(-> & _) _]. done.
Qed.

Lemma inputupdate_exitcode (s : state) :
  Forall clean (filenames s) ->
  exitcode (inputupdate s) = exitcode s /\
  Forall clean (filenames (inputupdate s)).
Proof.
  intros Hc. unfold inputupdate. destruct (filenames s) as [|f fs] eqn:Hfs.
  - cbn. by rewrite Hfs.
  - apply Forall_cons_1 in Hc as [(_ & -> & ->) Hc]. cbn. by rewrite Hfs.
Qed.

Lemma nextbyte_loop_exitcode (fuel : nat) (s : state) :
  Forall clean (filenames s) ->
  exitcode (snd (nextbyte_loop fuel s)) = exitcode s /\
  Forall clean (filenames (snd (nextbyte_loop fuel s))).
Proof.
  revert s. induction fuel as [|fuel IH]; intros s Hc; [done|].
  cbn [nextbyte_loop].
  assert (exitcode (snd (inputinit s)) = exitcode s /\
          Forall clean (filenames (snd (inputinit s)))) as [He1 Hc1].
  { unfold inputinit. destruct (currentfile s); [done|].
    by apply inputinit_closed_exitcode. }
  destruct (inputinit s) as [ok s1]. cbn [snd] in *.
  destruct ok; cbn [negb]; [|done].
  unfold fgetc. destruct (currentfile s1) as [[|b rest]|].
  - simpl (negb (EOF =? EOF)). cbv iota.
    destruct (inputupdate_exitcode s1 Hc1) as [He2 Hc2].
    destruct (IH _ Hc2) as [He3 Hc3]. split; [congruence|done].
  - rewrite byteval_not_EOF. cbn. done.
  - simpl (negb (EOF =? EOF)). cbv iota.
    destruct (inputupdate_exitcode s1 Hc1) as [He2 Hc2].
    destruct (IH _ Hc2) as [He3 Hc3]. split; [congruence|done].
Qed.


(** ** No run of the drivers faults *)

Lemma chunks_Forall (L : Z) (xs : list Z) :
  1 <= L -> Forall isbyte xs ->
  Forall (fun c => Forall isbyte c /\ (1 <= length c <= Z.to_nat L)%nat)
         (chunks L xs).
Proof.
  intros HL. remember (length xs) as m eqn:Hm. revert xs Hm.
  induction m as [m IH] using lt_wf_ind. intros xs -> Hxs.
  destruct xs as [|x xs]; [constructor|].
  rewrite chunks_step by (done || lia). constructor.
  - split; [by apply Forall_take|]. rewrite length_take. simpl. lia.
  - apply (IH (length (drop (Z.to_nat L) (x :: xs)))); [|done|by apply Forall_drop].
    rewrite length_drop. simpl. lia.
Qed.

Lemma dumpline_runs (cfg : config) (buf : list Z) (n pos : Z) (o : output)
    (seen : list Z) :
  1 <= groupsize cfg -> 0 <= n -> (Z.to_nat n <= length buf)%nat ->
  Forall isbyte buf -> in_sync seen o ->
  exists o', dumpline cfg buf n pos o = Some o' /\
             rendered cfg o (take (Z.to_nat n) buf) o'.
Proof.
  intros Hg Hn Hlen Hbuf Hs.
  destruct (dumpline_sync cfg buf n pos o seen Hg Hn Hbuf Hs) as (o' & Hd & _).
  exists o'. split; [done|].
  rewrite <- (app_nil_r (take _ _)).
  eapply rendered_line; eauto. constructor.
Qed.

Lemma dumplines_runs (cfg : config) (cs : list (list Z)) :
  1 <= groupsize cfg -> Forall (Forall isbyte) cs ->
  forall (pos : Z) (o : output) (seen : list Z), in_sync seen o ->
  exists o', dumplines cfg cs pos o = Some o' /\ rendered cfg o (concat cs) o'.
Proof.
  intros Hg Hcs. induction Hcs as [|c cs Hc Hcs IH]; intros pos o seen Hs.
  - exists o. split; [done|constructor].
  - cbn [dumplines concat].
    destruct (dumpline_runs cfg c (Z.of_nat (length c)) pos o seen)
      as (o1 & -> & Hr1); try done; try lia.
    rewrite Nat2Z.id, take_ge in Hr1 by lia.
    destruct (IH (pos + Z.of_nat (length c)) o1 _
                (rendered_sync cfg _ _ _ _ Hg Hr1 Hs)) as (o2 & -> & Hr2).
    exists o2. split; [done|]. eapply rendered_trans; eauto.
Qed.

Lemma zeroline_ok : length zeroline = 256%nat /\ Forall isbyte zeroline.
Proof.
  unfold zeroline. split; [apply length_replicate|].
  apply Forall_replicate. unfold isbyte. lia.
Qed.

Lemma dumpzerolines_loop_runs (cfg : config) (k : nat) :
  1 <= groupsize cfg -> 0 <= linesize cfg <= 256 ->
  forall (i pos : Z) (o : output) (seen : list Z), in_sync seen o ->
  exists o' bs, dumpzerolines_loop cfg k i pos o = Some o' /\
                rendered cfg o bs o'.
Proof.
  intros Hg HL. destruct zeroline_ok as [Hzl Hzb].
  induction k as [|k IH]; intros i pos o seen Hs.
  - exists o, []. split; [done|constructor].
  - cbn [dumpzerolines_loop].
    destruct (dumpline_runs cfg zeroline (linesize cfg)
                (pos + i * linesize cfg) o seen)
      as (o1 & -> & Hr1); try done; try lia.
    destruct (IH (i + 1) pos o1 _ (rendered_sync cfg _ _ _ _ Hg Hr1 Hs))
      as (o2 & bs & -> & Hr2).
    exists o2. eexists. split; [done|]. eapply rendered_trans; eauto.
Qed.

Lemma dumpzerolines_runs (cfg : config) (count pos : Z) (o : output)
    (seen : list Z) :
  1 <= groupsize cfg -> 0 <= linesize cfg <= 256 -> in_sync seen o ->
  exists o' bs, dumpzerolines cfg count pos o = Some o' /\ rendered cfg o bs o'.
Proof.
  intros Hg HL Hs. destruct zeroline_ok as [Hzl Hzb]. unfold dumpzerolines.
  destruct (count >? 2).
  - destruct (dumpline_runs cfg zeroline (linesize cfg) pos o seen)
      as (o1 & -> & Hr1); try done; try lia.
    eexists. eexists. split; [done|].
    eapply rendered_trans; [exact Hr1|].
    apply rendered_marker. constructor.
  - by eapply dumpzerolines_loop_runs.
Qed.

Lemma autoskip_round_runs (cfg : config) (h : held) (c : list Z) (o : output)
    (seen : list Z) :
  1 <= groupsize cfg -> 0 <= linesize cfg <= 256 ->
  Forall isbyte c -> (length c <= 256)%nat -> held_ok h -> in_sync seen o ->
  exists h' o' bs, autoskip_round cfg h c o = Some (h', o') /\
                   rendered cfg o bs o' /\ held_ok h'.
Proof.
  intros Hg HL Hc Hlc (Hlen & Hb & Hlast) Hs. unfold autoskip_round.
  assert (length (c ++ drop (length c) (line h)) = 256%nat) as Hlen1
    by (rewrite length_app, length_drop; lia).
  assert (Forall isbyte (c ++ drop (length c) (line h))) as Hb1
    by (apply Forall_app; split; [done|by apply Forall_drop]).
  destruct (forallb (Z.eqb 0) c).
  - do 3 eexists. split; [done|]. split; [constructor|].
    unfold held_ok. cbn [line lastheldsize].
    split; [exact Hlen1|split; [exact Hb1|lia]].
  - assert (exists o1 bs1,
               (if negb (linesheld h =? 0)
                then dumpzerolines cfg (linesheld h) (holdpos h) o
                else Some o) = Some o1 /\ rendered cfg o bs1 o1)
      as (o1 & bs1 & -> & Hr1).
    { destruct (negb (linesheld h =? 0)).
      - by eapply dumpzerolines_runs.
      - exists o, []. split; [done|constructor]. }
    destruct (dumpline_runs cfg c (Z.of_nat (length c)) (pos h) o1 _ Hg
                ltac:(lia) ltac:(lia) Hc (rendered_sync cfg _ _ _ _ Hg Hr1 Hs))
      as (o2 & -> & Hr2).
    do 3 eexists. split; [done|].
    split; [eapply rendered_trans; eauto|].
    unfold held_ok. cbn [line lastheldsize].
    split; [exact Hlen1|split; [exact Hb1|lia]].
Qed.

Lemma autoskip_rounds_runs (cfg : config) (cs : list (list Z)) :
  1 <= groupsize cfg -> 0 <= linesize cfg <= 256 ->
  Forall (fun c => Forall isbyte c /\ (length c <= 256)%nat) cs ->
  forall (h : held) (o : output) (seen : list Z),
  held_ok h -> in_sync seen o ->
  exists h' o' bs, autoskip_rounds cfg cs h o = Some (h', o') /\
                   rendered cfg o bs o' /\ held_ok h'.
Proof.
  intros Hg HL Hcs. induction Hcs as [|c cs [Hc Hlc] Hcs IH]; intros h o seen Hh Hs.
  - exists h, o, []. split; [done|]. split; [constructor|done].
  - cbn [autoskip_rounds].
    destruct (autoskip_round_runs cfg h c o seen Hg HL Hc Hlc Hh Hs)
      as (h1 & o1 & bs1 & -> & Hr1 & Hh1).
    destruct (IH h1 o1 _ Hh1 (rendered_sync cfg _ _ _ _ Hg Hr1 Hs))
      as (h2 & o2 & bs2 & -> & Hr2 & Hh2).
    do 3 eexists. split; [done|]. split; [eapply rendered_trans; eauto|done].
Qed.

Lemma autoskip_finish_runs (cfg : config) (h : held) (o : output)
    (seen : list Z) :
  1 <= groupsize cfg -> 0 <= linesize cfg <= 256 -> held_ok h ->
  in_sync seen o ->
  exists o' bs, autoskip_finish cfg h o = Some o' /\ rendered cfg o bs o'.
Proof.
  intros Hg HL (Hlen & Hb & Hlast) Hs. unfold autoskip_finish.
  destruct (negb (linesheld h =? 0)).
  - destruct (dumpzerolines_runs cfg (linesheld h - 1) (holdpos h) o seen
                Hg HL Hs) as (o1 & bs1 & -> & Hr1).
    destruct (dumpline_runs cfg (line h) (lastheldsize h)
                (pos h - lastheldsize h) o1 _ Hg
                ltac:(lia) ltac:(lia) Hb (rendered_sync cfg _ _ _ _ Hg Hr1 Hs))
      as (o2 & -> & Hr2).
    do 2 eexists. split; [done|]. eapply rendered_trans; eauto.
  - exists o, []. split; [done|constructor].
Qed.

Lemma dump_runs (cfg : config) (line0 : list Z) (s : state) (o : output)
    (seen : list Z) :
  1 <= groupsize cfg -> 1 <= linesize cfg <= 256 ->
  length line0 = 256%nat -> Forall isbyte line0 -> 0 <= startoffset s ->
  in_sync seen o ->
  exists s' o' bs, dump cfg line0 s o = Some (s', o') /\ rendered cfg o bs o'.
Proof.
  intros Hg HL Hlen Hb HS Hs.
  pose proof (dump_spec cfg line0 s o HL Hlen HS) as Hspec.
  assert (Forall isbyte (selected s)) as Hsel
    by (apply Forall_take, Forall_drop, pending_isbyte).
  pose proof (chunks_Forall (linesize cfg) (selected s) ltac:(lia) Hsel) as Hcs.
  assert (exists o' bs, option_map snd (dump cfg line0 s o) = Some o' /\
                        rendered cfg o bs o') as (o' & bs & Ho & Hr).
  { rewrite Hspec. destruct (autoskip cfg).
    - destruct (autoskip_rounds_runs cfg (chunks (linesize cfg) (selected s))
                  Hg ltac:(lia)) with (h := autoskip_start line0 (startoffset s))
                  (o := o) (seen := seen)
        as (h1 & o1 & bs1 & Hr1 & Hrd1 & Hh1).
      + eapply Forall_impl; [exact Hcs|]. intros c [Hc Hl]. split; [done|lia].
      + unfold held_ok, autoskip_start. cbn [line lastheldsize].
        split; [exact Hlen|split; [exact Hb|lia]].
      + done.
      + destruct (autoskip_finish_runs cfg h1 o1 _ Hg ltac:(lia) Hh1
                    (rendered_sync cfg _ _ _ _ Hg Hrd1 Hs))
          as (o2 & bs2 & Hf & Hrd2).
        unfold autoskip_lines. rewrite Hr1, Hf.
        do 2 eexists. split; [done|]. eapply rendered_trans; eauto.
    - destruct (dumplines_runs cfg (chunks (linesize cfg) (selected s)) Hg)
        with (pos := startoffset s) (o := o) (seen := seen)
        as (o1 & Hd & Hrd); [|done|].
      + eapply Forall_impl; [exact Hcs|]. by intros c [Hc _].
      + eauto. }
  destruct (dump cfg line0 s o) as [[s' o'']|]; [|done].
  injection Ho as ->. eauto.
Qed.

Lemma dumplines_rendered (cfg : config) (cs : list (list Z)) :
  Forall (Forall isbyte) cs ->
  forall (pos : Z) (o o' : output),
  dumplines cfg cs pos o = Some o' -> rendered cfg o (concat cs) o'.
Proof.
  intros Hcs. induction Hcs as [|c cs Hc Hcs IH]; intros pos o o' Hd.
  - injection Hd as <-. constructor.
  - cbn [dumplines concat] in *.
    destruct (dumpline cfg c (Z.of_nat (length c)) pos o) as [o1|] eqn:Hd1;
      [|done].
    replace (c ++ concat cs)
      with (take (Z.to_nat (Z.of_nat (length c))) c ++ concat cs)
      by (by rewrite take_ge by lia).
    eapply rendered_line; eauto; lia.
Qed.




(** The selection of the example: bytes 1, 2 and 3 of a five-byte file. *)
Example selected_example :
  selected (state_of [file_of [x41; x42; x43; x44; x45]] 1 3) = [66; 67; 68].
Proof. reflexivity. Qed.

Lemma pending_state_of (fs : list input) (start len : Z) :
  pending (state_of fs start len) = concat (map file_bytes fs).
Proof. reflexivity. Qed.

Lemma file_bytes_contents (f : input) : file_bytes f = map byteval (contents f).
Proof. unfold file_bytes, contents. by destruct (in_stdin f || in_opens f). Qed.

Lemma pending_joined (fs : list input) (start len : Z) :
  pending (state_of [file_of (concat (map contents fs))] start len)
  = pending (state_of fs start len).
Proof.
  rewrite !pending_state_of. cbn [map concat]. rewrite app_nil_r.
  unfold file_bytes at 1. cbn [file_of in_stdin in_opens in_data orb].
  induction fs as [|f fs IH]; [done|].
  cbn [map concat]. by rewrite map_app, IH, file_bytes_contents.
Qed.

(** C4: for any fixed settings, dumping a list of inputs writes exactly
    what dumping one input holding the concatenation of their contents
    writes -- with autoskip disabled, as claimed, and with it enabled as
    well. *)
Theorem dump_inputs_concatenated (cfg : config) (line0 : list Z)
    (fs : list input) (start len : Z) (o : output) :
  1 <= linesize cfg <= 255 -> length line0 = 256%nat -> 0 <= start ->
  option_map snd (dump cfg line0 (state_of fs start len) o)
  = option_map snd
      (dump cfg line0
         (state_of [file_of (concat (map contents fs))] start len) o).
Proof.
  intros HL Hlen HS.
  rewrite !dump_spec by (done || lia).
  unfold selected. rewrite pending_joined. reflexivity.
Qed.

Lemma dump_inputs_concatenated_witness :
  let cfg := default_config in
  let line0 := replicate 256 0 in
  let fs := [file_of [x41; x42]; file_of []; file_of [x43]] in
  option_map snd (dump cfg line0 (state_of fs 0 INT_MAX) output_start)
  = option_map snd
      (dump cfg line0
         (state_of [file_of (concat (map contents fs))] 0 INT_MAX)
         output_start).
Proof.
  intros cfg line0 fs.
  apply (dump_inputs_concatenated cfg line0 fs 0 INT_MAX output_start);
    [vm_compute; split; discriminate | reflexivity | vm_compute; discriminate].
Defined.

(** ** The palette over a whole run *)

Lemma rendered_prefix (cfg : config) (o o' : output) (bs seen : list Z) :
  1 <= groupsize cfg -> in_sync seen o -> rendered cfg o bs o' ->
  exists seen', in_sync seen' o' /\ seen `prefix_of` seen'.
Proof.
  intros Hg Hs Hr. eexists. split; [by eapply rendered_sync|].
  apply observe_prefix.
Qed.

Lemma rendered_keeps_color (cfg : config) (o o' : output) (bs seen : list Z)
    (b : Z) :
  1 <= groupsize cfg -> in_sync seen o -> rendered cfg o bs o' ->
  isbyte b -> palette o !!! Z.to_nat b <> 0 ->
  palette o' !!! Z.to_nat b = palette o !!! Z.to_nat b.
Proof.
  intros Hg Hs Hr Hb Hne.
  destruct (rendered_prefix cfg o o' bs seen Hg Hs Hr) as (seen' & Hs' & Hpre).
  apply (sync_agree seen seen'); try done.
  by apply (sync_assigned_iff seen o).
Qed.

(** C5: within one invocation -- in any output state [o] reached from the
    start of the run -- a byte value [b] that holds a color keeps it: after
    any further lines, however many, the palette entry of [b] is the same,
    and every later call of a colorizing renderer writes each byte in the
    color that the palette holds for its value, in which [b] still has the
    color it had. *)
Theorem palette_colors_stable (cfg : config) (has_is : Z -> bool)
    (bs0 bs : list Z) (o o' : output) (b : Z) :
  1 <= groupsize cfg ->
  rendered cfg (initoutput cfg has_is output_start) bs0 o ->
  rendered cfg o bs o' ->
  isbyte b -> palette o !!! Z.to_nat b <> 0 ->
  palette o' !!! Z.to_nat b = palette o !!! Z.to_nat b /\
  (forall (buf : list Z) (n pos : Z) (o'' : output),
     0 <= n -> Forall isbyte buf ->
     renderlinecolored cfg buf n pos o' = Some o'' ->
     stdout o'' = stdout o' ++ colored_line_items cfg (palette o'') buf n pos /\
     palette o'' !!! Z.to_nat b = palette o !!! Z.to_nat b) /\
  (forall (buf : list Z) (n : Z) (o'' : output),
     Forall isbyte buf ->
     renderbytescolored cfg buf n o' = Some o'' ->
     stdout o'' = stdout o' ++ colored_bytes_items cfg (palette o'') buf n /\
     palette o'' !!! Z.to_nat b = palette o !!! Z.to_nat b).
Proof.
  intros Hg Hr0 Hr Hb Hne.
  pose proof (rendered_sync cfg _ _ _ _ Hg Hr0 (in_sync_initoutput cfg has_is))
    as Hs.
  pose proof (rendered_sync cfg _ _ _ _ Hg Hr Hs) as Hs'.
  pose proof (rendered_keeps_color cfg o o' bs _ b Hg Hs Hr Hb Hne) as Hkeep.
  split; [exact Hkeep|]. split.
  - intros buf n pos o'' Hn Hbuf Hrl.
    destruct (renderlinecolored_sync cfg buf n pos o' _ Hg Hn Hbuf Hs')
      as (o2 & Hrl' & Hs2 & Hout).
    rewrite Hrl in Hrl'. injection Hrl' as <-. split; [exact Hout|].
    rewrite <- Hkeep.
    apply (sync_agree _ _ o' o'' b Hs' Hs2 (observe_prefix _ _)).
    apply (sync_assigned_iff _ o'); [done|done|]. by rewrite Hkeep.
  - intros buf n o'' Hbuf Hrb.
    destruct (renderbytescolored_sync cfg buf n o' _ Hbuf Hs')
      as (o2 & Hrb' & Hs2 & Hout).
    rewrite Hrb in Hrb'. injection Hrb' as <-. split; [exact Hout|].
    rewrite <- Hkeep.
    apply (sync_agree _ _ o' o'' b Hs' Hs2 (observe_prefix _ _)).
    apply (sync_assigned_iff _ o'); [done|done|]. by rewrite Hkeep.
Qed.

Lemma observe_cons_head (xs seen : list Z) (a : Z) :
  observe (a :: seen) xs
  = a :: observe seen (List.filter (fun b => negb (b =? a)) xs).
Proof.
  revert seen. induction xs as [|x xs IH]; intros seen; [done|].
  rewrite observe_cons. cbn [List.filter].
  destruct (Z.eqb_spec x a) as [->|Hne]; cbn [negb].
  - rewrite observe_one_known by (by left). apply IH.
  - rewrite observe_cons, <- IH. f_equal. unfold observe_one.
    destruct (decide (x ∈ seen)) as [Hin|Hnin].
    + by rewrite decide_True by (by right).
    + rewrite decide_False; [done|]. rewrite elem_of_cons. tauto.
Qed.

Lemma observe_NoDup (seen bs : list Z) : NoDup seen -> NoDup (observe seen bs).
Proof.
  revert seen. induction bs as [|b bs IH]; intros seen Hnd; [done|].
  rewrite observe_cons. apply IH. unfold observe_one.
  destruct (decide (b ∈ seen)); [done|].
  apply NoDup_app. split_and!; [done| |apply NoDup_singleton].
  intros x Hx Hx'. apply list_elem_of_singleton in Hx'. by subst.
Qed.

Lemma palette_colors_stable_witness :
  let cfg := default_config in
  let o0 := initoutput cfg (fun _ => false) output_start in
  let o := default o0 (dumpline cfg [65] 1 0 o0) in
  let o' := default o (dumpline cfg [66; 65] 2 1 o) in
  palette o' !!! Z.to_nat 65 = palette o !!! Z.to_nat 65 /\
  (forall (buf : list Z) (n pos : Z) (o'' : output),
     0 <= n -> Forall isbyte buf ->
     renderlinecolored cfg buf n pos o' = Some o'' ->
     stdout o'' = stdout o' ++ colored_line_items cfg (palette o'') buf n pos /\
     palette o'' !!! Z.to_nat 65 = palette o !!! Z.to_nat 65) /\
  (forall (buf : list Z) (n : Z) (o'' : output),
     Forall isbyte buf ->
     renderbytescolored cfg buf n o' = Some o'' ->
     stdout o'' = stdout o' ++ colored_bytes_items cfg (palette o'') buf n /\
     palette o'' !!! Z.to_nat 65 = palette o !!! Z.to_nat 65).
Proof.
  intros cfg o0 o o'.
  apply (palette_colors_stable cfg (fun _ => false) [65] [66; 65] o o' 65).
  - vm_compute. discriminate.
  - apply (rendered_line cfg o0 o o [65] 1 0 []);
      [lia | simpl; lia | repeat constructor; unfold isbyte; lia
      | vm_compute; reflexivity | apply rendered_nil].
  - apply (rendered_line cfg o o' o' [66; 65] 2 1 []);
      [lia | simpl; lia | repeat constructor; unfold isbyte; lia
      | vm_compute; reflexivity | apply rendered_nil].
  - unfold isbyte. lia.
  - vm_compute. discriminate.
Defined.

(** C6, as the specification states it, fails: [initoutput] gives the
    first slot of [colorset] (color 8) to the byte value 0 before any input
    is read, so the first distinct byte value observed, here 0x41 in a
    stream that starts with it, receives the second slot (color 11). *)
Lemma first_byte_gets_second_slot :
  let o0 := initoutput default_config (fun _ => false) output_start in
  colorset !! 0%nat = Some 8 /\ colorset !! 1%nat = Some 11 /\
  option_map (fun o => palette o !!! Z.to_nat 65)
    (dumpline default_config [65] 1 0 o0) = Some 11 /\
  ~ (forall o : output,
       dumpline default_config [65] 1 0 o0 = Some o ->
       Some (palette o !!! Z.to_nat 65) = colorset !! 0%nat).
Proof.
  intros o0. split; [reflexivity|]. split; [reflexivity|].
  split; [vm_compute; reflexivity|].
  intros H.
  destruct (dumpline default_config [65] 1 0 o0) as [o|] eqn:Hd;
    [|vm_compute in Hd; discriminate].
  specialize (H o eq_refl).
  assert (palette o !!! Z.to_nat 65 = 11) as Hp.
  { assert (Some o = dumpline default_config [65] 1 0 o0) as Hd' by done.
    vm_compute in Hd'. injection Hd' as ->. reflexivity. }
  rewrite Hp in H. vm_compute in H. discriminate.
Qed.

(** C6, amended: the first slot of the palette is taken at start-up by the
    byte value 0 (when colors are on); from there on colors are allocated
    in first-observation order: the byte values that hold a color are 0
    followed by the distinct non-zero colorizable byte values in the order
    in which the rendered chunks first show them, the value at index j of
    that list holds slot j of [colorset], and [nextcolorfromset] is the
    length of the list.  The i-th distinct non-zero value observed thus
    receives slot i + 1, counting slots from 1. *)
Theorem palette_first_seen_order (cfg : config) (has_is : Z -> bool)
    (bs : list Z) (o : output) :
  1 <= groupsize cfg -> colorize cfg = true ->
  rendered cfg (initoutput cfg has_is output_start) bs o ->
  let order :=
    0 :: observe []
           (List.filter (fun b => negb (b =? 0)) (List.filter (colored cfg) bs))
  in
  NoDup order /\
  nextcolorfromset o = Z.of_nat (length order) /\
  palette o !!! Z.to_nat 0 = colorset !!! 0%nat /\
  (forall (j : nat) (b : Z),
     order !! j = Some b -> palette o !!! Z.to_nat b = colorset !!! j) /\
  (forall b : Z, isbyte b -> b ∉ order -> palette o !!! Z.to_nat b = 0).
Proof.
  intros Hg Hc Hr order.
  pose proof (rendered_sync cfg _ _ _ _ Hg Hr (in_sync_initoutput cfg has_is))
    as Hs.
  rewrite Hc, observe_cons_head in Hs. fold order in Hs.
  destruct Hs as (_ & Hnd & _ & Hnext & Hcol & Hun).
  split; [exact Hnd|]. split; [exact Hnext|].
  split; [by apply (Hcol 0%nat)|]. split; [exact Hcol|exact Hun].
Qed.

Lemma palette_first_seen_order_witness :
  let cfg := default_config in
  let o0 := initoutput cfg (fun _ => false) output_start in
  let o := default o0 (dumpline cfg [65; 0; 66; 65] 4 0 o0) in
  let order :=
    0 :: observe []
           (List.filter (fun b => negb (b =? 0))
              (List.filter (colored cfg) [65; 0; 66; 65]))
  in
  order = [0; 65; 66] /\
  NoDup order /\
  nextcolorfromset o = Z.of_nat (length order) /\
  palette o !!! Z.to_nat 0 = colorset !!! 0%nat /\
  (forall (j : nat) (b : Z),
     order !! j = Some b -> palette o !!! Z.to_nat b = colorset !!! j) /\
  (forall b : Z, isbyte b -> b ∉ order -> palette o !!! Z.to_nat b = 0).
Proof.
  intros cfg o0 o order. split; [reflexivity|].
  apply (palette_first_seen_order cfg (fun _ => false) [65; 0; 66; 65] o).
  - vm_compute. discriminate.
  - reflexivity.
  - apply (rendered_line cfg o0 o o [65; 0; 66; 65] 4 0 []);
      [lia | simpl; lia | repeat constructor; unfold isbyte; lia
      | vm_compute; reflexivity | apply rendered_nil].
Defined.

(** C9: for every input and every setting, the run of [dump] from the
    state [initoutput] leaves returns without a fault, and in every output
    state the run goes through the byte values that hold a color are
    distinct bytes, at most 256 of them, [nextcolorfromset] is their
    number, and so at most 256; whenever a byte value is still unassigned
    the index is below 256 and the read of [colorset] at it is inside the
    table, so that the assignment statement and [dumpline] never fault. *)
Theorem palette_assignment_in_bounds (cfg : config) (has_is : Z -> bool)
    (line0 : list Z) (s : state) :
  1 <= groupsize cfg -> 1 <= linesize cfg <= 255 ->
  length line0 = 256%nat -> Forall isbyte line0 -> 0 <= startoffset s ->
  let o0 := initoutput cfg has_is output_start in
  length colorset = 256%nat /\
  (exists (s' : state) (o' : output) (bs : list Z),
     dump cfg line0 s o0 = Some (s', o') /\ rendered cfg o0 bs o') /\
  (forall (bs : list Z) (o : output),
     rendered cfg o0 bs o ->
     (exists seen : list Z,
        NoDup seen /\ Forall isbyte seen /\ (length seen <= 256)%nat /\
        nextcolorfromset o = Z.of_nat (length seen) /\
        (forall b : Z, isbyte b ->
                       (palette o !!! Z.to_nat b <> 0 <-> b ∈ seen))) /\
     0 <= nextcolorfromset o <= 256 /\
     (forall ch : Z,
        isbyte ch -> palette o !!! Z.to_nat ch = 0 ->
        nextcolorfromset o < 256 /\
        is_Some (colorset !! Z.to_nat (nextcolorfromset o))) /\
     (forall ch : Z, isbyte ch -> is_Some (assigncolor ch o)) /\
     (forall (buf : list Z) (n pos : Z),
        Forall isbyte buf -> 0 <= n -> is_Some (dumpline cfg buf n pos o))).
Proof.
  intros Hg HL Hlen Hb HS o0.
  pose proof (in_sync_initoutput cfg has_is) as Hs0. fold o0 in Hs0.
  split; [reflexivity|]. split.
  - by apply (dump_runs cfg line0 s o0 _ Hg ltac:(lia) Hlen Hb HS Hs0).
  - intros bs o Hr.
    pose proof (rendered_sync cfg _ _ _ _ Hg Hr Hs0) as Hs.
    set (seen := observe _ _) in Hs.
    pose proof (sync_length_le _ _ Hs) as Hle.
    pose proof Hs as (_ & Hnd & Hall & Hnext & _ & _).
    split; [|split; [lia|split; [|split]]].
    + exists seen. split_and!; try done.
      intros b Hbb. by apply sync_assigned_iff.
    + intros ch0 Hch Hz.
      assert (ch0 ∉ seen) as Hnin.
      { intros Hin. by apply (sync_assigned _ _ _ Hs) in Hin. }
      pose proof (sync_fresh_lt seen ch0 Hnd Hall Hch Hnin) as Hlt.
      split; [lia|]. rewrite Hnext, Nat2Z.id.
      rewrite colorset_lookup_total by lia. by eexists.
    + intros ch0 Hch.
      destruct (assigncolor_sync seen o ch0 Hs Hch) as (o1 & -> & _). by eexists.
    + intros buf n pos Hbuf Hn.
      destruct (dumpline_sync cfg buf n pos o seen Hg Hn Hbuf Hs)
        as (o1 & -> & _). by eexists.
Qed.

Lemma palette_assignment_in_bounds_witness :
  let cfg := default_config in
  let line0 := replicate 256 0 in
  let s := state_of [file_of [x00; x41; xff; x41]] 0 INT_MAX in
  let o0 := initoutput cfg (fun _ => false) output_start in
  length colorset = 256%nat /\
  (exists (s' : state) (o' : output) (bs : list Z),
     dump cfg line0 s o0 = Some (s', o') /\ rendered cfg o0 bs o') /\
  (forall (bs : list Z) (o : output),
     rendered cfg o0 bs o ->
     (exists seen : list Z,
        NoDup seen /\ Forall isbyte seen /\ (length seen <= 256)%nat /\
        nextcolorfromset o = Z.of_nat (length seen) /\
        (forall b : Z, isbyte b ->
                       (palette o !!! Z.to_nat b <> 0 <-> b ∈ seen))) /\
     0 <= nextcolorfromset o <= 256 /\
     (forall ch : Z,
        isbyte ch -> palette o !!! Z.to_nat ch = 0 ->
        nextcolorfromset o < 256 /\
        is_Some (colorset !! Z.to_nat (nextcolorfromset o))) /\
     (forall ch : Z, isbyte ch -> is_Some (assigncolor ch o)) /\
     (forall (buf : list Z) (n pos : Z),
        Forall isbyte buf -> 0 <= n -> is_Some (dumpline cfg buf n pos o))).
Proof.
  intros cfg line0 s o0.
  apply (palette_assignment_in_bounds cfg (fun _ => false) line0 s).
  - vm_compute. discriminate.
  - vm_compute. split; discriminate.
  - reflexivity.
  - apply Forall_replicate. unfold isbyte. lia.
  - vm_compute. discriminate.
Defined.

(** A run that shows all 256 byte values, 255 to the line, colors them
    all: the last assignment reads the last entry of [colorset], and
    [nextcolorfromset] ends at 256. *)
Example all_byte_values_colored :
  let cfg := parsecommandline_finish false 255 2 true true true in
  let s := state_of [file_of (map (fun b => default x00 (Byte.of_N (Z.to_N b)))
                                 all_bytes)] 0 INT_MAX in
  option_map (fun r => nextcolorfromset (snd r))
    (dump cfg (replicate 256 0) s
       (initoutput cfg (fun _ => false) output_start)) = Some 256.
Proof. vm_compute. reflexivity. Qed.

(** ** Runs of zero lines *)

Lemma chunks_app_full (L : Z) (x ys : list Z) :
  1 <= L -> length x = Z.to_nat L -> chunks L (x ++ ys) = x :: chunks L ys.
Proof.
  intros HL Hx. rewrite chunks_step; [|done|].
  - by rewrite take_app_length', drop_app_length' by done.
  - destruct x; [simpl in Hx; lia|done].
Qed.

Lemma chunks_short (L : Z) (c : list Z) :
  (1 <= length c <= Z.to_nat L)%nat -> chunks L c = [c].
Proof.
  intros Hc. rewrite chunks_step; [|lia|destruct c; [simpl in Hc; lia|done]].
  by rewrite take_ge, drop_ge by lia.
Qed.

Lemma length_zero_chunk (cfg : config) :
  length (zero_chunk cfg) = Z.to_nat (linesize cfg).
Proof. apply length_replicate. Qed.

Lemma chunks_zero_run (cfg : config) (K : nat) (ys : list Z) :
  1 <= linesize cfg ->
  chunks (linesize cfg) (replicate (K * Z.to_nat (linesize cfg)) 0 ++ ys)
  = replicate K (zero_chunk cfg) ++ chunks (linesize cfg) ys.
Proof.
  intros HL. induction K as [|K IH]; [done|].
  cbn [Nat.mul replicate app]. rewrite replicate_add, <- app_assoc.
  rewrite chunks_app_full by (done || apply length_replicate).
  by rewrite IH.
Qed.

Lemma all_zero_replicate (n : nat) : forallb (Z.eqb 0) (replicate n 0) = true.
Proof. induction n as [|n IH]; [done|]. simpl. exact IH. Qed.

Lemma all_zero_chunk (cfg : config) : forallb (Z.eqb 0) (zero_chunk cfg) = true.
Proof. apply all_zero_replicate. Qed.

Lemma autoskip_rounds_zero_run (cfg : config) (K : nat) :
  forall (h : held) (o : output) (cs : list (list Z)),
  0 <= linesheld h -> (Z.to_nat (linesize cfg) <= length (line h))%nat ->
  autoskip_rounds cfg (replicate (S K) (zero_chunk cfg) ++ cs) h o
  = autoskip_rounds cfg cs
      {| line := zero_chunk cfg ++ drop (Z.to_nat (linesize cfg)) (line h);
         linesheld := linesheld h + Z.of_nat (S K);
         lastheldsize := Z.of_nat (Z.to_nat (linesize cfg));
         holdpos := if linesheld h =? 0 then pos h else holdpos h;
         pos := pos h + Z.of_nat (S K) * Z.of_nat (Z.to_nat (linesize cfg)) |}
      o.
Proof.
  induction K as [|K IH]; intros h o cs Hh Hlen.
  - cbn [replicate app autoskip_rounds]. unfold autoskip_round.
    rewrite all_zero_chunk, length_zero_chunk.
    do 2 f_equal; lia.
  - change (replicate (S (S K)) (zero_chunk cfg) ++ cs)
      with (zero_chunk cfg :: (replicate (S K) (zero_chunk cfg) ++ cs)).
    cbn [autoskip_rounds]. unfold autoskip_round at 1.
    rewrite all_zero_chunk, length_zero_chunk.
    rewrite IH; cbn [line linesheld lastheldsize holdpos pos].
    + rewrite drop_app_length' by (by rewrite length_zero_chunk).
      assert ((linesheld h + 1 =? 0) = false) as -> by lia.
      do 2 f_equal; lia.
    + lia.
    + rewrite length_app, length_zero_chunk. lia.
Qed.

Lemma dumpzerolines_loop_dumplines (cfg : config) (k : nat) :
  0 <= linesize cfg <= 256 ->
  forall (i pos : Z) (o : output),
  dumpzerolines_loop cfg k i pos o
  = dumplines cfg (replicate k (zero_chunk cfg)) (pos + i * linesize cfg) o.
Proof.
  intros HL. induction k as [|k IH]; intros i pos o; [done|].
  cbn [dumpzerolines_loop replicate dumplines].
  rewrite length_zero_chunk, Z2Nat.id by lia.
  rewrite (dumpline_ext cfg zeroline (zero_chunk cfg))
    by (apply same_bytes_replicate; lia).
  destruct (dumpline cfg (zero_chunk cfg) _ _ o) as [o1|]; [|done].
  rewrite IH. f_equal. lia.
Qed.

(** [dumpzerolines]: more than two lines collapse into one line and the
    marker; otherwise every line is written at its position. *)
Lemma dumpzerolines_spec (cfg : config) (count pos : Z) (o : output) :
  0 <= linesize cfg <= 256 ->
  dumpzerolines cfg count pos o
  = if count >? 2
    then option_map (emit marker)
           (dumpline cfg (zero_chunk cfg) (linesize cfg) pos o)
    else dumplines cfg (replicate (Z.to_nat count) (zero_chunk cfg)) pos o.
Proof.
  intros HL. unfold dumpzerolines. destruct (count >? 2).
  - rewrite (dumpline_ext cfg zeroline (zero_chunk cfg))
      by (apply same_bytes_replicate; lia).
    by destruct (dumpline cfg (zero_chunk cfg) _ _ o).
  - rewrite dumpzerolines_loop_dumplines by done. f_equal. lia.
Qed.

Lemma held_count_of_run (r : option (held * state * output)) :
  option_map (fun r => (linesheld (fst (fst r)), snd r)) r
  = option_map (fun x => (linesheld (fst x), snd x))
      (option_map (fun r => (fst (fst r), snd r)) r).
Proof. by destruct r. Qed.

Lemma all_zero_false (c : list Z) :
  (exists b : Z, b ∈ c /\ b <> 0) -> forallb (Z.eqb 0) c = false.
Proof.
  intros (b & Hin & Hne). apply not_true_is_false. intros H.
  rewrite forallb_forall in H. apply list_elem_of_In in Hin.
  specialize (H b Hin). lia.
Qed.

Lemma count_collapses (K : nat) : (Z.of_nat K >? 2) = (2 <? K)%nat.
Proof.
  destruct (Nat.ltb_spec 2 K), (Z.gtb_spec (Z.of_nat K) 2); lia || done.
Qed.

(** From the idle state, a run of K >= 1 full lines of zeros ended by a
    chunk with a non-zero byte: the flush, the chunk, and the idle state
    again for the chunks that follow. *)
Lemma autoskip_rounds_interrupted (cfg : config) (K : nat) (c : list Z)
    (cs : list (list Z)) (h : held) (o : output) :
  1 <= linesize cfg <= 255 -> linesheld h = 0 -> length (line h) = 256%nat ->
  (1 <= K)%nat -> (exists b : Z, b ∈ c /\ b <> 0) ->
  autoskip_rounds cfg (replicate K (zero_chunk cfg) ++ c :: cs) h o
  = match (if (K <=? 2)%nat
           then dumplines cfg (replicate K (zero_chunk cfg)) (pos h) o
           else option_map (emit marker)
                  (dumpline cfg (zero_chunk cfg) (linesize cfg) (pos h) o)) with
    | Some o1 =>
        match dumpline cfg c (Z.of_nat (length c))
                (pos h + Z.of_nat K * linesize cfg) o1 with
        | Some o2 =>
            autoskip_rounds cfg cs
              {| line := c ++ drop (length c)
                                (zero_chunk cfg
                                 ++ drop (Z.to_nat (linesize cfg)) (line h));
                 linesheld := 0;
                 lastheldsize := linesize cfg;
                 holdpos := pos h;
                 pos := pos h + Z.of_nat K * linesize cfg
                        + Z.of_nat (length c) |} o2
        | None => None
        end
    | None => None
    end.
Proof.
  intros HL Hidle Hlen HK Hnz.
  destruct K as [|K]; [lia|].
  rewrite autoskip_rounds_zero_run by lia.
  cbn [autoskip_rounds]. unfold autoskip_round.
  rewrite (all_zero_false c Hnz).
  cbn [line linesheld lastheldsize holdpos pos].
  rewrite Hidle, Z.add_0_l. cbn [Z.eqb].
  assert ((Z.of_nat (S K) =? 0) = false) as -> by (apply Z.eqb_neq; lia).
  cbn [negb].
  rewrite dumpzerolines_spec, count_collapses, Nat2Z.id, Z2Nat.id by lia.
  rewrite Nat.ltb_antisym.
  destruct (S K <=? 2)%nat; cbn [negb];
    match goal with
    | |- match match ?x with Some _ => _ | None => _ end with _ => _ end = _ =>
        destruct x as [o1|]; [|done]
    end;
    by destruct (dumpline cfg c _ _ o1).
Qed.

(** From the idle state, a run of K full lines of zeros and a last chunk
    of [last] zeros that the end of the stream leaves held. *)
Lemma autoskip_lines_at_end (cfg : config) (K : nat) (last : Z) (h : held)
    (o : output) :
  1 <= linesize cfg <= 255 -> linesheld h = 0 -> length (line h) = 256%nat ->
  1 <= last <= linesize cfg ->
  autoskip_lines cfg
    (replicate K (zero_chunk cfg) ++ [replicate (Z.to_nat last) 0]) h o
  = match (if (2 <? K)%nat
           then option_map (emit marker)
                  (dumpline cfg (zero_chunk cfg) (linesize cfg) (pos h) o)
           else dumplines cfg (replicate K (zero_chunk cfg)) (pos h) o) with
    | Some o1 =>
        match dumpline cfg (replicate (Z.to_nat last) 0) last
                (pos h + Z.of_nat K * linesize cfg) o1 with
        | Some o2 =>
            Some ({| line := replicate (Z.to_nat last) 0
                             ++ drop (Z.to_nat last)
                                  (if (0 <? K)%nat
                                   then zero_chunk cfg
                                        ++ drop (Z.to_nat (linesize cfg))
                                             (line h)
                                   else line h);
                     linesheld := Z.of_nat K + 1;
                     lastheldsize := last;
                     holdpos := pos h;
                     pos := pos h + Z.of_nat K * linesize cfg + last |}, o2)
        | None => None
        end
    | None => None
    end.
Proof.
  intros HL Hidle Hlen Hlast.
  set (c := replicate (Z.to_nat last) 0).
  assert (length c = Z.to_nat last) as Hlc by apply length_replicate.
  assert (forallb (Z.eqb 0) c = true) as Hz by apply all_zero_replicate.
  unfold autoskip_lines.
  destruct K as [|K].
  - cbn [replicate app autoskip_rounds]. unfold autoskip_round. rewrite Hz.
    unfold autoskip_finish.
    cbn [line linesheld lastheldsize holdpos pos].
    rewrite Hidle. change (0 + 1 =? 0) with false. change (0 =? 0) with true.
    change (2 <? 0)%nat with false. change (0 <? 0)%nat with false.
    cbn [negb dumplines].
    replace (dumpzerolines cfg (0 + 1 - 1) (pos h) o) with (Some o)
      by (by rewrite dumpzerolines_spec by lia).
    rewrite Hlc, Z2Nat.id by lia.
    rewrite (dumpline_ext cfg _ c)
      by (apply same_bytes_prefix; [exact []|lia]).
    replace (pos h + last - last) with (pos h) by lia.
    replace (pos h + Z.of_nat 0 * linesize cfg) with (pos h) by lia.
    by destruct (dumpline cfg c last (pos h) o).
  - rewrite autoskip_rounds_zero_run by lia.
    cbn [autoskip_rounds]. unfold autoskip_round. rewrite Hz.
    cbn [line linesheld lastheldsize holdpos pos].
    rewrite Hidle, Z.add_0_l. cbn [Z.eqb].
    assert ((Z.of_nat (S K) =? 0) = false) as -> by (apply Z.eqb_neq; lia).
    unfold autoskip_finish.
    cbn [line linesheld lastheldsize holdpos pos].
    assert ((Z.of_nat (S K) + 1 =? 0) = false) as -> by (apply Z.eqb_neq; lia).
    cbn [negb].
    replace (Z.of_nat (S K) + 1 - 1) with (Z.of_nat (S K)) by lia.
    rewrite dumpzerolines_spec, count_collapses, Nat2Z.id by lia.
    rewrite Hlc. change (0 <? S K)%nat with true. cbv iota.
    destruct (if (2 <? S K)%nat
              then option_map (emit marker)
                     (dumpline cfg (zero_chunk cfg) (linesize cfg) (pos h) o)
              else dumplines cfg (replicate (S K) (zero_chunk cfg)) (pos h) o)
      as [o1|]; [|done].
    rewrite (dumpline_ext cfg _ c)
      by (apply same_bytes_prefix; [exact []|lia]).
    rewrite !Z2Nat.id by lia.
    replace (pos h + Z.of_nat (S K) * linesize cfg + last - last)
      with (pos h + Z.of_nat (S K) * linesize cfg) by lia.
    by destruct (dumpline cfg c last _ o1).
Qed.

(** The rounds of a list of chunks split at any point. *)
Lemma autoskip_rounds_app (cfg : config) (cs1 cs2 : list (list Z)) (h : held)
    (o : output) :
  autoskip_rounds cfg (cs1 ++ cs2) h o
  = match autoskip_rounds cfg cs1 h o with
    | Some (h1, o1) => autoskip_rounds cfg cs2 h1 o1
    | None => None
    end.
Proof.
  revert h o. induction cs1 as [|c cs1 IH]; intros h o; [done|].
  cbn [app autoskip_rounds].
  destruct (autoskip_round cfg h c o) as [[h1 o1]|]; [apply IH|done].
Qed.

(** C1: with autoskip on, for a stream of K >= 1 full lines of zero bytes
    followed by a chunk [c] holding a non-zero byte, the coordinator
    writes, if K <= 2, each of the K held lines as a full line of zeros at
    its own position, and if K > 2, one full line of zeros at the start of
    the run followed by the marker line; then it writes [c] at position
    p + K * linesize; and the count of held lines is 0 afterwards.  The
    same holds of such a run met anywhere in a stream: from any idle state
    of the loop the rounds for the run and for [c] write the same lines and
    pass on to the chunks that follow with no line held. *)
Theorem autoskip_interrupted_run (cfg : config) (line0 : list Z) (s : state)
    (p : Z) (o : output) (K : nat) (c : list Z) :
  1 <= linesize cfg <= 255 -> length line0 = 256%nat ->
  (1 <= K)%nat -> (1 <= length c <= Z.to_nat (linesize cfg))%nat ->
  (exists b : Z, b ∈ c /\ b <> 0) ->
  take (Z.to_nat (maxinputlen s)) (pending s)
  = replicate (K * Z.to_nat (linesize cfg)) 0 ++ c ->
  option_map (fun r => (linesheld (fst (fst r)), snd r))
    (dumpfileswithautoskip cfg line0 s p o)
  = option_map (fun o' => (0, o'))
      match (if (K <=? 2)%nat
             then dumplines cfg (replicate K (zero_chunk cfg)) p o
             else option_map (emit marker)
                    (dumpline cfg (zero_chunk cfg) (linesize cfg) p o)) with
      | Some o1 =>
          dumpline cfg c (Z.of_nat (length c))
            (p + Z.of_nat K * linesize cfg) o1
      | None => None
      end /\
  (forall (h : held) (o : output) (cs : list (list Z)),
     linesheld h = 0 -> length (line h) = 256%nat ->
     autoskip_rounds cfg (replicate K (zero_chunk cfg) ++ c :: cs) h o
     = match (if (K <=? 2)%nat
              then dumplines cfg (replicate K (zero_chunk cfg)) (pos h) o
              else option_map (emit marker)
                     (dumpline cfg (zero_chunk cfg) (linesize cfg) (pos h) o))
       with
       | Some o1 =>
           match dumpline cfg c (Z.of_nat (length c))
                   (pos h + Z.of_nat K * linesize cfg) o1 with
           | Some o2 =>
               autoskip_rounds cfg cs
                 {| line := c ++ drop (length c)
                                   (zero_chunk cfg
                                    ++ drop (Z.to_nat (linesize cfg)) (line h));
                    linesheld := 0;
                    lastheldsize := linesize cfg;
                    holdpos := pos h;
                    pos := pos h + Z.of_nat K * linesize cfg
                           + Z.of_nat (length c) |} o2
           | None => None
           end
       | None => None
       end).
Proof.
  intros HL Hlen HK Hc Hnz Hstream. split.
  - rewrite held_count_of_run.
    rewrite dumpfileswithautoskip_spec by (done || lia).
    rewrite Hstream, chunks_zero_run, chunks_short by (done || lia).
    unfold autoskip_lines.
    rewrite autoskip_rounds_interrupted by done.
    cbn [autoskip_start pos autoskip_rounds].
    destruct (if (K <=? 2)%nat
              then dumplines cfg (replicate K (zero_chunk cfg)) p o
              else option_map (emit marker)
                     (dumpline cfg (zero_chunk cfg) (linesize cfg) p o))
      as [o1|]; [|done].
    by destruct (dumpline cfg c _ _ o1).
  - intros h o' cs Hidle Hlh. by apply autoskip_rounds_interrupted.
Qed.

Lemma autoskip_interrupted_run_witness :
  let cfg := plain_autoskip_config in
  let line0 := replicate 256 170 in
  let s := state_of [file_of (replicate 80 x00 ++ [x41])] 0 INT_MAX in
  let K := 5%nat in
  let c := [65] in
  option_map (fun r => (linesheld (fst (fst r)), snd r))
    (dumpfileswithautoskip cfg line0 s 0 output_start)
  = option_map (fun o' => (0, o'))
      match (if (K <=? 2)%nat
             then dumplines cfg (replicate K (zero_chunk cfg)) 0 output_start
             else option_map (emit marker)
                    (dumpline cfg (zero_chunk cfg) (linesize cfg) 0
                       output_start)) with
      | Some o1 =>
          dumpline cfg c (Z.of_nat (length c))
            (0 + Z.of_nat K * linesize cfg) o1
      | None => None
      end /\
  (forall (h : held) (o : output) (cs : list (list Z)),
     linesheld h = 0 -> length (line h) = 256%nat ->
     autoskip_rounds cfg (replicate K (zero_chunk cfg) ++ c :: cs) h o
     = match (if (K <=? 2)%nat
              then dumplines cfg (replicate K (zero_chunk cfg)) (pos h) o
              else option_map (emit marker)
                     (dumpline cfg (zero_chunk cfg) (linesize cfg) (pos h) o))
       with
       | Some o1 =>
           match dumpline cfg c (Z.of_nat (length c))
                   (pos h + Z.of_nat K * linesize cfg) o1 with
           | Some o2 =>
               autoskip_rounds cfg cs
                 {| line := c ++ drop (length c)
                                   (zero_chunk cfg
                                    ++ drop (Z.to_nat (linesize cfg)) (line h));
                    linesheld := 0;
                    lastheldsize := linesize cfg;
                    holdpos := pos h;
                    pos := pos h + Z.of_nat K * linesize cfg
                           + Z.of_nat (length c) |} o2
           | None => None
           end
       | None => None
       end).
Proof.
  intros cfg line0 s K c.
  apply (autoskip_interrupted_run cfg line0 s 0 output_start K c).
  - vm_compute. split; discriminate.
  - reflexivity.
  - unfold K. lia.
  - simpl. lia.
  - exists 65. split; [by left|discriminate].
  - reflexivity.
Defined.

(** The example of the specification: five lines of zeros and one
    non-zero byte give one line of zeros at position 0, the marker, and
    the line of one byte at position 80. *)
Example autoskip_five_lines_then_byte :
  option_map (fun r => stdout (snd r))
    (dump plain_autoskip_config (replicate 256 170)
       (state_of [file_of (replicate 80 x00 ++ [x41])] 0 INT_MAX) output_start)
  = Some (chars
      (str "00000000: 0000 0000 0000 0000 0000 0000 0000 0000  ................"
       ++ [NL] ++ str "*" ++ [NL]
       ++ str "00000050: 41                                       A" ++ [NL])).
Proof. vm_compute. reflexivity. Qed.

(** Two held lines are written out one by one. *)
Example autoskip_two_lines_then_byte :
  option_map (fun r => stdout (snd r))
    (dump plain_autoskip_config (replicate 256 170)
       (state_of [file_of (replicate 32 x00 ++ [x41])] 0 INT_MAX) output_start)
  = Some (chars
      (str "00000000: 0000 0000 0000 0000 0000 0000 0000 0000  ................"
       ++ [NL]
       ++ str "00000010: 0000 0000 0000 0000 0000 0000 0000 0000  ................"
       ++ [NL]
       ++ str "00000020: 41                                       A" ++ [NL])).
Proof. vm_compute. reflexivity. Qed.

(** A run in the middle of a stream: data, four lines of zeros, data. *)
Example autoskip_run_inside_stream :
  option_map (fun r => stdout (snd r))
    (dump plain_autoskip_config (replicate 256 170)
       (state_of [file_of ([x41] ++ replicate 15 x00 ++ replicate 64 x00
                           ++ [x42; x43])] 0 INT_MAX) output_start)
  = Some (chars
      (str "00000000: 4100 0000 0000 0000 0000 0000 0000 0000  A..............."
       ++ [NL]
       ++ str "00000010: 0000 0000 0000 0000 0000 0000 0000 0000  ................"
       ++ [NL] ++ str "*" ++ [NL]
       ++ str "00000050: 4243                                     BC" ++ [NL])).
Proof. vm_compute. reflexivity. Qed.

(** C2: with autoskip on, when the stream ends while H = K + 1 chunks of
    zero bytes are held -- K full lines and a last chunk of [last] bytes,
    1 <= last <= linesize -- the coordinator first writes H - 1 = K held
    lines under the collapse rule (one full line of zeros at the start of
    the run and the marker if K > 2, K full lines of zeros otherwise), then
    the last held chunk with its true count of [last] bytes at its true
    position p + K * linesize.  The same holds of such a run at the end of
    any stream: from any idle state of the loop, the rounds for the run and
    the statements after the loop write these lines.  In particular a
    stream of 16 * 3 + 4 zero bytes with 16 bytes per line gives one line
    of zeros, the marker, and a line of 4 zero bytes at position 48. *)
Theorem autoskip_run_at_end (cfg : config) (line0 : list Z) (s : state)
    (p : Z) (o : output) (K : nat) (last : Z) :
  1 <= linesize cfg <= 255 -> length line0 = 256%nat ->
  1 <= last <= linesize cfg ->
  take (Z.to_nat (maxinputlen s)) (pending s)
  = replicate (K * Z.to_nat (linesize cfg) + Z.to_nat last) 0 ->
  option_map (fun r => (linesheld (fst (fst r)), snd r))
    (dumpfileswithautoskip cfg line0 s p o)
  = option_map (fun o' => (Z.of_nat K + 1, o'))
      match (if (2 <? K)%nat
             then option_map (emit marker)
                    (dumpline cfg (zero_chunk cfg) (linesize cfg) p o)
             else dumplines cfg (replicate K (zero_chunk cfg)) p o) with
      | Some o1 =>
          dumpline cfg (replicate (Z.to_nat last) 0) last
            (p + Z.of_nat K * linesize cfg) o1
      | None => None
      end /\
  (forall (h : held) (o : output),
     linesheld h = 0 -> length (line h) = 256%nat ->
     option_map (fun r => (linesheld (fst r), snd r))
       (autoskip_lines cfg
          (replicate K (zero_chunk cfg) ++ [replicate (Z.to_nat last) 0]) h o)
     = option_map (fun o' => (Z.of_nat K + 1, o'))
         match (if (2 <? K)%nat
                then option_map (emit marker)
                       (dumpline cfg (zero_chunk cfg) (linesize cfg) (pos h) o)
                else dumplines cfg (replicate K (zero_chunk cfg)) (pos h) o)
         with
         | Some o1 =>
             dumpline cfg (replicate (Z.to_nat last) 0) last
               (pos h + Z.of_nat K * linesize cfg) o1
         | None => None
         end) /\
  option_map (fun r => stdout (snd r))
    (dump plain_autoskip_config (replicate 256 170)
       (state_of [file_of (replicate (16 * 3 + 4) x00)] 0 INT_MAX)
       output_start)
  = Some (chars
      (str "00000000: 0000 0000 0000 0000 0000 0000 0000 0000  ................"
       ++ [NL] ++ str "*" ++ [NL]
       ++ str "00000030: 0000 0000                                ...."
       ++ [NL])).
Proof.
  intros HL Hlen Hlast Hstream.
  assert (forall (h : held) (o : output),
     linesheld h = 0 -> length (line h) = 256%nat ->
     option_map (fun r => (linesheld (fst r), snd r))
       (autoskip_lines cfg
          (replicate K (zero_chunk cfg) ++ [replicate (Z.to_nat last) 0]) h o)
     = option_map (fun o' => (Z.of_nat K + 1, o'))
         match (if (2 <? K)%nat
                then option_map (emit marker)
                       (dumpline cfg (zero_chunk cfg) (linesize cfg) (pos h) o)
                else dumplines cfg (replicate K (zero_chunk cfg)) (pos h) o)
         with
         | Some o1 =>
             dumpline cfg (replicate (Z.to_nat last) 0) last
               (pos h + Z.of_nat K * linesize cfg) o1
         | None => None
         end) as Hidle.
  { intros h o' Hi Hlh. rewrite autoskip_lines_at_end by done.
    destruct (if (2 <? K)%nat
              then option_map (emit marker)
                     (dumpline cfg (zero_chunk cfg) (linesize cfg) (pos h) o')
              else dumplines cfg (replicate K (zero_chunk cfg)) (pos h) o')
      as [o1|]; [|done].
    by destruct (dumpline cfg _ last _ o1). }
  split; [|split; [exact Hidle|vm_compute; reflexivity]].
  rewrite held_count_of_run.
  rewrite dumpfileswithautoskip_spec by (done || lia).
  rewrite Hstream, replicate_add, chunks_zero_run by lia.
  rewrite chunks_short by (rewrite length_replicate; lia).
  by apply Hidle.
Qed.

Lemma autoskip_run_at_end_witness :
  let cfg := plain_autoskip_config in
  let line0 := replicate 256 170 in
  let s := state_of [file_of (replicate (16 * 3 + 4) x00)] 0 INT_MAX in
  let K := 3%nat in
  let last := 4 in
  option_map (fun r => (linesheld (fst (fst r)), snd r))
    (dumpfileswithautoskip cfg line0 s 0 output_start)
  = option_map (fun o' => (Z.of_nat K + 1, o'))
      match (if (2 <? K)%nat
             then option_map (emit marker)
                    (dumpline cfg (zero_chunk cfg) (linesize cfg) 0
                       output_start)
             else dumplines cfg (replicate K (zero_chunk cfg)) 0 output_start)
      with
      | Some o1 =>
          dumpline cfg (replicate (Z.to_nat last) 0) last
            (0 + Z.of_nat K * linesize cfg) o1
      | None => None
      end /\
  (forall (h : held) (o : output),
     linesheld h = 0 -> length (line h) = 256%nat ->
     option_map (fun r => (linesheld (fst r), snd r))
       (autoskip_lines cfg
          (replicate K (zero_chunk cfg) ++ [replicate (Z.to_nat last) 0]) h o)
     = option_map (fun o' => (Z.of_nat K + 1, o'))
         match (if (2 <? K)%nat
                then option_map (emit marker)
                       (dumpline cfg (zero_chunk cfg) (linesize cfg) (pos h) o)
                else dumplines cfg (replicate K (zero_chunk cfg)) (pos h) o)
         with
         | Some o1 =>
             dumpline cfg (replicate (Z.to_nat last) 0) last
               (pos h + Z.of_nat K * linesize cfg) o1
         | None => None
         end) /\
  option_map (fun r => stdout (snd r))
    (dump plain_autoskip_config (replicate 256 170)
       (state_of [file_of (replicate (16 * 3 + 4) x00)] 0 INT_MAX)
       output_start)
  = Some (chars
      (str "00000000: 0000 0000 0000 0000 0000 0000 0000 0000  ................"
       ++ [NL] ++ str "*" ++ [NL]
       ++ str "00000030: 0000 0000                                ...."
       ++ [NL])).
Proof.
  intros cfg line0 s K last.
  apply (autoskip_run_at_end cfg line0 s 0 output_start K last).
  - vm_compute. split; discriminate.
  - reflexivity.
  - vm_compute. split; discriminate.
  - reflexivity.
Defined.

(** The boundary cases of the end-of-stream rule, with one and three
    chunks held: the last chunk is always written on its own. *)
Example autoskip_end_one_held :
  option_map (fun r => stdout (snd r))
    (dump plain_autoskip_config (replicate 256 170)
       (state_of [file_of (replicate 4 x00)] 0 INT_MAX) output_start)
  = Some (chars
      (str "00000000: 0000 0000                                ...."
       ++ [NL])).
Proof. vm_compute. reflexivity. Qed.

Example autoskip_end_three_held :
  option_map (fun r => stdout (snd r))
    (dump plain_autoskip_config (replicate 256 170)
       (state_of [file_of (replicate 36 x00)] 0 INT_MAX) output_start)
  = Some (chars
      (str "00000000: 0000 0000 0000 0000 0000 0000 0000 0000  ................"
       ++ [NL]
       ++ str "00000010: 0000 0000 0000 0000 0000 0000 0000 0000  ................"
       ++ [NL]
       ++ str "00000020: 0000 0000                                ...."
       ++ [NL])).
Proof. vm_compute. reflexivity. Qed.

(** * Further properties of the code *)

(** ** The byte source *)

Lemma state_eta (s : state) :
  set_files (filenames s) (currentfile s) s = s.
Proof. by destruct s. Qed.

Lemma nextbytes_stream (k : nat) :
  forall s : state,
  nextbytes k s
  = take k (pending s) ++ replicate (k - length (pending s)) EOF.
Proof.
  induction k as [|k IH]; intros s; [done|].
  cbn [nextbytes].
  destruct (nextbyte_cases s)
    as [(Hp & s' & -> & _ & Hp')|(b & rest & s' & Hp & _ & -> & _ & Hp')].
  - rewrite IH, Hp, Hp'. cbn [length take app]. rewrite !Nat.sub_0_r.
    by rewrite take_nil.
  - rewrite IH, Hp, Hp'. reflexivity.
Qed.

(** X1: successive calls of [nextbyte] return the bytes of the inputs that
    open, file after file in the order of the command line, with nothing
    for an input that does not open or is empty, and then EOF for ever. *)
Theorem nextbyte_reads_inputs_in_order (fs : list input) (start len : Z)
    (k : nat) :
  let stream := concat (map (fun f => map byteval (contents f)) fs) in
  nextbytes k (state_of fs start len)
  = take k stream ++ replicate (k - length stream) EOF.
Proof.
  cbn zeta. rewrite nextbytes_stream, pending_state_of.
  replace (map file_bytes fs)
    with (map (fun f => map byteval (contents f)) fs); [done|].
  apply map_ext. intros f. by rewrite file_bytes_contents.
Qed.

Lemma inputinit_closed_false (fs : list input) (s : state) :
  fst (inputinit_closed fs s) = false <-> Forall unopenable fs.
Proof.
  revert s. induction fs as [|f fs IH]; intros s.
  - cbn. split; [constructor|done].
  - cbn [inputinit_closed]. destruct (in_stdin f || in_opens f) eqn:Hop.
    + cbn. split; [done|]. intros H. apply Forall_cons_1 in H as [H _].
      unfold unopenable in H. congruence.
    + rewrite IH. split; [by constructor|]. intros H.
      by apply Forall_cons_1 in H as [_ H].
Qed.

(** X2: [inputinit] reports that no input is left exactly when no file is
    open and none of the remaining names opens; it leaves an open file as
    it is, and calling it again changes nothing. *)
Theorem inputinit_idempotent (s : state) :
  (fst (inputinit s) = false <->
   currentfile s = None /\ Forall unopenable (filenames s)) /\
  (is_Some (currentfile s) -> inputinit s = (true, s)) /\
  inputinit (snd (inputinit s)) = inputinit s.
Proof.
  split; [|split].
  - unfold inputinit. destruct (currentfile s) as [cur|] eqn:Hc.
    + cbn. split; [done|]. by intros [? _].
    + rewrite inputinit_closed_false. split; [done|]. by intros [_ ?].
  - intros [cur Hc]. unfold inputinit. by rewrite Hc.
  - pose proof (inputinit_measure s) as [_ Hok].
    unfold inputinit at 2 3.
    destruct (currentfile s) as [cur|] eqn:Hc.
    + cbn [snd]. unfold inputinit. by rewrite Hc.
    + pose proof (inputinit_closed_spec (filenames s) s) as (_ & _ & _ & Hr).
      unfold inputinit in Hok. rewrite Hc in Hok.
      destruct (inputinit_closed (filenames s) s) as [ok s1].
      cbn [fst snd] in *. destruct ok.
      * destruct Hr as [[cur Hc1] _]. unfold inputinit. by rewrite Hc1.
      * destruct Hr as [Hf1 Hc1]. unfold inputinit. rewrite Hc1, Hf1. cbn.
        f_equal. rewrite <- Hf1, <- Hc1. apply state_eta.
Qed.

Lemma inputinit_idempotent_witness :
  let s := state_of [file_of []; file_of [x41]] 0 INT_MAX in
  (fst (inputinit s) = false <->
   currentfile s = None /\ Forall unopenable (filenames s)) /\
  (is_Some (currentfile s) -> inputinit s = (true, s)) /\
  inputinit (snd (inputinit s)) = inputinit s.
Proof. intros s. apply (inputinit_idempotent s). Defined.

Lemma nextbyte_loop_EOF_state (fuel : nat) :
  forall s : state,
  (length (filenames s)
   + match currentfile s with Some _ => 1 | None => 0 end < fuel)%nat ->
  fst (nextbyte_loop fuel s) = EOF ->
  filenames (snd (nextbyte_loop fuel s)) = [] /\
  currentfile (snd (nextbyte_loop fuel s)) = None.
Proof.
  induction fuel as [|fuel IH]; intros s Hf; [lia|].
  rewrite nextbyte_loop_S.
  pose proof (inputinit_measure s) as Hi. cbn zeta in Hi.
  destruct (inputinit s) as [ok s1] eqn:Hin. cbn [fst snd] in *.
  destruct Hi as [Hl Hok]. destruct ok; cbn [negb].
  - destruct (Hok eq_refl) as [[cur Hc1] Hne].
    unfold fgetc. rewrite Hc1. destruct cur as [|b rest].
    + simpl (negb (EOF =? EOF)). cbv iota.
      destruct (inputupdate_spec s1) as (_ & Hfu & Hcu).
      apply IH. rewrite Hfu, Hcu.
      destruct (currentfile s);
        [destruct (filenames s1); cbn [tail length] in *; lia
        |specialize (Hne eq_refl);
         destruct (filenames s1); [done|cbn [tail length] in *; lia]].
    + rewrite byteval_not_EOF. cbn [negb fst]. intros E.
      pose proof (byteval_range b). unfold EOF in E. lia.
  - intros _. cbn [snd].
    pose proof (inputinit_measure s) as _.
    unfold inputinit in Hin. destruct (currentfile s); [congruence|].
    pose proof (inputinit_closed_spec (filenames s) s) as (_ & _ & _ & Hr).
    rewrite Hin in Hr. exact Hr.
Qed.

(** X3: the end of input is final: when [nextbyte] returns EOF, no file is
    open and no name is left, and every further call returns EOF and
    leaves the state as it is. *)
Theorem nextbyte_EOF_is_final (s : state) :
  fst (nextbyte s) = EOF ->
  filenames (snd (nextbyte s)) = [] /\
  currentfile (snd (nextbyte s)) = None /\
  nextbyte (snd (nextbyte s)) = (EOF, snd (nextbyte s)).
Proof.
  intros HE.
  destruct (nextbyte_loop_EOF_state (2 + length (filenames s)) s) as [Hf Hc];
    [destruct (currentfile s); lia|exact HE|].
  fold (nextbyte s) in Hf, Hc. split; [exact Hf|]. split; [exact Hc|].
  set (s' := snd (nextbyte s)) in *.
  unfold nextbyte. rewrite Hf. cbn [length Nat.add].
  rewrite nextbyte_loop_S. unfold inputinit. rewrite Hc, Hf. cbn.
  f_equal. rewrite <- Hf, <- Hc. apply state_eta.
Qed.

Lemma nextbyte_EOF_is_final_witness :
  let s := state_of [file_of []] 0 INT_MAX in
  filenames (snd (nextbyte s)) = [] /\
  currentfile (snd (nextbyte s)) = None /\
  nextbyte (snd (nextbyte s)) = (EOF, snd (nextbyte s)).
Proof. intros s. apply (nextbyte_EOF_is_final s). reflexivity. Defined.

Lemma exit_after_refl (a : Z) : exit_after a a.
Proof. by left. Qed.

Lemma exit_after_trans (a b c : Z) :
  exit_after a b -> exit_after b c -> exit_after a c.
Proof. unfold exit_after. intros [->| ->] [->| ->]; auto. Qed.

Lemma exit_after_failure (c : Z) : exit_after EXIT_FAILURE c -> c = EXIT_FAILURE.
Proof. by intros [->| ->]. Qed.

Lemma inputinit_closed_exit (fs : list input) (s : state) :
  exit_after (exitcode s) (exitcode (snd (inputinit_closed fs s))).
Proof.
  revert s. induction fs as [|f fs IH]; intros s; [by left|].
  cbn [inputinit_closed]. destruct (in_stdin f || in_opens f); [by left|].
  right. apply exit_after_failure. apply (IH (fail (set_files (f :: fs) None s))).
Qed.

Lemma inputinit_exit (s : state) :
  exit_after (exitcode s) (exitcode (snd (inputinit s))).
Proof.
  unfold inputinit. destruct (currentfile s); [by left|].
  apply inputinit_closed_exit.
Qed.

Lemma inputupdate_exit (s : state) :
  exit_after (exitcode s) (exitcode (inputupdate s)).
Proof.
  unfold inputupdate. destruct (filenames s) as [|f fs]; [by left|].
  destruct (in_ferror f); [by right|].
  destruct (negb (in_stdin f) && in_fclose_fails f); [by right|by left].
Qed.

Lemma fgetc_exit (s : state) : exitcode (snd (fgetc s)) = exitcode s.
Proof. unfold fgetc. by destruct (currentfile s) as [[|b rest]|]. Qed.

Lemma nextbyte_loop_exit (fuel : nat) (s : state) :
  exit_after (exitcode s) (exitcode (snd (nextbyte_loop fuel s))).
Proof.
  revert s. induction fuel as [|fuel IH]; intros s; [by left|].
  rewrite nextbyte_loop_S.
  pose proof (inputinit_exit s) as H1.
  destruct (inputinit s) as [ok s1]. cbn [snd] in H1.
  destruct ok; cbn [negb]; [|exact H1].
  pose proof (fgetc_exit s1) as H2. destruct (fgetc s1) as [c s2].
  cbn [snd] in H2. destruct (negb (c =? EOF)).
  - cbn [snd]. by rewrite H2.
  - eapply exit_after_trans; [exact H1|]. rewrite <- H2.
    eapply exit_after_trans; [apply inputupdate_exit|apply IH].
Qed.

(** X4: [nextbyte] never clears a failure: the exit code it leaves is the
    one it found or EXIT_FAILURE.  It leaves the exit code alone when every
    remaining input is clean; it sets EXIT_FAILURE when the next name does
    not open, and when the open file ends on a read error or fails to
    close -- and in each case goes on to the next input. *)
Theorem nextbyte_reports_failures (s : state) :
  exit_after (exitcode s) (exitcode (snd (nextbyte s))) /\
  (Forall clean (filenames s) -> exitcode (snd (nextbyte s)) = exitcode s) /\
  (forall (f : input) (fs : list input),
     currentfile s = None -> filenames s = f :: fs -> unopenable f ->
     exitcode (snd (nextbyte s)) = EXIT_FAILURE) /\
  (forall (f : input) (fs : list input),
     currentfile s = Some [] -> filenames s = f :: fs ->
     in_ferror f = true \/ (in_stdin f = false /\ in_fclose_fails f = true) ->
     exitcode (snd (nextbyte s)) = EXIT_FAILURE /\
     fst (nextbyte s)
     = hd EOF (concat (map file_bytes fs))).
Proof.
  split; [apply nextbyte_loop_exit|]. split; [|split].
  - intros Hc. by apply nextbyte_loop_exitcode.
  - intros f fs Hc Hf Hun. rewrite nextbyte_unfold.
    pose proof (inputinit_exit s) as H1. unfold inputinit in *.
    rewrite Hc, Hf in *. cbn [inputinit_closed] in *.
    unfold unopenable in Hun. rewrite Hun in *.
    pose proof (inputinit_closed_exit fs (fail (set_files (f :: fs) None s)))
      as H0. apply exit_after_failure in H0.
    destruct (inputinit_closed fs _) as [ok s1]. cbn [snd] in *.
    destruct ok; cbn [negb]; [|exact H0].
    pose proof (fgetc_exit s1) as H2. destruct (fgetc s1) as [c s2].
    cbn [snd] in H2. destruct (negb (c =? EOF)); [cbn; congruence|].
    apply exit_after_failure. rewrite <- H0, <- H2.
    eapply exit_after_trans; [apply inputupdate_exit|apply nextbyte_loop_exit].
  - intros f fs Hc Hf Herr.
    pose proof (nextbyte_spec s) as [_ Hp]. rewrite nextbyte_unfold in *.
    unfold inputinit in *. rewrite Hc in *. unfold fgetc in *. rewrite Hc in *.
    simpl (negb (EOF =? EOF)) in *. cbv iota in *.
    split.
    + apply exit_after_failure.
      replace EXIT_FAILURE with (exitcode (inputupdate s)) at 1;
        [apply nextbyte_loop_exit|].
      unfold inputupdate. rewrite Hf.
      destruct Herr as [-> |[-> ->]]; [done|].
      by destruct (in_ferror f).
    + unfold pending in Hp. rewrite Hc, Hf in Hp. cbn [map app tail] in Hp.
      destruct (concat (map file_bytes fs)); by destruct Hp.
Qed.

Lemma nextbyte_reports_failures_witness :
  let bad := {| in_stdin := false; in_opens := false; in_data := [];
                in_ferror := false; in_fclose_fails := false |} in
  let broken := {| in_stdin := false; in_opens := true; in_data := [];
                   in_ferror := true; in_fclose_fails := false |} in
  let s := state_of [bad; file_of [x41]] 0 INT_MAX in
  let t := set_files [broken; file_of [x41]] (Some []) s in
  exitcode (snd (nextbyte s)) = EXIT_FAILURE /\
  (exitcode (snd (nextbyte t)) = EXIT_FAILURE /\
   fst (nextbyte t) = hd EOF (concat (map file_bytes [file_of [x41]]))).
Proof.
  intros bad broken s t. split.
  - destruct (nextbyte_reports_failures s) as (_ & _ & H & _).
    apply (H bad [file_of [x41]]); reflexivity.
  - destruct (nextbyte_reports_failures t) as (_ & _ & _ & H).
    apply (H broken [file_of [x41]]); [reflexivity|reflexivity|].
    left. reflexivity.
Defined.

(** An input that does not open is reported and stepped over: the byte
    comes from the next input, and the exit code is EXIT_FAILURE. *)
Example nextbyte_steps_over_unopenable :
  let bad := {| in_stdin := false; in_opens := false; in_data := [];
                in_ferror := false; in_fclose_fails := false |} in
  let r := nextbyte (state_of [bad; file_of [x41]] 0 INT_MAX) in
  fst r = 65 /\ exitcode (snd r) = EXIT_FAILURE.
Proof. vm_compute. split; reflexivity. Qed.

(** ** The exit code over a run of the drivers *)

Lemma exit_step_refl (s : state) : exit_step s s.
Proof. split; [by left|auto]. Qed.

Lemma exit_step_trans (s1 s2 s3 : state) :
  exit_step s1 s2 -> exit_step s2 s3 -> exit_step s1 s3.
Proof.
  intros [H1 H1'] [H2 H2']. split; [by eapply exit_after_trans|].
  intros Hc. destruct (H1' Hc) as [E1 Hc2]. destruct (H2' Hc2) as [E2 Hc3].
  split; [congruence|done].
Qed.

Lemma nextbyte_exit_step (s : state) : exit_step s (snd (nextbyte s)).
Proof.
  split; [apply nextbyte_loop_exit|]. intros Hc.
  by apply nextbyte_loop_exitcode.
Qed.

Lemma set_maxinputlen_exit_step (m : Z) (s : state) :
  exit_step s (set_maxinputlen m s).
Proof. split; [by left|auto]. Qed.

Lemma autoskip_fill_exit (k : nat) :
  forall (n ch nz : Z) (line : list Z) (s : state),
  exit_step s (snd (autoskip_fill k n ch nz line s)).
Proof.
  induction k as [|k IH]; intros n ch nz line s; [apply exit_step_refl|].
  cbn [autoskip_fill]. destruct (maxinputlen s >? 0); [|apply exit_step_refl].
  pose proof (nextbyte_exit_step s) as H1.
  destruct (nextbyte s) as [c s1]. cbn [snd] in H1.
  destruct (c =? EOF); [exact H1|].
  eapply exit_step_trans; [exact H1|].
  eapply exit_step_trans; [apply (set_maxinputlen_exit_step (maxinputlen s1 - 1))|].
  apply IH.
Qed.

Lemma dumpfiles_fill_exit (k : nat) (n ch : Z) (line : list Z) (s : state) :
  exit_step s (snd (dumpfiles_fill k n ch line s)).
Proof.
  rewrite (dumpfiles_fill_autoskip_fill k n ch 0 line s).
  pose proof (autoskip_fill_exit k n ch 0 line s) as H.
  by destruct (autoskip_fill k n ch 0 line s) as [[[[n' ch'] nz'] line'] s'].
Qed.

Lemma dumpfiles_loop_exit (cfg : config) (fuel : nat) :
  forall (line : list Z) (ch pos : Z) (s : state) (o : output)
         (s' : state) (o' : output),
  dumpfiles_loop cfg fuel line ch pos s o = Some (s', o') -> exit_step s s'.
Proof.
  induction fuel as [|fuel IH]; intros line ch pos s o s' o' H; [done|].
  cbn [dumpfiles_loop] in H.
  destruct (negb (ch =? EOF) && (maxinputlen s >? 0)); cycle 1.
  { injection H as <- <-. apply exit_step_refl. }
  pose proof (dumpfiles_fill_exit (Z.to_nat (linesize cfg)) 0 ch line s) as H1.
  destruct (dumpfiles_fill _ 0 ch line s) as [[[n ch1] line1] s1].
  cbn [snd] in H1. destruct (n =? 0).
  { injection H as <- <-. exact H1. }
  destruct (dumpline cfg line1 n pos o) as [o1|]; [|done].
  eapply exit_step_trans; [exact H1|]. eapply IH, H.
Qed.

Lemma autoskip_loop_exit (cfg : config) (fuel : nat) :
  forall (h : held) (ch : Z) (s : state) (o : output)
         (h' : held) (s' : state) (o' : output),
  autoskip_loop cfg fuel h ch s o = Some (h', s', o') -> exit_step s s'.
Proof.
  induction fuel as [|fuel IH]; intros h ch s o h' s' o' H; [done|].
  cbn [autoskip_loop] in H.
  destruct (negb (ch =? EOF) && (maxinputlen s >? 0)); cycle 1.
  { injection H as <- <- <-. apply exit_step_refl. }
  pose proof (autoskip_fill_exit (Z.to_nat (linesize cfg)) 0 ch 0 (line h) s)
    as H1.
  destruct (autoskip_fill _ 0 ch 0 (line h) s) as [[[[n ch1] nz] line1] s1].
  cbn [snd] in H1. destruct (n =? 0).
  { injection H as <- <- <-. exact H1. }
  destruct (negb (nz =? 0)).
  - destruct (if negb (linesheld h =? 0) then _ else _) as [o1|]; [|done].
    destruct (dumpline cfg line1 n (pos h) o1) as [o2|]; [|done].
    eapply exit_step_trans; [exact H1|]. eapply IH, H.
  - eapply exit_step_trans; [exact H1|]. eapply IH, H.
Qed.

Lemma dump_skip_exit (k : nat) :
  forall (p : Z) (s : state), exit_step s (snd (dump_skip k p s)).
Proof.
  induction k as [|k IH]; intros p s; [apply exit_step_refl|].
  cbn [dump_skip]. pose proof (nextbyte_exit_step s) as H1.
  destruct (nextbyte s) as [c s1]. cbn [snd] in H1.
  destruct (c =? EOF); [exact H1|].
  eapply exit_step_trans; [exact H1|apply IH].
Qed.

Lemma dump_exit (cfg : config) (line0 : list Z) (s : state) (o : output)
    (s' : state) (o' : output) :
  dump cfg line0 s o = Some (s', o') -> exit_step s s'.
Proof.
  unfold dump. intros H.
  pose proof (dump_skip_exit (Z.to_nat (startoffset s)) 0 s) as H1.
  destruct (dump_skip _ 0 s) as [[p|] s1]; cbn [snd] in H1.
  - eapply exit_step_trans; [exact H1|]. destruct (autoskip cfg).
    + unfold dumpfileswithautoskip in H.
      destruct (autoskip_loop cfg _ _ 0 s1 o) as [[[h1 s2] o1]|] eqn:Hl;
        [|done].
      destruct (autoskip_finish cfg h1 o1) as [o2|]; [|done].
      injection H as <- <-. eapply autoskip_loop_exit, Hl.
    + eapply dumpfiles_loop_exit, H.
  - injection H as <- <-. exact H1.
Qed.

(** ** The command line *)

Lemma getn_cases (LONG_MAX : Z) (a : numarg) (maxval : Z) :
  (getn LONG_MAX a maxval = die) \/
  (getn LONG_MAX a maxval = Returns (strtol_value a) /\
   arg_missing a = false /\ strtol_at_end a = true /\ strtol_moved a = true /\
   0 <= strtol_value a <= INT_MAX /\
   (maxval <> 0 -> strtol_value a <= maxval)).
Proof.
  unfold getn. destruct (arg_missing a); [by left|].
  destruct (strtol_at_end a); [|by left].
  destruct (strtol_moved a); [|by left]. cbn [negb orb].
  destruct ((strtol_value a =? LONG_MAX) && strtol_erange a); [by left|].
  cbn [orb].
  destruct (Z.ltb_spec (strtol_value a) 0); [by left|].
  destruct (Z.gtb_spec (strtol_value a) INT_MAX); [by left|]. cbn [orb].
  destruct (Z.eqb_spec maxval 0); cbn [negb andb].
  - right. repeat split; (done || lia).
  - destruct (Z.gtb_spec (strtol_value a) maxval); [by left|].
    right. repeat split; (done || lia).
Qed.

(** What the loop of [parsecommandline] keeps true of the settings and of
    the state. *)
Lemma parsecommandline_switch_inv (LONG_MAX : Z) (ch : Z) (a : numarg)
    (g : config) (s : state) (g' : config) (s' : state) :
  parsecommandline_switch LONG_MAX ch a g s = Returns (g', s') ->
  (0 <= linesize g <= 255 -> 0 <= linesize g' <= 255) /\
  (0 <= groupsize g <= INT_MAX -> 0 <= groupsize g' <= INT_MAX) /\
  (0 <= startoffset s <= INT_MAX -> 0 <= startoffset s' <= INT_MAX) /\
  (0 <= maxinputlen s <= INT_MAX -> 0 <= maxinputlen s' <= INT_MAX) /\
  filenames s' = filenames s /\ currentfile s' = currentfile s /\
  exitcode s' = exitcode s /\
  (hexoutput g = false -> hexoutput g' = false) /\
  (colorize g = false -> colorize g' = false) /\
  (ch = char_code "R" -> hexoutput g' = false) /\
  (ch = char_code "N" -> colorize g' = false).
Proof.
  unfold parsecommandline_switch. unfold char_code.
  repeat match goal with
  | |- context [ch =? ?c] => destruct (Z.eqb_spec ch c) as [->|?]
  end;
  try (destruct (getn_cases LONG_MAX a 0) as [->|(-> & _ & _ & _ & Hr & Hm)];
       [done|]);
  try (destruct (getn_cases LONG_MAX a 255) as [->|(-> & _ & _ & _ & Hr & Hm)];
       [done|]);
  cbn [bind]; intros H; try done; injection H as <- <-;
  cbn [linesize groupsize startoffset maxinputlen filenames currentfile
       exitcode hexoutput colorize set_maxinputlen];
  split_and!; try done; try (intros; lia); try (intros; done).
Qed.

Lemma parsecommandline_loop_inv (LONG_MAX : Z) (opts : list found_option) :
  forall (g : config) (s : state) (g' : config) (s' : state),
  parsecommandline_loop LONG_MAX opts g s = Returns (g', s') ->
  (0 <= linesize g <= 255 -> 0 <= linesize g' <= 255) /\
  (0 <= groupsize g <= INT_MAX -> 0 <= groupsize g' <= INT_MAX) /\
  (0 <= startoffset s <= INT_MAX -> 0 <= startoffset s' <= INT_MAX) /\
  (0 <= maxinputlen s <= INT_MAX -> 0 <= maxinputlen s' <= INT_MAX) /\
  filenames s' = filenames s /\ currentfile s' = currentfile s /\
  exitcode s' = exitcode s /\
  (hexoutput g = false \/ char_code "R" ∈ map opt_ch opts ->
   hexoutput g' = false) /\
  (colorize g = false \/ char_code "N" ∈ map opt_ch opts ->
   colorize g' = false).
Proof.
  induction opts as [|o opts IH]; intros g s g' s' H.
  - injection H as <- <-.
    split_and!; try done;
      (intros [?|Hin]; [done|by apply elem_of_nil in Hin]).
  - cbn [parsecommandline_loop] in H.
    destruct (parsecommandline_switch LONG_MAX (opt_ch o) (opt_arg o) g s)
      as [[g1 s1]|] eqn:H1; [|done].
    cbn [bind] in H.
    apply parsecommandline_switch_inv in H1
      as (A1 & A2 & A3 & A4 & A5 & A6 & A7 & A8 & A9 & A10 & A11).
    apply IH in H as (B1 & B2 & B3 & B4 & B5 & B6 & B7 & B8 & B9).
    split_and!; try congruence; auto;
      (intros [?|Hin]; [auto|]; cbn [map] in Hin;
       apply elem_of_cons in Hin as [E|Hin]; auto).
Qed.

(** The state of affairs when [parsecommandline] returns: the settings
    [g] its loop has left, and the state. *)
Lemma parsecommandline_returns_inv (LONG_MAX : Z)
    (opts : list found_option) (args : list input) (stdin : input)
    (cfg : config) (s : state) :
  parsecommandline LONG_MAX opts args stdin = Returns (cfg, s) ->
  exists g : config,
    cfg = parsecommandline_finish (autoskip g) (linesize g) (groupsize g)
            (hexoutput g) (colorize g) (useunicode g) /\
    negb (hexoutput g) && negb (colorize g) = false /\
    0 <= linesize g <= 255 /\ 0 <= groupsize g <= INT_MAX /\
    0 <= startoffset s <= INT_MAX /\ 0 <= maxinputlen s <= INT_MAX /\
    currentfile s = None /\ exitcode s = 0 /\
    filenames s = filenames_of args stdin.
Proof.
  unfold parsecommandline. intros H.
  destruct (parsecommandline_loop LONG_MAX opts settings_start _)
    as [[g s0]|] eqn:Hl; [|done].
  cbn [bind] in H.
  apply parsecommandline_loop_inv in Hl
    as (B1 & B2 & B3 & B4 & B5 & B6 & B7 & _ & _).
  cbn [settings_start linesize groupsize startoffset maxinputlen filenames
       currentfile exitcode] in *.
  specialize (B1 ltac:(lia)). specialize (B2 ltac:(unfold INT_MAX; lia)).
  specialize (B3 ltac:(unfold INT_MAX; lia)).
  specialize (B4 ltac:(unfold INT_MAX; lia)).
  destruct (negb (hexoutput g) && negb (colorize g)) eqn:Hraw; [done|].
  injection H as <- <-. exists g.
  destruct args as [|a args]; cbn [filenames_of set_files startoffset
    maxinputlen currentfile exitcode filenames];
    split_and!; (done || lia || congruence).
Qed.

Lemma parsecommandline_finish_bounds (a : bool) (c g : Z) (h col u : bool) :
  0 <= c <= 255 -> 0 <= g <= INT_MAX ->
  1 <= linesize (parsecommandline_finish a c g h col u) <= 255 /\
  1 <= groupsize (parsecommandline_finish a c g h col u) <= INT_MAX.
Proof.
  intros Hc Hg. unfold parsecommandline_finish. cbn [linesize groupsize].
  destruct (Z.eqb_spec c 0), (Z.eqb_spec g 0); unfold INT_MAX in *; lia.
Qed.

(** X5: whatever the command line, the settings with which
    [parsecommandline] returns are those the dump functions rely on: a
    line size in 1..255 (the arrays hold 256 bytes), a group size of at
    least 1, raw output only with color and without autoskip, a start
    offset and a limit in 0..INT_MAX, no file open, a zero exit code, and
    the arguments -- or standard input -- as the list of filenames.
    [hexwidth] is the width of a full line, 2 * linesize + ceil (linesize /
    groupsize), when linesize + groupsize - 1 does not exceed INT_MAX; for
    the larger group sizes, which are accepted, the computation leaves
    [int] and [hexwidth] is 2 * linesize or 2 * linesize - 1, short of the
    full line's 2 * linesize + 1. *)
Theorem parsecommandline_settings_valid (LONG_MAX : Z)
    (opts : list found_option) (args : list input) (stdin : input)
    (cfg : config) (s : state) :
  parsecommandline LONG_MAX opts args stdin = Returns (cfg, s) ->
  1 <= linesize cfg <= 255 /\
  1 <= groupsize cfg <= INT_MAX /\
  (linesize cfg + groupsize cfg - 1 <= INT_MAX ->
   hexwidth cfg = 2 * linesize cfg + groups cfg (linesize cfg)) /\
  (INT_MAX < linesize cfg + groupsize cfg - 1 ->
   groups cfg (linesize cfg) = 1 /\
   (hexwidth cfg = 2 * linesize cfg \/ hexwidth cfg = 2 * linesize cfg - 1)) /\
  (hexoutput cfg = false -> autoskip cfg = false /\ colorize cfg = true) /\
  0 <= startoffset s <= INT_MAX /\
  0 <= maxinputlen s <= INT_MAX /\
  currentfile s = None /\ exitcode s = 0 /\
  filenames s = filenames_of args stdin.
Proof.
  intros H.
  apply parsecommandline_returns_inv in H
    as (g & -> & Hraw & Hc & Hg & HS & HM & Hcur & He & Hf).
  destruct (parsecommandline_finish_bounds (autoskip g) (linesize g)
              (groupsize g) (hexoutput g) (colorize g) (useunicode g) Hc Hg)
    as [HL HG].
  destruct (hexwidth_finish (autoskip g) (linesize g) (groupsize g)
              (hexoutput g) (colorize g) (useunicode g) Hc Hg) as [Hw Hov].
  split; [exact HL|]. split; [exact HG|]. split; [exact Hw|]. split.
  { intros Hs. split; [|exact (Hov Hs)]. unfold groups.
    set (cfg := parsecommandline_finish _ _ _ _ _ _) in *.
    unfold INT_MAX in *.
    replace (linesize cfg + groupsize cfg - 1)
      with (linesize cfg - 1 + 1 * groupsize cfg) by lia.
    rewrite Z.div_add by lia. rewrite Z.div_small by lia. lia. }
  split.
  { unfold parsecommandline_finish. cbn [hexoutput autoskip colorize].
    intros Hh. rewrite Hh in *. cbn [negb andb] in Hraw. split; [done|].
    by destruct (colorize g). }
  done.
Qed.

Lemma parsecommandline_settings_valid_witness :
  let opts := [ {| opt_ch := char_code "c";
                   opt_arg := {| arg_missing := false; strtol_value := 0;
                                 strtol_at_end := true; strtol_moved := true;
                                 strtol_erange := false |} |};
                {| opt_ch := char_code "g";
                   opt_arg := {| arg_missing := false;
                                 strtol_value := 2147483647;
                                 strtol_at_end := true; strtol_moved := true;
                                 strtol_erange := false |} |};
                {| opt_ch := char_code "R"; 
                   opt_arg := {| arg_missing := true; strtol_value := 0;
                                 strtol_at_end := false; strtol_moved := false;
                                 strtol_erange := false |} |};
                {| opt_ch := char_code "a"; 
                   opt_arg := {| arg_missing := true; strtol_value := 0;
                                 strtol_at_end := false; strtol_moved := false;
                                 strtol_erange := false |} |} ] in
  let stdin := standard_input [] false in
  let cfg := parsecommandline_finish false 16 2147483647 false true true in
  let s := state_of [stdin] 0 INT_MAX in
  1 <= linesize cfg <= 255 /\
  1 <= groupsize cfg <= INT_MAX /\
  (linesize cfg + groupsize cfg - 1 <= INT_MAX ->
   hexwidth cfg = 2 * linesize cfg + groups cfg (linesize cfg)) /\
  (INT_MAX < linesize cfg + groupsize cfg - 1 ->
   groups cfg (linesize cfg) = 1 /\
   (hexwidth cfg = 2 * linesize cfg \/ hexwidth cfg = 2 * linesize cfg - 1)) /\
  (hexoutput cfg = false -> autoskip cfg = false /\ colorize cfg = true) /\
  0 <= startoffset s <= INT_MAX /\
  0 <= maxinputlen s <= INT_MAX /\
  currentfile s = None /\ exitcode s = 0 /\
  filenames s = filenames_of [] stdin.
Proof.
  intros opts stdin cfg s.
  apply (parsecommandline_settings_valid (2 ^ 63 - 1) opts [] stdin cfg s).
  reflexivity.
Defined.

(** The settings of two command lines, computed: with the default group
    size [hexwidth] is the width of the full line, 40; with -g 2147483647
    it is 32, one short of the full line's 33 columns. *)
Example hexwidth_of_two_command_lines :
  let num := fun n => {| arg_missing := false; strtol_value := n;
                         strtol_at_end := true; strtol_moved := true;
                         strtol_erange := false |} in
  let stdin := standard_input [] false in
  parsecommandline (2 ^ 63 - 1) [] [] stdin
  = Returns (parsecommandline_finish false 16 2 true true true,
             state_of [stdin] 0 INT_MAX) /\
  hexwidth (parsecommandline_finish false 16 2 true true true) = 40 /\
  parsecommandline (2 ^ 63 - 1)
    [ {| opt_ch := char_code "g"; opt_arg := num 2147483647 |} ] [] stdin
  = Returns (parsecommandline_finish false 16 2147483647 true true true,
             state_of [stdin] 0 INT_MAX) /\
  hexwidth (parsecommandline_finish false 16 2147483647 true true true) = 32.
Proof. repeat split; reflexivity. Qed.

(** X6: the ways [parsecommandline] makes the program exit.  It exits
    with status 0 only after writing the help or the version text, and
    with EXIT_FAILURE only with nothing written.  No option switches color
    or the hex display back on, so a command line holding both --raw and
    --no-color never gets past it, wherever the two options stand. *)
Theorem parsecommandline_exits (LONG_MAX : Z) (opts : list found_option)
    (args : list input) (stdin : input) :
  (forall (status : Z) (out : list outitem),
     parsecommandline LONG_MAX opts args stdin = Exits status out ->
     (status = EXIT_FAILURE /\ out = []) \/
     (status = 0 /\ (out = chars yowzitch \/ out = chars vourzhon))) /\
  (char_code "R" ∈ map opt_ch opts -> char_code "N" ∈ map opt_ch opts ->
   exists (status : Z) (out : list outitem),
     parsecommandline LONG_MAX opts args stdin = Exits status out).
Proof.
  split.
  - assert (forall g s status out,
              parsecommandline_loop LONG_MAX opts g s = Exits status out ->
              (status = EXIT_FAILURE /\ out = []) \/
              (status = 0 /\ (out = chars yowzitch \/ out = chars vourzhon)))
      as Hloop.
    { induction opts as [|o opts IH]; intros g s status out H; [done|].
      cbn [parsecommandline_loop] in H.
      destruct (parsecommandline_switch LONG_MAX (opt_ch o) (opt_arg o) g s)
        as [[g1 s1]|st1 out1] eqn:H1; cbn [bind] in H; [by eapply IH|].
      injection H as <- <-. revert H1. unfold parsecommandline_switch.
      repeat match goal with
      | |- context [opt_ch o =? ?c] => destruct (opt_ch o =? c)
      end;
      try (destruct (getn_cases LONG_MAX (opt_arg o) 0) as [->|(-> & _)]);
      try (destruct (getn_cases LONG_MAX (opt_arg o) 255) as [->|(-> & _)]);
      cbn [bind]; intros H; try done; injection H as <- <-; auto. }
    intros status out H. unfold parsecommandline in H.
    destruct (parsecommandline_loop LONG_MAX opts settings_start _)
      as [[g s0]|st1 out1] eqn:Hl; cbn [bind] in H.
    + destruct (negb (hexoutput g) && negb (colorize g)); [|done].
      injection H as <- <-. auto.
    + injection H as <- <-. by eapply Hloop.
  - intros HR HN. unfold parsecommandline.
    destruct (parsecommandline_loop LONG_MAX opts settings_start _)
      as [[g s0]|st1 out1] eqn:Hl; cbn [bind]; [|eauto].
    apply parsecommandline_loop_inv in Hl
      as (_ & _ & _ & _ & _ & _ & _ & B8 & B9).
    rewrite B8, B9 by auto. cbn. unfold die. eauto.
Qed.

Lemma parsecommandline_exits_witness :
  let none := {| arg_missing := true; strtol_value := 0;
                 strtol_at_end := false; strtol_moved := false;
                 strtol_erange := false |} in
  let opts := [ {| opt_ch := char_code "N"; opt_arg := none |};
                {| opt_ch := char_code "a"; opt_arg := none |};
                {| opt_ch := char_code "R"; opt_arg := none |} ] in
  exists (status : Z) (out : list outitem),
    parsecommandline (2 ^ 63 - 1) opts [] (standard_input [] false)
    = Exits status out.
Proof.
  intros none opts.
  destruct (parsecommandline_exits (2 ^ 63 - 1) opts []
              (standard_input [] false)) as [_ H].
  apply H; vm_compute; repeat constructor.
Defined.

(** ** The program as a whole *)

Lemma parsecommandline_exit_empty (LONG_MAX : Z) (opts : list found_option)
    (args : list input) (stdin : input) (status : Z) (out : list outitem) :
  parsecommandline LONG_MAX opts args stdin = Exits status out ->
  status = 0 \/ (status = EXIT_FAILURE /\ out = []).
Proof.
  assert (forall g s,
            parsecommandline_loop LONG_MAX opts g s = Exits status out ->
            status = 0 \/ (status = EXIT_FAILURE /\ out = [])) as Hloop.
  { induction opts as [|o opts IH]; intros g s H; [done|].
    cbn [parsecommandline_loop] in H.
    destruct (parsecommandline_switch LONG_MAX (opt_ch o) (opt_arg o) g s)
      as [[g1 s1]|st1 out1] eqn:H1; cbn [bind] in H; [by eapply IH|].
    injection H as <- <-. revert H1. unfold parsecommandline_switch.
    repeat match goal with
    | |- context [opt_ch o =? ?c] => destruct (opt_ch o =? c)
    end;
    try (destruct (getn_cases LONG_MAX (opt_arg o) 0) as [->|(-> & _)]);
    try (destruct (getn_cases LONG_MAX (opt_arg o) 255) as [->|(-> & _)]);
    cbn [bind]; intros H; try done; injection H as <- <-; auto. }
  intros H. unfold parsecommandline in H.
  destruct (parsecommandline_loop LONG_MAX opts settings_start _)
    as [[g s0]|st1 out1] eqn:Hl; cbn [bind] in H.
  - destruct (negb (hexoutput g) && negb (colorize g)); [|done].
    injection H as <- <-. auto.
  - injection H as <- <-. by eapply Hloop.
Qed.

Lemma initoutput_or_exit_cases (cfg : config) (t : terminal) :
  initoutput_or_exit cfg t output_start = Exits EXIT_FAILURE [] \/
  initoutput_or_exit cfg t output_start
  = Returns (initoutput cfg (has_is t) output_start).
Proof.
  unfold initoutput_or_exit, initoutput.
  destruct (colorize cfg); cbn [negb]; [|by right].
  destruct (setupterm_ok t); cbn [negb]; [|by left].
  destruct (has_sgr0 t), (has_setaf t); cbn [negb orb]; try by left.
  destruct (colors t <? 256); [by left|by right].
Qed.

(** X7: the program as a whole never faults -- whatever the command line,
    the files and the terminal, no run reads [colorset] outside its 256
    entries -- and it ends with status 0 or EXIT_FAILURE.  When every
    input is clean, a failure status means that the command line or the
    terminal was refused, and then nothing was written to stdout. *)
Theorem main_never_faults (LONG_MAX : Z) (opts : list found_option)
    (args : list input) (stdin : input) (t : terminal) (line0 : list Z) :
  length line0 = 256%nat -> Forall isbyte line0 ->
  exists (status : Z) (out : list outitem),
    main LONG_MAX opts args stdin t line0 = Some (status, out) /\
    (status = 0 \/ status = EXIT_FAILURE) /\
    (Forall clean (filenames_of args stdin) ->
     status = EXIT_FAILURE -> out = []).
Proof.
  intros Hlen Hb. unfold main.
  destruct (parsecommandline LONG_MAX opts args stdin)
    as [[cfg s]|status out] eqn:Hp.
  - apply parsecommandline_returns_inv in Hp
      as (g & -> & _ & Hls & Hgs & HS & _ & _ & He & Hf).
    destruct (parsecommandline_finish_bounds (autoskip g) (linesize g)
                (groupsize g) (hexoutput g) (colorize g) (useunicode g)
                Hls Hgs) as [HL HG].
    set (cfg := parsecommandline_finish _ _ _ _ _ _) in *.
    destruct (initoutput_or_exit_cases cfg t) as [->| ->].
    { exists EXIT_FAILURE, []. auto. }
    destruct (dump_runs cfg line0 s (initoutput cfg (has_is t) output_start)
                _ ltac:(lia) ltac:(lia) Hlen Hb ltac:(lia)
                (in_sync_initoutput cfg (has_is t)))
      as (s' & o' & bs & Hd & _).
    rewrite Hd. apply dump_exit in Hd as [Hea Hec].
    exists (exitcode s'), (stdout o'). split; [done|]. rewrite He in *. split.
    + destruct Hea as [->| ->]; auto.
    + intros Hc HF. rewrite Hf in Hec. destruct (Hec Hc) as [E _].
      rewrite E in HF. done.
  - exists status, out. split; [done|].
    apply parsecommandline_exit_empty in Hp as [->|[-> ->]]; auto.
    split; [auto|]. done.
Qed.

Lemma main_never_faults_witness :
  let stdin := standard_input [x00; x41; xff] false in
  let t := {| setupterm_ok := true; has_sgr0 := true; has_setaf := true;
              colors := 256; has_is := fun _ => false |} in
  exists (status : Z) (out : list outitem),
    main (2 ^ 63 - 1) [] [] stdin t (replicate 256 0) = Some (status, out) /\
    (status = 0 \/ status = EXIT_FAILURE) /\
    (Forall clean (filenames_of [] stdin) ->
     status = EXIT_FAILURE -> out = []).
Proof.
  intros stdin t.
  apply (main_never_faults (2 ^ 63 - 1) [] [] stdin t (replicate 256 0)).
  - reflexivity.
  - apply Forall_replicate. unfold isbyte. lia.
Defined.

(** ** The text of the output *)

Lemma only_chars_app (xs ys : list outitem) :
  only_chars (xs ++ ys) = only_chars xs ++ only_chars ys.
Proof.
  induction xs as [|[c| | |] xs IH]; cbn [only_chars app]; by rewrite ?IH.
Qed.

Lemma only_chars_chars (s : list Z) : only_chars (chars s) = s.
Proof.
  unfold chars. induction s as [|c s IH]; [done|].
  cbn [map only_chars]. by rewrite IH.
Qed.

Lemma only_chars_emit (xs : list outitem) (o : output) :
  only_chars (stdout (emit xs o)) = only_chars (stdout o) ++ only_chars xs.
Proof. by rewrite stdout_emit, only_chars_app. Qed.

Lemma renderlineuncolored_hex_text (cfg : config) (buf : list Z) (k : nat) :
  forall (i x : Z) (o : output),
  stdout (snd (renderlineuncolored_hex cfg buf k i x o))
  = stdout o ++ chars (hex_text cfg buf k i).
Proof.
  induction k as [|k IH]; intros i x o.
  - cbn. by rewrite app_nil_r.
  - cbn [renderlineuncolored_hex hex_text].
    destruct (i mod groupsize cfg =? 0); rewrite IH, !stdout_emit;
      unfold chars; rewrite ?map_app; cbn [map app]; by rewrite <- ?app_assoc.
Qed.

Lemma renderlineuncolored_text_text (cfg : config) (buf : list Z) (k : nat) :
  forall (i : Z) (o : output),
  stdout (renderlineuncolored_text cfg buf k i o)
  = stdout o ++ chars (glyph_text cfg buf k i).
Proof.
  induction k as [|k IH]; intros i o.
  - cbn. by rewrite app_nil_r.
  - cbn [renderlineuncolored_text glyph_text].
    rewrite IH, stdout_emit. unfold chars. rewrite map_app.
    by rewrite <- app_assoc.
Qed.

Lemma renderlineuncolored_line_text (cfg : config) (buf : list Z) (n pos : Z)
    (o : output) :
  1 <= groupsize cfg -> 0 <= n ->
  stdout (renderlineuncolored cfg buf n pos o)
  = stdout o ++ chars (line_text cfg buf n pos).
Proof.
  intros Hg Hn. unfold renderlineuncolored, renderlineuncolored_head.
  pose proof (renderlineuncolored_hex_layout cfg buf (Z.to_nat n) Hg 0
                (hexwidth cfg - 2 * n)
                (emit (chars (fmt_08X pos ++ [58])) o) ltac:(lia)) as [Ex _].
  pose proof (renderlineuncolored_hex_text cfg buf (Z.to_nat n) 0
                (hexwidth cfg - 2 * n)
                (emit (chars (fmt_08X pos ++ [58])) o)) as Ho.
  destruct (renderlineuncolored_hex cfg buf (Z.to_nat n) 0 _ _) as [x1 o1].
  cbn [fst snd] in *. rewrite Z.add_0_l, Z2Nat.id, groups_0 in Ex by lia.
  rewrite stdout_emit, renderlineuncolored_text_text, stdout_emit, Ho,
    stdout_emit.
  replace x1 with (hexwidth cfg - 2 * n - groups cfg n) by lia.
  unfold line_text, chars. rewrite !map_app. cbn [map].
  by rewrite <- !app_assoc.
Qed.

Lemma assigncolor_chars (ch : Z) (o o' : output) :
  assigncolor ch o = Some o' -> stdout o' = stdout o.
Proof.
  unfold assigncolor. intros H.
  destruct (palette o !!! Z.to_nat ch =? 0); [|by injection H as <-].
  destruct (nextcolorfromset o <? 0); [done|].
  destruct (colorset !! Z.to_nat (nextcolorfromset o)); [|done].
  by injection H as <-.
Qed.

Lemma renderlinecolored_hex_text (cfg : config) (buf : list Z) (k : nat) :
  forall (i x : Z) (o : output) (r : Z * output),
  renderlinecolored_hex cfg buf k i x o = Some r ->
  only_chars (stdout (snd r))
  = only_chars (stdout o) ++ hex_text cfg buf k i.
Proof.
  induction k as [|k IH]; intros i x o r H.
  - injection H as <-. cbn. by rewrite app_nil_r.
  - cbn [renderlinecolored_hex hex_text] in *.
    destruct (i mod groupsize cfg =? 0).
    + destruct (assigncolor _ (emit [OChar SP] o)) as [o2|] eqn:Ha; [|done].
      apply assigncolor_chars in Ha. apply IH in H. rewrite H.
      rewrite only_chars_emit, Ha, only_chars_emit. cbn [only_chars].
      rewrite only_chars_chars. by rewrite <- !app_assoc.
    + destruct (assigncolor _ o) as [o2|] eqn:Ha; [|done].
      apply assigncolor_chars in Ha. apply IH in H. rewrite H.
      rewrite only_chars_emit, Ha. cbn [only_chars].
      rewrite only_chars_chars. by rewrite <- !app_assoc.
Qed.

Lemma renderlinecolored_text_text (cfg : config) (buf : list Z) (k : nat) :
  forall (i : Z) (o o' : output),
  renderlinecolored_text cfg buf k i o = Some o' ->
  only_chars (stdout o') = only_chars (stdout o) ++ glyph_text cfg buf k i.
Proof.
  induction k as [|k IH]; intros i o o' H.
  - injection H as <-. cbn. by rewrite app_nil_r.
  - cbn [renderlinecolored_text glyph_text] in *.
    destruct (assigncolor _ o) as [o1|] eqn:Ha; [|done].
    apply assigncolor_chars in Ha. apply IH in H. rewrite H.
    rewrite only_chars_emit, Ha. cbn [only_chars].
    rewrite only_chars_chars. by rewrite <- !app_assoc.
Qed.

Lemma renderlinecolored_line_text (cfg : config) (buf : list Z) (n pos : Z)
    (o o' : output) :
  1 <= groupsize cfg -> 0 <= n ->
  renderlinecolored cfg buf n pos o = Some o' ->
  only_chars (stdout o') = only_chars (stdout o) ++ line_text cfg buf n pos.
Proof.
  intros Hg Hn. unfold renderlinecolored, renderlinecolored_head. intros H.
  destruct (renderlinecolored_hex cfg buf (Z.to_nat n) 0 _ _)
    as [[x1 o1]|] eqn:Hh; [|done].
  destruct (renderlinecolored_hex_layout cfg buf (Z.to_nat n) Hg 0 _ _ _
              ltac:(lia) Hh) as [Ex _].
  apply renderlinecolored_hex_text in Hh.
  cbn [fst snd] in *. rewrite Z.add_0_l, Z2Nat.id, groups_0 in Ex by lia.
  destruct (renderlinecolored_text cfg buf (Z.to_nat n) 0 _) as [o2|] eqn:Ht;
    [|done].
  apply renderlinecolored_text_text in Ht. injection H as <-.
  rewrite only_chars_emit, Ht, only_chars_emit, Hh, only_chars_emit.
  cbn [only_chars]. rewrite !only_chars_chars.
  replace x1 with (hexwidth cfg - 2 * n - groups cfg n) by lia.
  unfold line_text. by rewrite <- !app_assoc.
Qed.

(** A graphic character is its own glyph, with or without extended
    glyphs. *)
Lemma glyph_of_graphic (cfg : config) (ch : Z) :
  isgraph ch = true -> getbyterepresentation cfg ch = [ch].
Proof.
  unfold isgraph, getbyterepresentation, isprint. intros H.
  apply andb_true_iff in H as [H1 H2].
  apply Z.leb_le in H1. apply Z.leb_le in H2.
  destruct (useunicode cfg).
  - destruct (Z.ltb_spec ch 32); [lia|].
    destruct (Z.eqb_spec ch 32); [lia|].
    destruct (Z.ltb_spec ch 127); [done|lia].
  - destruct (Z.leb_spec 32 ch); [|lia].
    destruct (Z.leb_spec ch 126); [done|lia].
Qed.

Lemma renderbytescolored_loop_text (cfg : config) (buf : list Z) (k : nat) :
  forall (i : Z) (o o' : output), 0 <= i ->
  renderbytescolored_loop cfg buf k i o = Some o' ->
  only_chars (stdout o') = only_chars (stdout o) ++ buf_bytes buf i k.
Proof.
  induction k as [|k IH]; intros i o o' Hi H.
  - injection H as <-. cbn. by rewrite app_nil_r.
  - cbn [renderbytescolored_loop] in H. rewrite buf_bytes_S by done.
    destruct (isgraph (buf !!! Z.to_nat i)) eqn:Hg; cbn [negb] in H.
    + destruct (assigncolor _ o) as [o1|] eqn:Ha; [|done].
      apply assigncolor_chars in Ha. apply IH in H; [|lia]. rewrite H.
      rewrite only_chars_emit, Ha. cbn [only_chars].
      rewrite only_chars_chars, glyph_of_graphic by done.
      by rewrite <- !app_assoc.
    + apply IH in H; [|lia]. rewrite H, only_chars_emit. cbn [only_chars].
      by rewrite <- !app_assoc.
Qed.

(** The characters a call of [dumpline] adds to the output. *)
Lemma dumpline_chars (cfg : config) (buf : list Z) (n pos : Z)
    (o o' : output) :
  1 <= groupsize cfg -> 0 <= n ->
  dumpline cfg buf n pos o = Some o' ->
  only_chars (stdout o')
  = only_chars (stdout o) ++ dumpline_text cfg buf n pos.
Proof.
  intros Hg Hn. unfold dumpline, dumpline_text. intros H.
  destruct (n =? 0). { injection H as <-. by rewrite app_nil_r. }
  destruct (hexoutput cfg); cbn [negb] in *.
  - destruct (colorize cfg).
    + by apply renderlinecolored_line_text.
    + injection H as <-.
      by rewrite renderlineuncolored_line_text, only_chars_app,
        only_chars_chars.
  - unfold renderbytescolored in H.
    destruct (renderbytescolored_loop cfg buf (Z.to_nat n) 0 o) as [o1|] eqn:Hl;
      [|done].
    injection H as <-. apply renderbytescolored_loop_text in Hl; [|lia].
    rewrite only_chars_emit, Hl. cbn [only_chars]. by rewrite app_nil_r.
Qed.

(** ** Color changes nothing but the control strings *)

Lemma hex_text_set_colorize (b : bool) (cfg : config) (buf : list Z) (k : nat) :
  forall i : Z, hex_text (set_colorize b cfg) buf k i = hex_text cfg buf k i.
Proof. induction k as [|k IH]; intros i; [done|]. cbn. by rewrite IH. Qed.

Lemma glyph_text_set_colorize (b : bool) (cfg : config) (buf : list Z)
    (k : nat) :
  forall i : Z, glyph_text (set_colorize b cfg) buf k i = glyph_text cfg buf k i.
Proof. induction k as [|k IH]; intros i; [done|]. cbn. by rewrite IH. Qed.

Lemma dumpline_text_set_colorize (b : bool) (cfg : config) (buf : list Z)
    (n pos : Z) :
  dumpline_text (set_colorize b cfg) buf n pos = dumpline_text cfg buf n pos.
Proof.
  unfold dumpline_text, line_text.
  by rewrite hex_text_set_colorize, glyph_text_set_colorize.
Qed.

Section SameText.
Variables cfg cfg' : config.
Hypothesis Hg : 1 <= groupsize cfg.
Hypothesis Hg' : 1 <= groupsize cfg'.
Hypothesis HL : linesize cfg' = linesize cfg.
Hypothesis Htext : forall (buf : list Z) (n pos : Z),
  dumpline_text cfg' buf n pos = dumpline_text cfg buf n pos.

Lemma dumpline_same_text (buf : list Z) (n pos : Z) (o o' p p' : output) :
  0 <= n ->
  dumpline cfg buf n pos o = Some o' -> dumpline cfg' buf n pos p = Some p' ->
  same_text o p -> same_text o' p'.
Proof.
  unfold same_text. intros Hn H H' E.
  apply dumpline_chars in H; [|done..]. apply dumpline_chars in H'; [|done..].
  by rewrite H, H', E, Htext.
Qed.

Lemma dumpzerolines_loop_same_text (k : nat) :
  forall (i pos : Z) (o o' p p' : output), 0 <= linesize cfg ->
  dumpzerolines_loop cfg k i pos o = Some o' ->
  dumpzerolines_loop cfg' k i pos p = Some p' ->
  same_text o p -> same_text o' p'.
Proof.
  induction k as [|k IH]; intros i pos o o' p p' H0 H H' E.
  - injection H as <-. by injection H' as <-.
  - cbn [dumpzerolines_loop] in *. rewrite HL in H'.
    destruct (dumpline cfg zeroline _ _ o) as [o1|] eqn:H1; [|done].
    destruct (dumpline cfg' zeroline _ _ p) as [p1|] eqn:H1'; [|done].
    eapply IH; [done|exact H|exact H'|].
    eapply dumpline_same_text; eauto.
Qed.

Lemma dumpzerolines_same_text (count pos : Z) (o o' p p' : output) :
  0 <= linesize cfg ->
  dumpzerolines cfg count pos o = Some o' ->
  dumpzerolines cfg' count pos p = Some p' ->
  same_text o p -> same_text o' p'.
Proof.
  unfold dumpzerolines. intros H0 H H' E. destruct (count >? 2).
  - rewrite HL in H'.
    destruct (dumpline cfg zeroline _ _ o) as [o1|] eqn:H1; [|done].
    destruct (dumpline cfg' zeroline _ _ p) as [p1|] eqn:H1'; [|done].
    injection H as <-. injection H' as <-.
    pose proof (dumpline_same_text _ _ _ _ _ _ _ H0 H1 H1' E) as E1.
    unfold same_text in *. by rewrite !only_chars_emit, E1.
  - by eapply dumpzerolines_loop_same_text.
Qed.

Lemma dumplines_same_text (cs : list (list Z)) :
  forall (pos : Z) (o o' p p' : output),
  dumplines cfg cs pos o = Some o' -> dumplines cfg' cs pos p = Some p' ->
  same_text o p -> same_text o' p'.
Proof.
  induction cs as [|c cs IH]; intros pos o o' p p' H H' E.
  - injection H as <-. by injection H' as <-.
  - cbn [dumplines] in *.
    destruct (dumpline cfg c _ pos o) as [o1|] eqn:H1; [|done].
    destruct (dumpline cfg' c _ pos p) as [p1|] eqn:H1'; [|done].
    eapply IH; [exact H|exact H'|].
    eapply dumpline_same_text; [|exact H1|exact H1'|exact E]. lia.
Qed.

Lemma autoskip_round_same_text (h : held) (c : list Z) (o p : output)
    (h1 h1' : held) (o1 p1 : output) :
  0 <= linesize cfg ->
  autoskip_round cfg h c o = Some (h1, o1) ->
  autoskip_round cfg' h c p = Some (h1', p1) ->
  same_text o p -> h1 = h1' /\ same_text o1 p1.
Proof.
  unfold autoskip_round. intros H0 H H' E.
  destruct (forallb (Z.eqb 0) c).
  { injection H as <- <-. by injection H' as <- <-. }
  destruct (negb (linesheld h =? 0)).
  - destruct (dumpzerolines cfg _ _ o) as [o2|] eqn:Hz; [|done].
    destruct (dumpzerolines cfg' _ _ p) as [p2|] eqn:Hz'; [|done].
    destruct (dumpline cfg c _ _ o2) as [o3|] eqn:Hd; [|done].
    destruct (dumpline cfg' c _ _ p2) as [p3|] eqn:Hd'; [|done].
    injection H as <- <-. injection H' as <- <-. split; [done|].
    eapply dumpline_same_text; [|exact Hd|exact Hd'|]; [lia|].
    by eapply dumpzerolines_same_text.
  - destruct (dumpline cfg c _ _ o) as [o3|] eqn:Hd; [|done].
    destruct (dumpline cfg' c _ _ p) as [p3|] eqn:Hd'; [|done].
    injection H as <- <-. injection H' as <- <-. split; [done|].
    eapply dumpline_same_text; [|exact Hd|exact Hd'|exact E]. lia.
Qed.

Lemma autoskip_round_lastheldsize (c : list Z) (h h1 : held) (o o1 : output) :
  autoskip_round cfg h c o = Some (h1, o1) ->
  0 <= lastheldsize h -> 0 <= lastheldsize h1.
Proof.
  unfold autoskip_round. intros H Hh. destruct (forallb (Z.eqb 0) c).
  { injection H as <- <-. cbn. lia. }
  destruct (if negb (linesheld h =? 0) then _ else _) as [o2|]; [|done].
  destruct (dumpline cfg c _ _ o2) as [o3|]; [|done].
  by injection H as <- <-.
Qed.

Lemma autoskip_rounds_same_text (cs : list (list Z)) :
  forall (h : held) (o p : output) (h1 h1' : held) (o1 p1 : output),
  0 <= linesize cfg -> 0 <= lastheldsize h ->
  autoskip_rounds cfg cs h o = Some (h1, o1) ->
  autoskip_rounds cfg' cs h p = Some (h1', p1) ->
  same_text o p -> h1 = h1' /\ same_text o1 p1 /\ 0 <= lastheldsize h1.
Proof.
  induction cs as [|c cs IH]; intros h o p h1 h1' o1 p1 H0 Hh H H' E.
  - injection H as <- <-. by injection H' as <- <-.
  - cbn [autoskip_rounds] in *.
    destruct (autoskip_round cfg h c o) as [[h2 o2]|] eqn:Hr; [|done].
    destruct (autoskip_round cfg' h c p) as [[h2' p2]|] eqn:Hr'; [|done].
    destruct (autoskip_round_same_text _ _ _ _ _ _ _ _ H0 Hr Hr' E)
      as [<- E2].
    eapply IH; [done| |exact H|exact H'|exact E2].
    by eapply autoskip_round_lastheldsize.
Qed.

Lemma autoskip_finish_same_text (h : held) (o o' p p' : output) :
  0 <= linesize cfg -> 0 <= lastheldsize h ->
  autoskip_finish cfg h o = Some o' -> autoskip_finish cfg' h p = Some p' ->
  same_text o p -> same_text o' p'.
Proof.
  unfold autoskip_finish. intros H0 Hh H H' E.
  destruct (negb (linesheld h =? 0)).
  - destruct (dumpzerolines cfg _ _ o) as [o2|] eqn:Hz; [|done].
    destruct (dumpzerolines cfg' _ _ p) as [p2|] eqn:Hz'; [|done].
    eapply dumpline_same_text; [|exact H|exact H'|]; [done|].
    by eapply dumpzerolines_same_text.
  - injection H as <-. by injection H' as <-.
Qed.

Lemma autoskip_lines_same_text (cs : list (list Z)) (h : held) (o p : output)
    (h1 h1' : held) (o1 p1 : output) :
  0 <= linesize cfg -> 0 <= lastheldsize h ->
  autoskip_lines cfg cs h o = Some (h1, o1) ->
  autoskip_lines cfg' cs h p = Some (h1', p1) ->
  same_text o p -> same_text o1 p1.
Proof.
  unfold autoskip_lines. intros H0 Hh H H' E.
  destruct (autoskip_rounds cfg cs h o) as [[h2 o2]|] eqn:Hr; [|done].
  destruct (autoskip_rounds cfg' cs h p) as [[h2' p2]|] eqn:Hr'; [|done].
  destruct (autoskip_rounds_same_text _ _ _ _ _ _ _ _ H0 Hh Hr Hr' E)
    as (<- & E2 & Hh2).
  destruct (autoskip_finish cfg h2 o2) as [o3|] eqn:Hf; [|done].
  destruct (autoskip_finish cfg' h2 p2) as [p3|] eqn:Hf'; [|done].
  injection H as <- <-. injection H' as <- <-.
  by eapply autoskip_finish_same_text.
Qed.
End SameText.

(** X8: color adds nothing but control strings.  Run on the same input
    with color switched the other way, [dump] writes the same characters:
    taking the terminal's control strings out of a colored dump leaves the
    text of the uncolored one -- offsets, hex digits, padding, glyphs and
    elision markers alike, with or without autoskip. *)
Theorem color_adds_only_control_strings (cfg : config) (b : bool)
    (line0 : list Z) (s : state) (o p : output) (s1 s2 : state)
    (o1 p2 : output) :
  1 <= groupsize cfg -> 1 <= linesize cfg <= 255 ->
  length line0 = 256%nat -> 0 <= startoffset s ->
  dump cfg line0 s o = Some (s1, o1) ->
  dump (set_colorize b cfg) line0 s p = Some (s2, p2) ->
  same_text o p -> same_text o1 p2.
Proof.
  intros Hg HL Hlen HS H H' E.
  pose proof (dump_spec cfg line0 s o ltac:(lia) Hlen HS) as Hs.
  pose proof (dump_spec (set_colorize b cfg) line0 s p ltac:(cbn; lia) Hlen HS)
    as Hs'.
  rewrite H in Hs. rewrite H' in Hs'.
  cbn [option_map snd set_colorize autoskip linesize] in Hs, Hs'.
  destruct (autoskip cfg).
  - destruct (autoskip_lines cfg _ _ o) as [[h1 o1']|] eqn:Ha; [|done].
    destruct (autoskip_lines (set_colorize b cfg) _ _ p) as [[h2 p2']|] eqn:Ha';
      [|done].
    cbn [option_map snd] in Hs, Hs'. injection Hs as ->. injection Hs' as ->.
    eapply (autoskip_lines_same_text cfg (set_colorize b cfg));
      [exact Hg|exact Hg|reflexivity|apply dumpline_text_set_colorize|
       lia| |exact Ha|exact Ha'|exact E].
    cbn. lia.
  - eapply (dumplines_same_text cfg (set_colorize b cfg));
      [exact Hg|exact Hg|apply dumpline_text_set_colorize|
       symmetry; exact Hs|symmetry; exact Hs'|exact E].
Qed.

Lemma color_adds_only_control_strings_witness :
  let cfg := parsecommandline_finish true 4 2 true true true in
  let line0 := replicate 256 0 in
  let s := state_of [file_of [x41; x00; x00; x00; x00; xff]] 0 INT_MAX in
  let o := initoutput cfg (fun _ => true) output_start in
  match dump cfg line0 s o,
        dump (set_colorize false cfg) line0 s output_start with
  | Some (_, o1), Some (_, p2) => same_text o1 p2
  | _, _ => False
  end.
Proof.
  intros cfg line0 s o.
  destruct (dump cfg line0 s o) as [[s1 o1]|] eqn:H;
    [|vm_compute in H; discriminate].
  destruct (dump (set_colorize false cfg) line0 s output_start)
    as [[s2 p2]|] eqn:H'; [|vm_compute in H'; discriminate].
  apply (color_adds_only_control_strings cfg false line0 s o output_start
           s1 s2 o1 p2);
    [vm_compute; discriminate | vm_compute; split; discriminate | reflexivity
    | vm_compute; discriminate | exact H | exact H' | reflexivity].
Defined.

(** The two dumps of the example above, side by side. *)
Example colored_and_plain_dump :
  let cfg := parsecommandline_finish true 4 2 true true true in
  let line0 := replicate 256 0 in
  let s := state_of [file_of [x41; x00; x00; x00; x00; xff]] 0 INT_MAX in
  let o := initoutput cfg (fun _ => true) output_start in
  exists (s1 s2 : state) (o1 p2 : output),
    dump cfg line0 s o = Some (s1, o1) /\
    dump (set_colorize false cfg) line0 s output_start = Some (s2, p2) /\
    stdout p2 = chars (only_chars (stdout o1)) /\
    stdout o1 <> stdout p2.
Proof.
  vm_compute. do 4 eexists. split; [reflexivity|]. split; [reflexivity|].
  split; [reflexivity|discriminate].
Qed.

(** ** The characters of a hex dump *)

Lemma dump_char_hexdigits (cfg : config) (n : nat) :
  forall v : Z, forallb (dump_char cfg) (hexdigits n v) = true.
Proof.
  induction n as [|n IH]; intros v; [done|].
  cbn [hexdigits]. rewrite forallb_app, IH. cbn [forallb andb].
  rewrite andb_true_r. pose proof (Z.mod_pos_bound v 16 ltac:(lia)) as Hd.
  unfold dump_char, hexdigit, NL.
  destruct (Z.ltb_spec (v mod 16) 10);
    apply orb_true_iff; left; apply orb_true_iff; right;
    apply andb_true_iff; split; apply Z.leb_le; lia.
Qed.

Lemma dump_char_SP (cfg : config) : dump_char cfg SP = true.
Proof. done. Qed.

Lemma dump_char_replicate_SP (cfg : config) (n : nat) :
  forallb (dump_char cfg) (replicate n SP) = true.
Proof. induction n as [|n IH]; [done|]. cbn. exact IH. Qed.

Lemma dump_char_glyph_all (u : bool) (c g : Z) (a h col : bool) (w : Z) :
  let cfg := {| autoskip := a; linesize := c; groupsize := g; hexoutput := h;
                colorize := col; useunicode := u; hexwidth := w |} in
  forallb (fun b => forallb (dump_char cfg) (getbyterepresentation cfg b))
    all_bytes = true.
Proof. destruct u; vm_compute; reflexivity. Qed.

Lemma dump_char_glyph (cfg : config) (b : Z) :
  isbyte b -> forallb (dump_char cfg) (getbyterepresentation cfg b) = true.
Proof.
  intros Hb. destruct cfg as [a c g h col u w].
  exact (byte_forallb _ (dump_char_glyph_all u c g a h col w) b Hb).
Qed.

Lemma dump_char_hex_text (cfg : config) (buf : list Z) (k : nat) :
  forall i : Z, forallb (dump_char cfg) (hex_text cfg buf k i) = true.
Proof.
  induction k as [|k IH]; intros i; [done|].
  cbn [hex_text]. rewrite !forallb_app, IH. unfold fmt_02X.
  rewrite dump_char_hexdigits. by destruct (i mod groupsize cfg =? 0).
Qed.

Lemma dump_char_glyph_text (cfg : config) (buf : list Z) (k : nat) :
  Forall isbyte buf ->
  forall i : Z, forallb (dump_char cfg) (glyph_text cfg buf k i) = true.
Proof.
  intros Hbuf. induction k as [|k IH]; intros i; [done|].
  cbn [glyph_text]. rewrite forallb_app, IH, dump_char_glyph; [done|].
  by apply lookup_total_isbyte.
Qed.

Lemma dump_char_line_text (cfg : config) (buf : list Z) (n pos : Z) :
  Forall isbyte buf -> forallb (dump_char cfg) (line_text cfg buf n pos) = true.
Proof.
  intros Hbuf. unfold line_text, fmt_08X, fmt_pad.
  rewrite !forallb_app, dump_char_hexdigits, dump_char_hex_text,
    dump_char_replicate_SP, dump_char_glyph_text by done.
  done.
Qed.

(** What a run of [dumpline] calls and elision markers adds to the text of
    a hex dump. *)
Lemma rendered_dump_chars (cfg : config) (o o' : output) (bs : list Z) :
  hexoutput cfg = true -> 1 <= groupsize cfg -> rendered cfg o bs o' ->
  exists ys : list Z,
    only_chars (stdout o') = only_chars (stdout o) ++ ys /\
    forallb (dump_char cfg) ys = true.
Proof.
  intros Hh Hg Hr.
  induction Hr as [o|o o1 o2 buf n pos bs Hn Hlen Hbuf Hd Hr IH|o o2 bs Hr IH].
  - exists []. by rewrite app_nil_r.
  - destruct IH as (ys & E & Hys).
    apply dumpline_chars in Hd; [|done..].
    exists (dumpline_text cfg buf n pos ++ ys).
    split; [by rewrite E, Hd, <- app_assoc|].
    rewrite forallb_app, Hys, andb_true_r. unfold dumpline_text.
    rewrite Hh. cbn [negb]. destruct (n =? 0); [done|].
    by apply dump_char_line_text.
  - destruct IH as (ys & E & Hys). rewrite only_chars_emit in E.
    rewrite only_chars_chars in E.
    exists ([42; NL] ++ ys). split; [by rewrite E, <- app_assoc|].
    by rewrite forallb_app, Hys.
Qed.

(** X9: a hex dump keeps the terminal safe from the data.  Whatever bytes
    the input holds, with or without color and autoskip, every character
    that [dump] writes in hex mode is a newline, a printable ASCII
    character or -- with extended glyphs only -- a byte of a UTF-8
    sequence: no control character of the input reaches the output. *)
Theorem hex_dump_writes_no_control_characters (cfg : config)
    (line0 : list Z) (s : state) (o : output) (seen : list Z)
    (s' : state) (o' : output) :
  hexoutput cfg = true ->
  1 <= groupsize cfg -> 1 <= linesize cfg <= 255 ->
  length line0 = 256%nat -> Forall isbyte line0 -> 0 <= startoffset s ->
  in_sync seen o ->
  dump cfg line0 s o = Some (s', o') ->
  exists ys : list Z,
    only_chars (stdout o') = only_chars (stdout o) ++ ys /\
    forallb (dump_char cfg) ys = true /\
    (useunicode cfg = false ->
     Forall (fun c => c = NL \/ 32 <= c <= 126) ys).
Proof.
  intros Hh Hg HL Hlen Hb HS Hs Hd.
  destruct (dump_runs cfg line0 s o seen Hg ltac:(lia) Hlen Hb HS Hs)
    as (s1 & o1 & bs & Hd1 & Hr).
  rewrite Hd in Hd1. injection Hd1 as <- <-.
  destruct (rendered_dump_chars cfg o o' bs Hh Hg Hr) as (ys & E & Hys).
  exists ys. split; [exact E|]. split; [exact Hys|].
  intros Hu. apply Forall_forall. intros c Hc.
  rewrite forallb_forall in Hys. apply list_elem_of_In in Hc.
  specialize (Hys c Hc). unfold dump_char in Hys. rewrite Hu in Hys.
  cbn [andb] in Hys. rewrite orb_false_r in Hys.
  apply orb_true_iff in Hys as [H1|H1]; [left; by apply Z.eqb_eq|].
  right. apply andb_true_iff in H1 as [H1 H2].
  apply Z.leb_le in H1. apply Z.leb_le in H2. lia.
Qed.

Lemma hex_dump_writes_no_control_characters_witness :
  let cfg := parsecommandline_finish true 16 2 true true false in
  let line0 := replicate 256 0 in
  let s := state_of [file_of [x00; x07; x1b; x7f; x9b; xff]] 0 INT_MAX in
  let o := initoutput cfg (fun _ => false) output_start in
  match dump cfg line0 s o with
  | Some (_, o') =>
      exists ys : list Z,
        only_chars (stdout o') = only_chars (stdout o) ++ ys /\
        forallb (dump_char cfg) ys = true /\
        (useunicode cfg = false ->
         Forall (fun c => c = NL \/ 32 <= c <= 126) ys)
  | None => False
  end.
Proof.
  intros cfg line0 s o.
  destruct (dump cfg line0 s o) as [[s' o']|] eqn:H;
    [|vm_compute in H; discriminate].
  apply (hex_dump_writes_no_control_characters cfg line0 s o [0] s' o');
    [reflexivity | vm_compute; discriminate | vm_compute; split; discriminate
    | reflexivity | apply Forall_replicate; unfold isbyte; lia
    | vm_compute; discriminate
    | apply (in_sync_initoutput cfg (fun _ => false)) | exact H].
Defined.

(** The same dump in raw mode passes the control characters on. *)
Example raw_dump_passes_control_characters :
  let cfg := parsecommandline_finish false 16 2 false true false in
  let s := state_of [file_of [x00; x07; x1b; x7f; x9b; xff]] 0 INT_MAX in
  option_map (fun r => only_chars (stdout (snd r)))
    (dump cfg (replicate 256 0) s (initoutput cfg (fun _ => false) output_start))
  = Some [0; 7; 27; 127; 155; 255].
Proof. vm_compute. reflexivity. Qed.

(** ** Output without color *)

Lemma parsecommandline_no_color (LONG_MAX : Z) (opts : list found_option)
    (args : list input) (stdin : input) (cfg : config) (s : state) :
  parsecommandline LONG_MAX opts args stdin = Returns (cfg, s) ->
  char_code "N" ∈ map opt_ch opts ->
  colorize cfg = false /\ hexoutput cfg = true.
Proof.
  unfold parsecommandline. intros H HN.
  destruct (parsecommandline_loop LONG_MAX opts settings_start _)
    as [[g s0]|] eqn:Hl; [|done].
  cbn [bind] in H.
  apply parsecommandline_loop_inv in Hl as (_ & _ & _ & _ & _ & _ & _ & _ & B9).
  specialize (B9 (or_intror HN)). rewrite B9 in H.
  destruct (hexoutput g) eqn:Hh; [|done]. cbn [negb andb] in H.
  injection H as <- <-. unfold parsecommandline_finish.
  cbn [colorize hexoutput]. done.
Qed.

(** Without color a hex dump writes characters only, and leaves the
    palette alone. *)
Lemma rendered_plain (cfg : config) (o o' : output) (bs : list Z) :
  colorize cfg = false -> hexoutput cfg = true -> 1 <= groupsize cfg ->
  rendered cfg o bs o' ->
  palette o' = palette o /\ nextcolorfromset o' = nextcolorfromset o /\
  exists ys : list Z, stdout o' = stdout o ++ chars ys.
Proof.
  intros Hc Hh Hg Hr.
  induction Hr as [o|o o1 o2 buf n pos bs Hn Hlen Hbuf Hd Hr IH|o o2 bs Hr IH].
  - split; [done|]. split; [done|]. exists []. by rewrite app_nil_r.
  - destruct IH as (Ep & En & ys & E). unfold dumpline in Hd.
    rewrite Hh, Hc in Hd. cbn [negb] in Hd. destruct (n =? 0).
    + injection Hd as <-. eauto.
    + injection Hd as <-.
      destruct (renderlineuncolored_palette cfg buf n pos o) as [Ep1 En1].
      rewrite Ep, En, E, renderlineuncolored_line_text by done.
      split; [done|]. split; [done|].
      exists (line_text cfg buf n pos ++ ys).
      unfold chars. by rewrite map_app, app_assoc.
  - destruct IH as (Ep & En & ys & E). rewrite E, stdout_emit.
    split; [done|]. split; [done|]. exists ([42; NL] ++ ys).
    unfold chars. by rewrite map_app, app_assoc.
Qed.

(** X10: with --no-color the program does not consult the terminal, and
    writes characters only.  Whatever else the command line holds, a run
    with the option N ends the same way on every terminal -- also on one
    that [setupterm] does not know or that lacks colors -- and what it
    leaves on stdout holds no control string. *)
Theorem no_color_ignores_terminal (LONG_MAX : Z) (opts : list found_option)
    (args : list input) (stdin : input) (t t' : terminal) (line0 : list Z) :
  length line0 = 256%nat -> Forall isbyte line0 ->
  char_code "N" ∈ map opt_ch opts ->
  main LONG_MAX opts args stdin t line0
  = main LONG_MAX opts args stdin t' line0 /\
  exists (status : Z) (ys : list Z),
    main LONG_MAX opts args stdin t line0 = Some (status, chars ys).
Proof.
  intros Hlen Hb HN. unfold main.
  destruct (parsecommandline LONG_MAX opts args stdin)
    as [[cfg s]|status out] eqn:Hp.
  - destruct (parsecommandline_no_color _ _ _ _ _ _ Hp HN) as [Hc Hh].
    apply parsecommandline_returns_inv in Hp
      as (g & Ecfg & _ & Hls & Hgs & HS & _ & _ & He & Hf).
    destruct (parsecommandline_finish_bounds (autoskip g) (linesize g)
                (groupsize g) (hexoutput g) (colorize g) (useunicode g)
                Hls Hgs) as [HL HG].
    rewrite <- Ecfg in HL, HG.
    unfold initoutput_or_exit. rewrite Hc. cbn [negb]. split; [done|].
    destruct (dump_runs cfg line0 s output_start [] ltac:(lia) ltac:(lia)
                Hlen Hb ltac:(lia) in_sync_start)
      as (s' & o' & bs & Hd & Hr).
    rewrite Hd.
    destruct (rendered_plain cfg _ _ _ Hc Hh ltac:(lia) Hr)
      as (_ & _ & ys & E).
    exists (exitcode s'), ys. by rewrite E.
  - split; [done|]. revert Hp. unfold parsecommandline.
    assert (forall g s,
              parsecommandline_loop LONG_MAX opts g s = Exits status out ->
              exists ys, out = chars ys) as Hloop.
    { clear HN. induction opts as [|o opts IH]; intros g s H; [done|].
      cbn [parsecommandline_loop] in H.
      destruct (parsecommandline_switch LONG_MAX (opt_ch o) (opt_arg o) g s)
        as [[g1 s1]|st1 out1] eqn:H1; cbn [bind] in H; [by eapply IH|].
      injection H as <- <-. revert H1. unfold parsecommandline_switch.
      repeat match goal with
      | |- context [opt_ch o =? ?c] => destruct (opt_ch o =? c)
      end;
      try (destruct (getn_cases LONG_MAX (opt_arg o) 0) as [->|(-> & _)]);
      try (destruct (getn_cases LONG_MAX (opt_arg o) 255) as [->|(-> & _)]);
      cbn [bind]; intros H; try done; injection H as <- <-;
      first [by exists []|by exists yowzitch|by exists vourzhon]. }
    destruct (parsecommandline_loop LONG_MAX opts settings_start _)
      as [[g s0]|st1 out1] eqn:Hl; cbn [bind].
    + destruct (negb (hexoutput g) && negb (colorize g)); [|done].
      intros H. injection H as <- <-. by eexists _, [].
    + intros H. injection H as <- <-.
      destruct (Hloop _ _ Hl) as [ys ->]. by eexists _, ys.
Qed.

Lemma no_color_ignores_terminal_witness :
  let none := {| arg_missing := true; strtol_value := 0;
                 strtol_at_end := false; strtol_moved := false;
                 strtol_erange := false |} in
  let opts := [ {| opt_ch := char_code "N"; opt_arg := none |} ] in
  let stdin := standard_input [x00; x41; xff] false in
  let t := {| setupterm_ok := true; has_sgr0 := true; has_setaf := true;
              colors := 256; has_is := fun _ => true |} in
  let t' := {| setupterm_ok := false; has_sgr0 := false; has_setaf := false;
               colors := 0; has_is := fun _ => false |} in
  main (2 ^ 63 - 1) opts [] stdin t (replicate 256 0)
  = main (2 ^ 63 - 1) opts [] stdin t' (replicate 256 0) /\
  exists (status : Z) (ys : list Z),
    main (2 ^ 63 - 1) opts [] stdin t (replicate 256 0)
    = Some (status, chars ys).
Proof.
  intros none opts stdin t t'.
  apply (no_color_ignores_terminal (2 ^ 63 - 1) opts [] stdin t t'
           (replicate 256 0));
    [reflexivity | apply Forall_replicate; unfold isbyte; lia
    | vm_compute; repeat constructor].
Defined.

(** ** Raw output *)

Lemma dumplines_chars (cfg : config) (cs : list (list Z)) :
  1 <= groupsize cfg ->
  forall (pos : Z) (o o' : output),
  dumplines cfg cs pos o = Some o' ->
  only_chars (stdout o') = only_chars (stdout o) ++ lines_text cfg cs pos.
Proof.
  intros Hg. induction cs as [|c cs IH]; intros pos o o' H.
  - injection H as <-. cbn. by rewrite app_nil_r.
  - cbn [dumplines lines_text] in *.
    destruct (dumpline cfg c _ pos o) as [o1|] eqn:H1; [|done].
    apply dumpline_chars in H1; [|done|lia]. apply IH in H.
    by rewrite H, H1, <- app_assoc.
Qed.

Lemma lines_text_raw (cfg : config) (cs : list (list Z)) :
  hexoutput cfg = false ->
  forall pos : Z, lines_text cfg cs pos = concat cs.
Proof.
  intros Hh. induction cs as [|c cs IH]; intros pos; [done|].
  cbn [lines_text concat]. rewrite IH. f_equal.
  unfold dumpline_text. rewrite Hh. cbn [negb].
  rewrite Nat2Z.id, buf_bytes_take, take_ge by lia.
  destruct c; [done|]. by destruct (Z.eqb_spec (Z.of_nat (length (z :: c))) 0).
Qed.

(** X11: raw output is the input, byte for byte.  In raw mode (which
    [parsecommandline] only allows without autoskip) the characters that
    [dump] writes between the terminal's control strings are exactly the
    selected bytes of the input, in order: a graphic byte is written as
    itself after its color, any other byte unchanged. *)
Theorem raw_output_is_the_input (cfg : config) (line0 : list Z) (s : state)
    (o : output) (s' : state) (o' : output) :
  hexoutput cfg = false -> autoskip cfg = false ->
  1 <= groupsize cfg -> 1 <= linesize cfg <= 255 ->
  length line0 = 256%nat -> 0 <= startoffset s ->
  dump cfg line0 s o = Some (s', o') ->
  only_chars (stdout o') = only_chars (stdout o) ++ selected s.
Proof.
  intros Hh Ha Hg HL Hlen HS Hd.
  pose proof (dump_spec cfg line0 s o ltac:(lia) Hlen HS) as Hs.
  rewrite Hd, Ha in Hs. cbn [option_map snd] in Hs. symmetry in Hs.
  apply dumplines_chars in Hs; [|done].
  by rewrite Hs, lines_text_raw, concat_chunks by (done || lia).
Qed.

Lemma raw_output_is_the_input_witness :
  let cfg := parsecommandline_finish false 16 2 false true true in
  let line0 := replicate 256 0 in
  let s := state_of [file_of [x41; x00; x0a]; file_of [xff; x42]] 1 3 in
  let o := initoutput cfg (fun _ => false) output_start in
  match dump cfg line0 s o with
  | Some (_, o') =>
      only_chars (stdout o') = only_chars (stdout o) ++ selected s
  | None => False
  end.
Proof.
  intros cfg line0 s o.
  destruct (dump cfg line0 s o) as [[s' o']|] eqn:H;
    [|vm_compute in H; discriminate].
  apply (raw_output_is_the_input cfg line0 s o s' o');
    [reflexivity | reflexivity | vm_compute; discriminate
    | vm_compute; split; discriminate | reflexivity
    | vm_compute; discriminate | exact H].
Defined.

(** ** Nothing to show *)

(** X12: when the selection is empty -- a limit of 0, no input, or a
    start offset at or past the end of the input -- [dump] writes nothing
    at all, not even a control string, and leaves the palette alone.
    With a limit of 0 and no start offset it does not even open an input:
    the state, its exit code included, is left as it was, whether or not
    the files exist. *)
Theorem dump_of_nothing (cfg : config) (line0 : list Z) (s : state)
    (o : output) :
  1 <= linesize cfg <= 255 -> length line0 = 256%nat -> 0 <= startoffset s ->
  (selected s = [] -> option_map snd (dump cfg line0 s o) = Some o) /\
  (maxinputlen s <= 0 -> startoffset s = 0 ->
   dump cfg line0 s o = Some (s, o)).
Proof.
  intros HL Hlen HS. split.
  - intros Hsel. rewrite dump_spec by (done || lia). rewrite Hsel.
    rewrite chunks_nil. destruct (autoskip cfg); reflexivity.
  - intros HM H0. unfold dump. rewrite H0.
    change (Z.to_nat 0) with 0%nat. cbn [dump_skip].
    unfold dumpfileswithautoskip, dumpfiles.
    cbn [autoskip_loop dumpfiles_loop]. simpl (negb (0 =? EOF)).
    destruct (Z.gtb_spec (maxinputlen s) 0) as [?|_]; [lia|].
    cbn [andb]. destruct (autoskip cfg); reflexivity.
Qed.

Lemma dump_of_nothing_witness :
  let cfg := default_config in
  let line0 := replicate 256 0 in
  let missing := {| in_stdin := false; in_opens := false; in_data := [];
                    in_ferror := false; in_fclose_fails := false |} in
  let s := state_of [missing; file_of [x41]] 0 0 in
  let o := initoutput cfg (fun _ => false) output_start in
  option_map snd (dump cfg line0 s o) = Some o /\
  dump cfg line0 s o = Some (s, o).
Proof.
  intros cfg line0 missing s o.
  destruct (dump_of_nothing cfg line0 s o) as [H1 H2];
    [vm_compute; split; discriminate | reflexivity | vm_compute; discriminate
    |].
  split; [apply H1; reflexivity|].
  apply H2; [vm_compute; discriminate | reflexivity].
Defined.

(** ** Distinct colors *)

(** The first 242 entries of [colorset] are pairwise distinct; the last 14
    repeat the two before them. *)
Lemma colorset_prefix_NoDup : NoDup (take 242 colorset).
Proof. refine (bool_decide_unpack _ _). vm_compute. exact I. Qed.

Lemma colorset_tail_repeats :
  drop 242 colorset = concat (replicate 7 (take 2 (drop 240 colorset))).
Proof. reflexivity. Qed.

Lemma colorset_prefix_distinct (i j : nat) :
  (i < 242)%nat -> (j < 242)%nat -> i <> j ->
  colorset !!! i <> colorset !!! j.
Proof.
  intros Hi Hj Hne E. apply Hne.
  apply (NoDup_lookup _ i j (colorset !!! i) colorset_prefix_NoDup).
  - rewrite lookup_take_lt by done. apply colorset_lookup_total. lia.
  - rewrite lookup_take_lt by done. rewrite E. apply colorset_lookup_total. lia.
Qed.

Lemma sync_distinct (seen : list Z) (o : output) (b1 b2 : Z) :
  in_sync seen o -> nextcolorfromset o <= 242 ->
  isbyte b1 -> isbyte b2 -> b1 <> b2 ->
  palette o !!! Z.to_nat b1 <> 0 ->
  palette o !!! Z.to_nat b1 <> palette o !!! Z.to_nat b2.
Proof.
  intros Hs Hn Hb1 Hb2 Hne H1.
  destruct (decide (b2 ∈ seen)) as [Hin2|Hnin2]; cycle 1.
  { destruct Hs as (_ & _ & _ & _ & _ & Hun). by rewrite (Hun b2). }
  apply (sync_assigned_iff seen o b1 Hs Hb1) in H1 as Hin1.
  destruct Hs as (_ & Hnd & _ & Hnext & Hcol & _).
  apply list_elem_of_lookup in Hin1 as [j1 Hj1].
  apply list_elem_of_lookup in Hin2 as [j2 Hj2].
  rewrite (Hcol j1 b1 Hj1), (Hcol j2 b2 Hj2).
  apply lookup_lt_Some in Hj1 as Hl1. apply lookup_lt_Some in Hj2 as Hl2.
  apply colorset_prefix_distinct; [lia|lia|].
  intros ->. congruence.
Qed.

(** X13: as long as at most 242 byte values have been given a color, no
    two byte values share one: the color of an assigned value differs from
    that of every other value.  (From the 243rd assignment on the table
    repeats its entries 240 and 241.) *)
Theorem colors_distinct_up_to_242 (cfg : config) (has_is : Z -> bool)
    (line0 : list Z) (s s' : state) (o' : output) (b1 b2 : Z) :
  1 <= groupsize cfg -> 1 <= linesize cfg <= 255 ->
  length line0 = 256%nat -> Forall isbyte line0 -> 0 <= startoffset s ->
  dump cfg line0 s (initoutput cfg has_is output_start) = Some (s', o') ->
  nextcolorfromset o' <= 242 ->
  isbyte b1 -> isbyte b2 -> b1 <> b2 ->
  palette o' !!! Z.to_nat b1 <> 0 ->
  palette o' !!! Z.to_nat b1 <> palette o' !!! Z.to_nat b2.
Proof.
  intros Hg HL Hlen Hb HS Hd Hn Hb1 Hb2 Hne H1.
  destruct (dump_runs cfg line0 s (initoutput cfg has_is output_start) _
              Hg ltac:(lia) Hlen Hb HS (in_sync_initoutput cfg has_is))
    as (s1 & o1 & bs & Hd1 & Hr).
  rewrite Hd in Hd1. injection Hd1 as <- <-.
  pose proof (rendered_sync cfg _ _ _ _ Hg Hr (in_sync_initoutput cfg has_is))
    as Hs.
  by eapply sync_distinct.
Qed.

Lemma colors_distinct_up_to_242_witness :
  let cfg := default_config in
  let line0 := replicate 256 0 in
  let s := state_of [file_of [x41; x42; x41; x00]] 0 INT_MAX in
  match dump cfg line0 s (initoutput cfg (fun _ => false) output_start) with
  | Some (_, o') => palette o' !!! Z.to_nat 65 <> palette o' !!! Z.to_nat 66
  | None => False
  end.
Proof.
  intros cfg line0 s.
  destruct (dump cfg line0 s (initoutput cfg (fun _ => false) output_start))
    as [[s' o']|] eqn:H; [|vm_compute in H; discriminate].
  apply (colors_distinct_up_to_242 cfg (fun _ => false) line0 s s' o' 65 66);
    [vm_compute; discriminate | vm_compute; split; discriminate | reflexivity
    | apply Forall_replicate; unfold isbyte; lia | vm_compute; discriminate
    | exact H
    | vm_compute in H; injection H as _ <-; vm_compute; discriminate
    | unfold isbyte; lia | unfold isbyte; lia | discriminate
    | vm_compute in H; injection H as _ <-; vm_compute; discriminate].
Defined.

(** Past 242 values colors do repeat: in a run that shows the byte values
    0, 1, ..., 255 in this order, the values 240 and 242 share the color
    245. *)
Example colors_repeat_past_242 :
  let cfg := parsecommandline_finish false 255 2 true true true in
  let s := state_of [file_of (map (fun b => default x00 (Byte.of_N (Z.to_N b)))
                                 all_bytes)] 0 INT_MAX in
  option_map (fun r => (palette (snd r) !!! 240%nat, palette (snd r) !!! 242%nat))
    (dump cfg (replicate 256 0) s
       (initoutput cfg (fun _ => false) output_start)) = Some (245, 245).
Proof. vm_compute. reflexivity. Qed.

(** ** Stale bytes of the line array *)

(** X14: [dumpline] reads the first [count] bytes of the array and no
    other: what the array holds beyond them -- the bytes of an earlier,
    longer line, or the garbage of the uninitialized array -- has no
    effect on the output, on the palette, or on whether the call
    faults. *)
Theorem dumpline_ignores_stale_bytes (cfg : config) (buf buf' : list Z)
    (n pos : Z) (o : output) :
  (Z.to_nat n <= length buf)%nat -> (Z.to_nat n <= length buf')%nat ->
  take (Z.to_nat n) buf = take (Z.to_nat n) buf' ->
  dumpline cfg buf n pos o = dumpline cfg buf' n pos o.
Proof.
  intros Hl Hl' E. apply dumpline_ext. intros j Hj.
  assert (j < Z.to_nat n)%nat as Hjn by lia.
  pose proof (f_equal (fun l => l !! j) E) as Ej. cbn beta in Ej.
  rewrite !lookup_take_lt in Ej by done.
  by rewrite !list_lookup_total_alt, Ej.
Qed.

Lemma dumpline_ignores_stale_bytes_witness :
  let cfg := default_config in
  let o := initoutput cfg (fun _ => false) output_start in
  dumpline cfg [65; 66; 67; 68] 2 0 o = dumpline cfg [65; 66; 0; 255; 7] 2 0 o.
Proof.
  intros cfg o.
  apply (dumpline_ignores_stale_bytes cfg [65; 66; 67; 68] [65; 66; 0; 255; 7]
           2 0 o); [simpl; lia | simpl; lia | reflexivity].
Defined.

(** ** Reading a hex dump back *)

Lemma unhex_hexdigit (d : Z) : 0 <= d < 16 -> unhex (hexdigit d) = Some d.
Proof.
  intros Hd. unfold unhex, hexdigit. destruct (Z.ltb_spec d 10).
  - destruct (Z.leb_spec 48 (48 + d)); [|lia].
    destruct (Z.leb_spec (48 + d) 57); [|lia]. cbn. f_equal. lia.
  - destruct (Z.leb_spec 48 (55 + d)); [|lia].
    destruct (Z.leb_spec (55 + d) 57); [lia|]. cbn [andb].
    destruct (Z.leb_spec 65 (55 + d)); [|lia].
    destruct (Z.leb_spec (55 + d) 70); [|lia]. cbn. f_equal. lia.
Qed.

Lemma hexdigit_not_SP (d : Z) : 0 <= d < 16 -> (hexdigit d =? SP) = false.
Proof.
  intros Hd. apply Z.eqb_neq. unfold hexdigit, SP.
  destruct (Z.ltb_spec d 10); lia.
Qed.

Lemma unhex_SP : unhex SP = None.
Proof. reflexivity. Qed.

Lemma unhex_number_app (xs ys : list Z) :
  forall acc : Z,
  unhex_number acc (xs ++ ys)
  = match unhex_number acc xs with
    | Some a => unhex_number a ys
    | None => None
    end.
Proof.
  induction xs as [|x xs IH]; intros acc; [done|].
  cbn [app unhex_number]. destruct (unhex x); [apply IH|done].
Qed.

Lemma unhex_number_hexdigits (n : nat) :
  forall v acc : Z,
  unhex_number acc (hexdigits n v)
  = Some (acc * 16 ^ Z.of_nat n + v mod 16 ^ Z.of_nat n).
Proof.
  induction n as [|n IH]; intros v acc.
  - cbn. f_equal. rewrite Z.mod_1_r. lia.
  - cbn [hexdigits]. rewrite unhex_number_app, IH. cbn [unhex_number].
    rewrite unhex_hexdigit by (apply Z.mod_pos_bound; lia).
    f_equal. rewrite Nat2Z.inj_succ, Z.pow_succ_r by lia.
    rewrite (Z.rem_mul_r v 16 (16 ^ Z.of_nat n)) by lia. lia.
Qed.

Lemma fmt_02X_digits (b : Z) :
  fmt_02X b = [hexdigit ((b / 16) mod 16); hexdigit (b mod 16)].
Proof. reflexivity. Qed.

Lemma unhex_bytes_hex_text (cfg : config) (buf : list Z) (k : nat) :
  Forall isbyte buf ->
  forall (i : Z) (fuel : nat) (rest : list Z), 0 <= i -> (k < fuel)%nat ->
  unhex_bytes fuel (hex_text cfg buf k i ++ SP :: SP :: rest)
  = buf_bytes buf i k.
Proof.
  intros Hbuf. induction k as [|k IH]; intros i fuel rest Hi Hf.
  - destruct fuel as [|fuel]; [lia|]. cbn [hex_text app unhex_bytes].
    rewrite Z.eqb_refl. destruct rest as [|c rest]; [done|].
    by rewrite unhex_SP.
  - destruct fuel as [|fuel]; [lia|].
    rewrite buf_bytes_S by done. cbn [hex_text].
    set (b := buf !!! Z.to_nat i).
    assert (isbyte b) as Hb by (by apply lookup_total_isbyte).
    unfold isbyte in Hb.
    assert (0 <= (b / 16) mod 16 < 16) as H1 by (apply Z.mod_pos_bound; lia).
    assert (0 <= b mod 16 < 16) as H2 by (apply Z.mod_pos_bound; lia).
    assert (16 * ((b / 16) mod 16) + b mod 16 = b) as Hv.
    { rewrite (Z.mod_small (b / 16)) by
        (split; [apply Z.div_pos; lia|apply Z.div_lt_upper_bound; lia]).
      pose proof (Z.div_mod b 16 ltac:(lia)). lia. }
    rewrite fmt_02X_digits.
    destruct (i mod groupsize cfg =? 0); cbn [app unhex_bytes].
    + rewrite Z.eqb_refl, !unhex_hexdigit, Hv by done.
      f_equal. apply IH; lia.
    + rewrite hexdigit_not_SP, !unhex_hexdigit, Hv by done.
      f_equal. apply IH; lia.
Qed.

Lemma blanks_then_two (m : nat) (t : list Z) :
  exists rest : list Z, replicate m SP ++ SP :: SP :: t = SP :: SP :: rest.
Proof.
  destruct m as [|[|m]]; cbn [replicate app]; eauto.
Qed.

(** The line of a hex dump, with whatever follows it, read back. *)
Lemma undump_line_text (cfg : config) (buf : list Z) (n pos : Z)
    (more : list Z) :
  Forall isbyte buf -> 0 <= n ->
  undump_line (line_text cfg buf n pos ++ more)
  = Some (pos mod 2 ^ 32, buf_bytes buf 0 (Z.to_nat n)).
Proof.
  intros Hbuf Hn. unfold undump_line, line_text.
  rewrite <- !app_assoc.
  rewrite take_app_length', drop_app_length'
    by (rewrite length_fmt_08X; reflexivity).
  unfold fmt_08X. rewrite unhex_number_hexdigits. cbn [app].
  simpl (58 =? 58). cbv iota. f_equal. f_equal.
  - change (Z.of_nat 8) with 8. change (16 ^ 8) with (2 ^ 32).
    rewrite Z.mod_mod by lia. lia.
  - unfold fmt_pad.
    destruct (blanks_then_two
                (Z.to_nat (Z.abs (hexwidth cfg - 2 * n - groups cfg n)))
                (glyph_text cfg buf (Z.to_nat n) 0 ++ [NL] ++ more))
      as [rest Hrest].
    cbn [app] in Hrest |- *. rewrite Hrest.
    apply unhex_bytes_hex_text; [done|lia|].
    rewrite length_app. cbn [length].
    assert (forall k i, length (hex_text cfg buf k i) >= 2 * k)%nat as Hlen.
    { clear. induction k as [|k IH]; intros i; [cbn; lia|].
      cbn [hex_text]. rewrite !length_app. specialize (IH (i + 1)).
      rewrite fmt_02X_digits. cbn [length]. lia. }
    specialize (Hlen (Z.to_nat n) 0). lia.
Qed.

(** X15: the line of a hex dump reads back.  Whatever the settings of
    color, grouping, line size and glyphs, the characters that [dumpline]
    writes for a line in hex mode start with the offset in eight
    hexadecimal digits, and the hex column that follows determines the
    bytes of the line: the text column, which may itself hold digits and
    blanks, cannot be mistaken for a part of it. *)
Theorem hex_line_reads_back (cfg : config) (buf : list Z) (n pos : Z)
    (o o' : output) :
  hexoutput cfg = true -> 1 <= groupsize cfg -> Forall isbyte buf ->
  0 < n -> (Z.to_nat n <= length buf)%nat -> 0 <= pos <= INT_MAX ->
  dumpline cfg buf n pos o = Some o' ->
  exists txt : list Z,
    only_chars (stdout o') = only_chars (stdout o) ++ txt /\
    undump_line txt = Some (pos, take (Z.to_nat n) buf).
Proof.
  intros Hh Hg Hbuf Hn Hlen Hpos Hd.
  apply dumpline_chars in Hd; [|done|lia].
  exists (dumpline_text cfg buf n pos). split; [exact Hd|].
  unfold dumpline_text. rewrite Hh. cbn [negb].
  destruct (Z.eqb_spec n 0) as [?|_]; [lia|].
  rewrite <- (app_nil_r (line_text cfg buf n pos)).
  rewrite undump_line_text by (done || lia).
  rewrite buf_bytes_take by done.
  rewrite Z.mod_small by (unfold INT_MAX in Hpos; lia). done.
Qed.

Lemma hex_line_reads_back_witness :
  let cfg := default_config in
  let o := initoutput cfg (fun _ => false) output_start in
  match dumpline cfg [48; 32; 65; 0; 255; 7] 5 4096 o with
  | Some o' =>
      exists txt : list Z,
        only_chars (stdout o') = only_chars (stdout o) ++ txt /\
        undump_line txt = Some (4096, take (Z.to_nat 5) [48; 32; 65; 0; 255; 7])
  | None => False
  end.
Proof.
  intros cfg o.
  destruct (dumpline cfg [48; 32; 65; 0; 255; 7] 5 4096 o) as [o'|] eqn:H;
    [|vm_compute in H; discriminate].
  apply (hex_line_reads_back cfg [48; 32; 65; 0; 255; 7] 5 4096 o o');
    [reflexivity | vm_compute; discriminate
    | repeat constructor; unfold isbyte; lia | lia | simpl; lia
    | unfold INT_MAX; lia | exact H].
Defined.

(** *** The whole dump *)

Lemma not_NL_hexdigits (n : nat) :
  forall v : Z, forallb not_NL (hexdigits n v) = true.
Proof.
  induction n as [|n IH]; intros v; [done|].
  cbn [hexdigits]. rewrite forallb_app, IH. cbn [forallb andb].
  rewrite andb_true_r. pose proof (Z.mod_pos_bound v 16 ltac:(lia)) as Hd.
  unfold not_NL, hexdigit, NL. apply negb_true_iff, Z.eqb_neq.
  destruct (Z.ltb_spec (v mod 16) 10); lia.
Qed.

Lemma not_NL_replicate_SP (n : nat) : forallb not_NL (replicate n SP) = true.
Proof. induction n as [|n IH]; [done|]. cbn. exact IH. Qed.

Lemma not_NL_glyph_all (u : bool) (c g : Z) (a h col : bool) (w : Z) :
  let cfg := {| autoskip := a; linesize := c; groupsize := g; hexoutput := h;
                colorize := col; useunicode := u; hexwidth := w |} in
  forallb (fun b => forallb not_NL (getbyterepresentation cfg b)) all_bytes
  = true.
Proof. destruct u; vm_compute; reflexivity. Qed.

Lemma not_NL_hex_text (cfg : config) (buf : list Z) (k : nat) :
  forall i : Z, forallb not_NL (hex_text cfg buf k i) = true.
Proof.
  induction k as [|k IH]; intros i; [done|].
  cbn [hex_text]. rewrite !forallb_app, IH. unfold fmt_02X.
  rewrite not_NL_hexdigits. by destruct (i mod groupsize cfg =? 0).
Qed.

Lemma not_NL_glyph_text (cfg : config) (buf : list Z) (k : nat) :
  Forall isbyte buf ->
  forall i : Z, forallb not_NL (glyph_text cfg buf k i) = true.
Proof.
  intros Hbuf. induction k as [|k IH]; intros i; [done|].
  cbn [glyph_text]. rewrite forallb_app, IH, andb_true_r.
  destruct cfg as [a c g h col u w].
  apply (byte_forallb _ (not_NL_glyph_all u c g a h col w)).
  by apply lookup_total_isbyte.
Qed.

Lemma skip_line_app (xs more : list Z) :
  forallb not_NL xs = true -> skip_line (xs ++ NL :: more) = more.
Proof.
  induction xs as [|x xs IH]; intros H; [done|].
  cbn [forallb] in H. apply andb_true_iff in H as [Hx H].
  cbn [app skip_line]. unfold not_NL in Hx. apply negb_true_iff in Hx.
  rewrite Hx. by apply IH.
Qed.

Lemma skip_line_text (cfg : config) (buf : list Z) (n pos : Z)
    (more : list Z) :
  Forall isbyte buf -> skip_line (line_text cfg buf n pos ++ more) = more.
Proof.
  intros Hbuf. unfold line_text.
  replace ((fmt_08X pos ++ [58] ++ hex_text cfg buf (Z.to_nat n) 0
            ++ fmt_pad (hexwidth cfg - 2 * n - groups cfg n) ++ [SP; SP]
            ++ glyph_text cfg buf (Z.to_nat n) 0 ++ [NL]) ++ more)
    with ((fmt_08X pos ++ [58] ++ hex_text cfg buf (Z.to_nat n) 0
           ++ fmt_pad (hexwidth cfg - 2 * n - groups cfg n) ++ [SP; SP]
           ++ glyph_text cfg buf (Z.to_nat n) 0) ++ NL :: more)
    by (by rewrite <- !app_assoc).
  apply skip_line_app. unfold fmt_08X, fmt_pad.
  by rewrite !forallb_app, not_NL_hexdigits, not_NL_hex_text,
    not_NL_replicate_SP, not_NL_glyph_text.
Qed.

Lemma undump_lines_text (cfg : config) (cs : list (list Z)) :
  hexoutput cfg = true ->
  Forall (fun c => Forall isbyte c /\ c <> []) cs ->
  forall (pos : Z) (fuel : nat), (length cs <= fuel)%nat ->
  undump fuel (lines_text cfg cs pos) = lines_at pos cs.
Proof.
  intros Hh Hcs. induction Hcs as [|c cs [Hc Hne] Hcs IH]; intros pos fuel Hf.
  - destruct fuel; done.
  - destruct fuel as [|fuel]; [cbn in Hf; lia|].
    cbn [lines_text lines_at undump]. unfold dumpline_text.
    rewrite Hh. cbn [negb].
    destruct (Z.eqb_spec (Z.of_nat (length c)) 0) as [E|_].
    { destruct c; [done|cbn in E; lia]. }
    rewrite undump_line_text, skip_line_text by (done || lia).
    rewrite Nat2Z.id, buf_bytes_take, take_ge by lia.
    f_equal. apply IH. cbn in Hf. lia.
Qed.

Lemma lines_at_bytes (cs : list (list Z)) :
  forall pos : Z, concat (map snd (lines_at pos cs)) = concat cs.
Proof.
  induction cs as [|c cs IH]; intros pos; [done|].
  cbn. by rewrite IH.
Qed.

Lemma length_lines_text (cfg : config) (cs : list (list Z)) :
  hexoutput cfg = true -> Forall (fun c => Forall isbyte c /\ c <> []) cs ->
  forall pos : Z, (length cs <= length (lines_text cfg cs pos))%nat.
Proof.
  intros Hh Hcs. induction Hcs as [|c cs [Hc Hne] Hcs IH]; intros pos; [done|].
  cbn [lines_text length]. rewrite length_app.
  specialize (IH (pos + Z.of_nat (length c))).
  unfold dumpline_text. rewrite Hh. cbn [negb].
  destruct (Z.eqb_spec (Z.of_nat (length c)) 0) as [E|_].
  { destruct c; [done|cbn in E; lia]. }
  unfold line_text. rewrite length_app, length_fmt_08X. lia.
Qed.

(** X16: a hex dump without autoskip loses nothing.  Read back line by
    line, the characters that [dump] writes give the chunks of the
    selected bytes, each with the offset it is shown at, so the bytes of
    all lines together are the selected bytes of the input -- for every
    line size and grouping, with or without color and extended glyphs. *)
Theorem hex_dump_reads_back (cfg : config) (line0 : list Z) (s : state)
    (o : output) (s' : state) (o' : output) :
  hexoutput cfg = true -> autoskip cfg = false ->
  1 <= groupsize cfg -> 1 <= linesize cfg <= 255 ->
  length line0 = 256%nat -> 0 <= startoffset s ->
  dump cfg line0 s o = Some (s', o') ->
  exists txt : list Z,
    only_chars (stdout o') = only_chars (stdout o) ++ txt /\
    undump (length txt) txt
    = lines_at (startoffset s) (chunks (linesize cfg) (selected s)) /\
    concat (map snd (undump (length txt) txt)) = selected s.
Proof.
  intros Hh Ha Hg HL Hlen HS Hd.
  pose proof (dump_spec cfg line0 s o ltac:(lia) Hlen HS) as Hs.
  rewrite Hd, Ha in Hs. cbn [option_map snd] in Hs. symmetry in Hs.
  apply dumplines_chars in Hs; [|done].
  set (cs := chunks (linesize cfg) (selected s)) in *.
  assert (Forall (fun c => Forall isbyte c /\ c <> []) cs) as Hcs.
  { eapply Forall_impl; [apply chunks_Forall; [lia|]|].
    - apply Forall_take, Forall_drop, pending_isbyte.
    - intros c [Hc Hl]. split; [done|]. intros ->. cbn in Hl. lia. }
  exists (lines_text cfg cs (startoffset s)). split; [exact Hs|].
  rewrite undump_lines_text by (done || by apply length_lines_text).
  split; [done|]. rewrite lines_at_bytes. apply concat_chunks. lia.
Qed.

Lemma hex_dump_reads_back_witness :
  let cfg := parsecommandline_finish false 4 3 true true true in
  let line0 := replicate 256 0 in
  let s := state_of [file_of [x30; x20; x41; x00; xff]; file_of [x0a; x42]]
             1 INT_MAX in
  let o := output_start in
  match dump cfg line0 s o with
  | Some (_, o') =>
      exists txt : list Z,
        only_chars (stdout o') = only_chars (stdout o) ++ txt /\
        undump (length txt) txt
        = lines_at (startoffset s) (chunks (linesize cfg) (selected s)) /\
        concat (map snd (undump (length txt) txt)) = selected s
  | None => False
  end.
Proof.
  intros cfg line0 s o.
  destruct (dump cfg line0 s o) as [[s' o']|] eqn:H;
    [|vm_compute in H; discriminate].
  apply (hex_dump_reads_back cfg line0 s o s' o');
    [reflexivity | reflexivity | vm_compute; discriminate
    | vm_compute; split; discriminate | reflexivity
    | vm_compute; discriminate | exact H].
Defined.

(** The lines read back from the dump of the example: offsets 1 and 5. *)
Example hex_dump_read_back :
  let cfg := parsecommandline_finish false 4 3 true true true in
  let s := state_of [file_of [x30; x20; x41; x00; xff]; file_of [x0a; x42]]
             1 INT_MAX in
  option_map (fun r => undump 2 (only_chars (stdout (snd r))))
    (dump cfg (replicate 256 0) s output_start)
  = Some [(1, [32; 65; 0; 255]); (5, [10; 66])].
Proof. vm_compute. reflexivity. Qed.

(** ** The text column as UTF-8 *)

Lemma glyph_utf8_all (u : bool) (c g : Z) (a h col : bool) (w : Z) :
  forallb (glyph_utf8_ok
     {| autoskip := a; linesize := c; groupsize := g; hexoutput := h;
        colorize := col; useunicode := u; hexwidth := w |}) all_bytes = true.
Proof. destruct u; vm_compute; reflexivity. Qed.

Lemma utf8_decode_glyph (cfg : config) (b : Z) (rest : list Z) :
  isbyte b ->
  utf8_decode (getbyterepresentation cfg b ++ rest)
  = option_map (cons (shown_codepoint cfg b)) (utf8_decode rest).
Proof.
  intros Hb.
  assert (glyph_utf8_ok cfg b = true) as H.
  { destruct cfg as [a c g h col u w].
    exact (byte_forallb _ (glyph_utf8_all u c g a h col w) b Hb). }
  unfold glyph_utf8_ok in H.
  destruct (getbyterepresentation cfg b) as [|b0 [|b1 [|b2 [|b3 r]]]];
    try done; cbn [app utf8_decode].
  - apply andb_true_iff in H as [H1 H2]. rewrite H1.
    apply Z.eqb_eq in H2. by rewrite H2.
  - apply andb_true_iff in H as [H H5]. apply andb_true_iff in H as [H H4].
    apply andb_true_iff in H as [H H3]. apply andb_true_iff in H as [H1 H2].
    apply negb_true_iff in H1. apply Z.eqb_eq in H5.
    rewrite H1, H2, H3, H4. cbn [andb]. by rewrite H5.
  - cbv zeta in H.
    apply andb_true_iff in H as [H H9]. apply andb_true_iff in H as [H H8].
    apply andb_true_iff in H as [H H7]. apply andb_true_iff in H as [H H6].
    apply andb_true_iff in H as [H H5]. apply andb_true_iff in H as [H H4].
    apply andb_true_iff in H as [H H3]. apply andb_true_iff in H as [H1 H2].
    apply negb_true_iff in H1. apply negb_true_iff in H2.
    apply Z.eqb_eq in H9.
    rewrite H1, H2, H3, H4, H5, H6, H7, H8. cbn [andb]. by rewrite H9.
Qed.

Lemma utf8_decode_glyph_text (cfg : config) (buf : list Z) (k : nat) :
  Forall isbyte buf ->
  forall i : Z, 0 <= i ->
  utf8_decode (glyph_text cfg buf k i)
  = Some (map (shown_codepoint cfg) (buf_bytes buf i k)).
Proof.
  intros Hbuf. induction k as [|k IH]; intros i Hi; [done|].
  cbn [glyph_text]. rewrite buf_bytes_S by done.
  rewrite utf8_decode_glyph by (by apply lookup_total_isbyte).
  by rewrite IH by lia.
Qed.

(** X17: the text column is well-formed UTF-8 with one character for each
    byte of the line: the glyphs that [getbyterepresentation] returns,
    written one after the other, decode to exactly as many characters as
    the line has bytes -- the control picture, the Latin-1 character or,
    in ASCII mode, the ASCII character that stands for each byte. *)
Theorem text_column_one_character_per_byte (cfg : config) (buf : list Z)
    (n : nat) :
  Forall isbyte buf -> (n <= length buf)%nat ->
  utf8_decode (glyph_text cfg buf n 0)
  = Some (map (shown_codepoint cfg) (take n buf)) /\
  (forall cps : list Z,
     utf8_decode (glyph_text cfg buf n 0) = Some cps -> length cps = n).
Proof.
  intros Hbuf Hn.
  pose proof (utf8_decode_glyph_text cfg buf n Hbuf 0 ltac:(lia)) as H.
  rewrite buf_bytes_take in H by done. split; [exact H|].
  intros cps Hc. rewrite H in Hc. injection Hc as <-.
  rewrite length_map, length_take. lia.
Qed.

Lemma text_column_one_character_per_byte_witness :
  let cfg := default_config in
  let buf := [0; 32; 65; 127; 155; 160; 233] in
  utf8_decode (glyph_text cfg buf 7 0)
  = Some (map (shown_codepoint cfg) (take 7 buf)) /\
  (forall cps : list Z,
     utf8_decode (glyph_text cfg buf 7 0) = Some cps ->
     length cps = 7%nat).
Proof.
  intros cfg buf.
  apply (text_column_one_character_per_byte cfg buf 7);
    [repeat constructor; unfold isbyte; lia | simpl; lia].
Defined.

(** The characters of that text column: control pictures, a letter, the
    marker of the C1 controls, the open box, and a Latin-1 letter. *)
Example text_column_characters :
  utf8_decode (glyph_text default_config [0; 32; 65; 127; 155; 160; 233] 7 0)
  = Some [0x2400; 0x2420; 65; 0x2421; 0x2426; 0x2423; 233].
Proof. reflexivity. Qed.

(** ** Elision drops zero bytes only *)

Lemma nonzero_bytes_app (xs ys : list Z) :
  nonzero_bytes (xs ++ ys) = nonzero_bytes xs ++ nonzero_bytes ys.
Proof. apply List.filter_app. Qed.

Lemma nonzero_bytes_all_zero (c : list Z) :
  forallb (Z.eqb 0) c = true -> nonzero_bytes c = [].
Proof.
  induction c as [|b c IH]; [done|]. cbn [forallb]. intros H.
  apply andb_true_iff in H as [Hb Hc]. apply Z.eqb_eq in Hb. subst b.
  cbn. by apply IH.
Qed.

Lemma nonzero_bytes_zeroline (n : nat) :
  nonzero_bytes (take n zeroline) = [].
Proof.
  apply nonzero_bytes_all_zero. unfold zeroline. rewrite take_replicate.
  apply all_zero_replicate.
Qed.

Lemma dumpzerolines_loop_shows_zeros (cfg : config) (k : nat) :
  0 <= linesize cfg <= 256 ->
  forall (i pos : Z) (o o' : output),
  dumpzerolines_loop cfg k i pos o = Some o' ->
  exists bs, rendered cfg o bs o' /\ nonzero_bytes bs = [].
Proof.
  intros HL. destruct zeroline_ok as [Hzl Hzb].
  induction k as [|k IH]; intros i pos o o' H.
  - injection H as <-. exists []. split; [constructor|done].
  - cbn [dumpzerolines_loop] in H.
    destruct (dumpline cfg zeroline _ _ o) as [o1|] eqn:Hd; [|done].
    destruct (IH _ _ _ _ H) as (bs & Hr & Hz).
    exists (take (Z.to_nat (linesize cfg)) zeroline ++ bs). split.
    + eapply rendered_line; eauto; lia.
    + by rewrite nonzero_bytes_app, nonzero_bytes_zeroline, Hz.
Qed.

Lemma dumpzerolines_shows_zeros (cfg : config) (count pos : Z)
    (o o' : output) :
  0 <= linesize cfg <= 256 ->
  dumpzerolines cfg count pos o = Some o' ->
  exists bs, rendered cfg o bs o' /\ nonzero_bytes bs = [].
Proof.
  intros HL. destruct zeroline_ok as [Hzl Hzb]. unfold dumpzerolines.
  destruct (count >? 2); [|apply dumpzerolines_loop_shows_zeros; lia].
  intros H. destruct (dumpline cfg zeroline _ _ o) as [o1|] eqn:Hd; [|done].
  injection H as <-.
  exists (take (Z.to_nat (linesize cfg)) zeroline ++ []). split.
  - eapply rendered_line; eauto; try lia.
    apply rendered_marker. constructor.
  - by rewrite app_nil_r, nonzero_bytes_zeroline.
Qed.

Lemma autoskip_round_shows (cfg : config) (h : held) (c : list Z)
    (o : output) (h' : held) (o' : output) :
  0 <= linesize cfg <= 256 ->
  Forall isbyte c -> (length c <= 256)%nat -> held_ok h ->
  autoskip_round cfg h c o = Some (h', o') ->
  exists bs, rendered cfg o bs o' /\ nonzero_bytes bs = nonzero_bytes c /\
             held_ok h' /\ held_zero h'.
Proof.
  intros HL Hc Hlc (Hlen & Hb & Hlast). unfold autoskip_round.
  assert (length (c ++ drop (length c) (line h)) = 256%nat) as Hlen1
    by (rewrite length_app, length_drop; lia).
  assert (Forall isbyte (c ++ drop (length c) (line h))) as Hb1
    by (apply Forall_app; split; [done|by apply Forall_drop]).
  destruct (forallb (Z.eqb 0) c) eqn:Hz.
  - intros H. injection H as <- <-. exists [].
    split; [constructor|]. split; [by rewrite (nonzero_bytes_all_zero c)|].
    split.
    + unfold held_ok. cbn [line lastheldsize].
      split; [exact Hlen1|split; [exact Hb1|lia]].
    + intros _. cbn [line lastheldsize].
      rewrite Nat2Z.id, take_app_length. by apply nonzero_bytes_all_zero.
  - intros H.
    assert (exists o1 bs1,
               (if negb (linesheld h =? 0)
                then dumpzerolines cfg (linesheld h) (holdpos h) o
                else Some o) = Some o1 /\ rendered cfg o bs1 o1 /\
               nonzero_bytes bs1 = []) as (o1 & bs1 & E1 & Hr1 & Hz1).
    { destruct (negb (linesheld h =? 0)).
      - destruct (dumpzerolines cfg _ _ o) as [o1|] eqn:Hd; [|done].
        destruct (dumpzerolines_shows_zeros cfg _ _ _ _ HL Hd) as (bs & ? & ?).
        eauto.
      - exists o, []. split; [done|]. split; [constructor|done]. }
    rewrite E1 in H.
    destruct (dumpline cfg c _ (pos h) o1) as [o2|] eqn:Hd; [|done].
    injection H as <- <-.
    exists (bs1 ++ take (Z.to_nat (Z.of_nat (length c))) c ++ []). split.
    + eapply rendered_trans; [exact Hr1|].
      eapply rendered_line; eauto; try lia. constructor.
    + rewrite Nat2Z.id, take_ge, app_nil_r, nonzero_bytes_app, Hz1 by lia.
      split; [done|]. split.
      * unfold held_ok. cbn [line lastheldsize].
        split; [exact Hlen1|split; [exact Hb1|lia]].
      * intros Hne. by cbn in Hne.
Qed.

Lemma autoskip_rounds_shows (cfg : config) (cs : list (list Z)) :
  0 <= linesize cfg <= 256 ->
  Forall (fun c => Forall isbyte c /\ (length c <= 256)%nat) cs ->
  forall (h : held) (o : output) (h' : held) (o' : output),
  held_ok h -> held_zero h ->
  autoskip_rounds cfg cs h o = Some (h', o') ->
  exists bs, rendered cfg o bs o' /\
             nonzero_bytes bs = nonzero_bytes (concat cs) /\
             held_ok h' /\ held_zero h'.
Proof.
  intros HL Hcs.
  induction Hcs as [|c cs [Hc Hlc] Hcs IH]; intros h o h' o' Hh Hz H.
  - injection H as <- <-. exists []. split; [constructor|done].
  - cbn [autoskip_rounds] in H.
    destruct (autoskip_round cfg h c o) as [[h1 o1]|] eqn:Hr; [|done].
    destruct (autoskip_round_shows cfg _ _ _ _ _ HL Hc Hlc Hh Hr)
      as (bs1 & Hr1 & Hn1 & Hh1 & Hz1).
    destruct (IH _ _ _ _ Hh1 Hz1 H) as (bs2 & Hr2 & Hn2 & Hh2 & Hz2).
    exists (bs1 ++ bs2). split; [by eapply rendered_trans|].
    cbn [concat]. by rewrite !nonzero_bytes_app, Hn1, Hn2.
Qed.

Lemma autoskip_finish_shows (cfg : config) (h : held) (o o' : output) :
  0 <= linesize cfg <= 256 -> held_ok h -> held_zero h ->
  autoskip_finish cfg h o = Some o' ->
  exists bs, rendered cfg o bs o' /\ nonzero_bytes bs = [].
Proof.
  intros HL (Hlen & Hb & Hlast) Hz. unfold autoskip_finish.
  destruct (Z.eqb_spec (linesheld h) 0) as [E|Hne]; cbn [negb].
  - intros H. injection H as <-. exists []. split; [constructor|done].
  - intros H.
    destruct (dumpzerolines cfg _ _ o) as [o1|] eqn:Hd; [|done].
    destruct (dumpzerolines_shows_zeros cfg _ _ _ _ HL Hd) as (bs1 & Hr1 & Hz1).
    exists (bs1 ++ take (Z.to_nat (lastheldsize h)) (line h) ++ []). split.
    + eapply rendered_trans; [exact Hr1|].
      eapply rendered_line; eauto; try lia. constructor.
    + by rewrite app_nil_r, nonzero_bytes_app, Hz1, (Hz Hne).
Qed.

(** X18: elision drops zero bytes only.  With or without autoskip, the
    bytes that [dump] hands to [dumpline] hold every non-zero byte of the
    selection, in order and nothing else that is not zero: a line is
    elided, or shown from the array of zeros, only if all its bytes are
    zero. *)
Theorem autoskip_shows_every_nonzero_byte (cfg : config) (line0 : list Z)
    (s : state) (o : output) (s' : state) (o' : output) :
  1 <= linesize cfg <= 255 -> length line0 = 256%nat ->
  Forall isbyte line0 -> 0 <= startoffset s ->
  dump cfg line0 s o = Some (s', o') ->
  exists bs : list Z,
    rendered cfg o bs o' /\
    nonzero_bytes bs = nonzero_bytes (selected s) /\
    (autoskip cfg = false -> bs = selected s).
Proof.
  intros HL Hlen Hb HS Hd.
  pose proof (dump_spec cfg line0 s o ltac:(lia) Hlen HS) as Hs.
  rewrite Hd in Hs. cbn [option_map snd] in Hs.
  assert (Forall isbyte (selected s)) as Hsel
    by (apply Forall_take, Forall_drop, pending_isbyte).
  pose proof (chunks_Forall (linesize cfg) (selected s) ltac:(lia) Hsel) as Hcs.
  pose proof (concat_chunks (linesize cfg) (selected s) ltac:(lia)) as Hcat.
  destruct (autoskip cfg).
  - destruct (autoskip_lines cfg _ _ o) as [[h2 o2]|] eqn:Ha; [|done].
    cbn [option_map snd] in Hs. injection Hs as ->.
    unfold autoskip_lines in Ha.
    destruct (autoskip_rounds cfg _ _ o) as [[h1 o1]|] eqn:Hr; [|done].
    destruct (autoskip_finish cfg h1 o1) as [o3|] eqn:Hf; [|done].
    injection Ha as <- <-.
    apply autoskip_rounds_shows in Hr as (bs1 & Hr1 & Hn1 & Hh1 & Hz1).
    + apply autoskip_finish_shows in Hf as (bs2 & Hr2 & Hn2);
        [|lia|done|done].
      exists (bs1 ++ bs2). split; [by eapply rendered_trans|].
      split; [|done].
      by rewrite nonzero_bytes_app, Hn1, Hn2, app_nil_r, Hcat.
    + lia.
    + eapply Forall_impl; [exact Hcs|]. intros c [Hc Hl]. split; [done|lia].
    + unfold held_ok, autoskip_start. cbn [line lastheldsize].
      split; [exact Hlen|split; [exact Hb|lia]].
    + intros Hne. by cbn in Hne.
  - exists (selected s). split; [|done].
    rewrite <- Hcat at 1. eapply dumplines_rendered; [|symmetry; exact Hs].
    eapply Forall_impl; [exact Hcs|]. by intros c [Hc _].
Qed.

Lemma autoskip_shows_every_nonzero_byte_witness :
  let cfg := parsecommandline_finish true 2 2 true true true in
  let line0 := replicate 256 0 in
  let s := state_of [file_of [x41; x00; x00; x00; x00; x00; x00; x00; x00;
                              x00; x42; x00; x00]] 0 INT_MAX in
  let o := initoutput cfg (fun _ => false) output_start in
  match dump cfg line0 s o with
  | Some (_, o') =>
      exists bs : list Z,
        rendered cfg o bs o' /\
        nonzero_bytes bs = nonzero_bytes (selected s) /\
        (autoskip cfg = false -> bs = selected s)
  | None => False
  end.
Proof.
  intros cfg line0 s o.
  destruct (dump cfg line0 s o) as [[s' o']|] eqn:H;
    [|vm_compute in H; discriminate].
  apply (autoskip_shows_every_nonzero_byte cfg line0 s o s' o');
    [vm_compute; split; discriminate | reflexivity
    | apply Forall_replicate; unfold isbyte; lia
    | vm_compute; discriminate | exact H].
Defined.

(** ** The exit status of a run that reaches the end of the input *)

Lemma clean_dec (f : input) : clean f \/ ~ clean f.
Proof.
  unfold clean.
  destruct (in_stdin f || in_opens f), (in_ferror f),
    (negb (in_stdin f) && in_fclose_fails f); intuition congruence.
Qed.

Lemma clean_all_or_not (fs : list input) :
  Forall clean fs \/ Exists (fun f => ~ clean f) fs.
Proof.
  induction fs as [|f fs [IH|IH]]; [by left| |right; by apply Exists_cons_tl].
  destruct (clean_dec f); [left; by constructor|right; by apply Exists_cons_hd].
Qed.

Lemma inputinit_closed_failing (fs : list input) :
  forall s : state,
  let s' := snd (inputinit_closed fs s) in
  open_ok s' /\
  ((exitcode s' = EXIT_FAILURE \/ Exists (fun f => ~ clean f) (filenames s'))
   <-> (exitcode s = EXIT_FAILURE \/ Exists (fun f => ~ clean f) fs)).
Proof.
  induction fs as [|f fs IH]; intros s; cbn zeta.
  - cbn. split; [by intros []|done].
  - cbn [inputinit_closed]. destruct (in_stdin f || in_opens f) eqn:Ho.
    + cbn. split; [|done]. intros _. by exists f, fs.
    + destruct (IH (fail (set_files (f :: fs) None s))) as [Hw Hf].
      split; [exact Hw|]. rewrite Hf. cbn [fail exitcode].
      split; [intros _|by left]. right. apply Exists_cons_hd.
      unfold clean. rewrite Ho. intros [? _]. done.
Qed.

Lemma inputinit_failing (s : state) :
  open_ok s ->
  open_ok (snd (inputinit s)) /\ (failing (snd (inputinit s)) <-> failing s).
Proof.
  intros Hw. unfold inputinit. destruct (currentfile s) eqn:Hc; [done|].
  apply inputinit_closed_failing.
Qed.

Lemma inputupdate_failing (s : state) :
  open_ok s -> currentfile s <> None ->
  open_ok (inputupdate s) /\ (failing (inputupdate s) <-> failing s).
Proof.
  intros Hw Hc. destruct (Hw Hc) as (f & fs & Hf & Ho).
  split; [by intros []|]. unfold inputupdate, failing. rewrite Hf.
  destruct (in_ferror f) eqn:He.
  { cbn. split; [intros _|by left]. right. apply Exists_cons_hd.
    unfold clean. rewrite He. intros (_ & ? & _). done. }
  destruct (negb (in_stdin f) && in_fclose_fails f) eqn:Hcl.
  { cbn. split; [intros _|by left]. right. apply Exists_cons_hd.
    unfold clean. rewrite Hcl. intros (_ & _ & ?). done. }
  cbn. rewrite Hf. cbn [tail]. rewrite Exists_cons.
  assert (clean f) as Hcf by (unfold clean; by rewrite Ho, He, Hcl).
  tauto.
Qed.

Lemma fgetc_failing (s : state) :
  open_ok s ->
  open_ok (snd (fgetc s)) /\ (failing (snd (fgetc s)) <-> failing s) /\
  (currentfile s <> None -> currentfile (snd (fgetc s)) <> None).
Proof.
  intros Hw. unfold fgetc. destruct (currentfile s) as [[|b rest]|] eqn:Hc;
    cbn [snd]; try (split; [done|split; [done|]]; by rewrite ?Hc).
  split; [|split; [done|done]].
  intros _. apply Hw. by rewrite Hc.
Qed.

Lemma nextbyte_loop_failing (fuel : nat) :
  forall s : state, open_ok s ->
  open_ok (snd (nextbyte_loop fuel s)) /\
  (failing (snd (nextbyte_loop fuel s)) <-> failing s).
Proof.
  induction fuel as [|fuel IH]; intros s Hw; [done|].
  rewrite nextbyte_loop_S.
  destruct (inputinit_failing s Hw) as [Hw1 Hf1].
  pose proof (inputinit_measure s) as Hm. cbn zeta in Hm.
  destruct (inputinit s) as [ok s1]. cbn [fst snd] in *.
  destruct ok; cbn [negb]; [|done].
  destruct Hm as [_ Hm]. destruct (Hm eq_refl) as [[cur Hcur] _].
  destruct (fgetc_failing s1 Hw1) as (Hw2 & Hf2 & Hc2).
  destruct (fgetc s1) as [c s2]. cbn [snd] in *.
  destruct (negb (c =? EOF)); [cbn [snd]; split; [done|tauto]|].
  destruct (inputupdate_failing s2 Hw2) as [Hw3 Hf3];
    [apply Hc2; by rewrite Hcur|].
  destruct (IH _ Hw3) as [Hw4 Hf4]. split; [done|tauto].
Qed.

Lemma nextbyte_failing (s : state) :
  open_ok s ->
  open_ok (snd (nextbyte s)) /\ (failing (snd (nextbyte s)) <-> failing s) /\
  (fst (nextbyte s) = EOF -> all_read (snd (nextbyte s))).
Proof.
  intros Hw. destruct (nextbyte_loop_failing (2 + length (filenames s)) s Hw)
    as [Hw' Hf].
  split; [exact Hw'|]. split; [exact Hf|]. intros HE.
  apply nextbyte_loop_EOF_state; [destruct (currentfile s); lia|exact HE].
Qed.

Lemma set_maxinputlen_failing (m : Z) (s : state) :
  (open_ok s -> open_ok (set_maxinputlen m s)) /\
  (failing (set_maxinputlen m s) <-> failing s).
Proof. done. Qed.

(** The inner loop, entered with input left to read and a limit beyond
    it: either it meets the end of the input, or it fills the line. *)
Lemma autoskip_fill_failing (k : nat) :
  forall (n ch nz : Z) (line : list Z) (s : state),
  open_ok s -> beyond_end s -> (1 <= k)%nat ->
  let '(n', ch', _, _, s') := autoskip_fill k n ch nz line s in
  open_ok s' /\ (failing s' <-> failing s) /\
  ((ch' = EOF /\ all_read s') \/ (ch' <> EOF /\ beyond_end s' /\ n < n')).
Proof.
  induction k as [|k IH]; intros n ch nz line s Hw Hb Hk; [lia|].
  cbn [autoskip_fill]. unfold beyond_end in Hb.
  destruct (Z.gtb_spec (maxinputlen s) 0) as [_|?]; [|lia].
  destruct (nextbyte_failing s Hw) as (Hw1 & Hf1 & He1).
  destruct (nextbyte_cases s)
    as [(Hp & s1 & E & [Hk1 Hk2] & Hp')
       |(b & rest & s1 & Hp & Hbb & E & [Hk1 Hk2] & Hp')];
    rewrite E in *; cbn [fst snd] in *.
  - simpl (EOF =? EOF). cbv iota. split; [done|]. split; [done|]. left. auto.
  - assert ((b =? EOF) = false) as ->
      by (apply Z.eqb_neq; unfold isbyte, EOF in *; lia).
    set (s2 := set_maxinputlen (maxinputlen s1 - 1) s1).
    assert (open_ok s2) as Hw2 by exact Hw1.
    assert (failing s2 <-> failing s) as Hf2 by exact Hf1.
    assert (beyond_end s2) as Hb2.
    { unfold beyond_end. change (pending s2) with (pending s1).
      rewrite Hp'. cbn [maxinputlen s2 set_maxinputlen]. rewrite Hk1.
      rewrite Hp in Hb. cbn [length] in Hb. lia. }
    destruct k as [|k].
    + cbn [autoskip_fill]. split; [done|]. split; [done|]. right.
      split; [unfold isbyte, EOF in *; lia|]. split; [done|lia].
    + specialize (IH (n + 1) b (Z.lor nz b) (<[Z.to_nat n := b]> line) s2
                    Hw2 Hb2 ltac:(lia)).
      destruct (autoskip_fill (S k) _ _ _ _ s2) as [[[[n' ch'] nz'] line'] s'].
      destruct IH as (Hw' & Hf' & Hcase).
      split; [done|]. split; [tauto|].
      destruct Hcase as [?|(? & ? & ?)]; [by left|right].
      split; [done|]. split; [done|lia].
Qed.

Lemma dumpfiles_loop_failing (cfg : config) (fuel : nat) :
  1 <= linesize cfg ->
  forall (line : list Z) (ch pos : Z) (s : state) (o : output)
         (s' : state) (o' : output),
  open_ok s -> beyond_end s -> ch <> EOF ->
  dumpfiles_loop cfg fuel line ch pos s o = Some (s', o') ->
  all_read s' /\ (failing s' <-> failing s).
Proof.
  intros HL. induction fuel as [|fuel IH];
    intros line ch pos s o s' o' Hw Hb Hch H; [done|].
  cbn [dumpfiles_loop] in H.
  assert ((ch =? EOF) = false) as Hce by (by apply Z.eqb_neq).
  rewrite Hce in H. unfold beyond_end in Hb.
  destruct (Z.gtb_spec (maxinputlen s) 0) as [_|?]; [|lia].
  cbn [negb andb] in H.
  rewrite (dumpfiles_fill_autoskip_fill _ _ _ 0) in H.
  pose proof (autoskip_fill_failing (Z.to_nat (linesize cfg)) 0 ch 0 line s
                Hw Hb ltac:(lia)) as Hfill.
  destruct (autoskip_fill _ 0 ch 0 line s) as [[[[n ch1] nz] line1] s1].
  destruct Hfill as (Hw1 & Hf1 & Hcase).
  destruct (Z.eqb_spec n 0) as [->|Hn].
  { injection H as <- <-. destruct Hcase as [[_ ?]|(_ & _ & ?)]; [done|lia]. }
  destruct (dumpline cfg line1 n pos o) as [o1|]; [|done].
  destruct Hcase as [[-> Har]|(Hne & Hb1 & _)].
  - destruct fuel as [|fuel]; [done|]. cbn [dumpfiles_loop] in H.
    simpl (negb (EOF =? EOF)) in H. cbn [andb] in H.
    injection H as <- <-. done.
  - destruct (IH _ _ _ _ _ _ _ Hw1 Hb1 Hne H) as [Har Hf]. split; [done|tauto].
Qed.

Lemma autoskip_loop_failing (cfg : config) (fuel : nat) :
  1 <= linesize cfg ->
  forall (h : held) (ch : Z) (s : state) (o : output)
         (h' : held) (s' : state) (o' : output),
  open_ok s -> beyond_end s -> ch <> EOF ->
  autoskip_loop cfg fuel h ch s o = Some (h', s', o') ->
  all_read s' /\ (failing s' <-> failing s).
Proof.
  intros HL. induction fuel as [|fuel IH];
    intros h ch s o h' s' o' Hw Hb Hch H; [done|].
  cbn [autoskip_loop] in H.
  assert ((ch =? EOF) = false) as Hce by (by apply Z.eqb_neq).
  rewrite Hce in H. unfold beyond_end in Hb.
  destruct (Z.gtb_spec (maxinputlen s) 0) as [_|?]; [|lia].
  cbn [negb andb] in H.
  pose proof (autoskip_fill_failing (Z.to_nat (linesize cfg)) 0 ch 0 (line h) s
                Hw Hb ltac:(lia)) as Hfill.
  destruct (autoskip_fill _ 0 ch 0 (line h) s) as [[[[n ch1] nz] line1] s1].
  destruct Hfill as (Hw1 & Hf1 & Hcase).
  destruct (Z.eqb_spec n 0) as [->|Hn].
  { injection H as <- <- <-.
    destruct Hcase as [[_ ?]|(_ & _ & ?)]; [done|lia]. }
  assert (forall h1 o1,
            autoskip_loop cfg fuel h1 ch1 s1 o1 = Some (h', s', o') ->
            all_read s' /\ (failing s' <-> failing s)) as Hnext.
  { intros h1 o1 H1. destruct Hcase as [[-> Har]|(Hne & Hb1 & _)].
    - destruct fuel as [|fuel]; [done|]. cbn [autoskip_loop] in H1.
      simpl (negb (EOF =? EOF)) in H1. cbn [andb] in H1.
      injection H1 as <- <- <-. done.
    - destruct (IH _ _ _ _ _ _ _ Hw1 Hb1 Hne H1) as [Har Hf].
      split; [done|tauto]. }
  destruct (negb (nz =? 0)).
  - destruct (if negb (linesheld h =? 0) then _ else _) as [o1|]; [|done].
    destruct (dumpline cfg line1 n (pos h) o1) as [o2|]; [|done].
    by eapply Hnext.
  - by eapply Hnext.
Qed.

Lemma dump_skip_failing (k : nat) :
  forall (p : Z) (s : state), open_ok s ->
  let r := dump_skip k p s in
  open_ok (snd r) /\ (failing (snd r) <-> failing s) /\
  (fst r = None -> all_read (snd r)).
Proof.
  induction k as [|k IH]; intros p s Hw; cbn zeta.
  - cbn. split; [done|]. split; [done|]. done.
  - cbn [dump_skip]. destruct (nextbyte_failing s Hw) as (Hw1 & Hf1 & He1).
    destruct (nextbyte s) as [c s1]. cbn [fst snd] in *.
    destruct (Z.eqb_spec c EOF) as [->|Hc].
    + cbn [fst snd]. split; [done|]. split; [done|]. auto.
    + destruct (IH (p + 1) s1 Hw1) as (Hw2 & Hf2 & He2).
      split; [done|]. split; [tauto|done].
Qed.

(** X19: the exit status tells exactly whether an input failed, when the
    run reaches the end of the input.  If the limit exceeds what the
    inputs hold past the start offset (as the default limit does), [dump]
    leaves every input read and closed, and its exit code is EXIT_FAILURE
    if and only if some input did not open, ended on a read error or
    failed to close; otherwise it is the exit code it started with. *)
Theorem exit_status_tells_failures (cfg : config) (line0 : list Z)
    (s : state) (o : output) (s' : state) (o' : output) :
  1 <= linesize cfg -> 0 <= startoffset s ->
  currentfile s = None -> exitcode s = 0 ->
  Z.of_nat (length (pending s)) < startoffset s + maxinputlen s ->
  dump cfg line0 s o = Some (s', o') ->
  all_read s' /\
  (exitcode s' = EXIT_FAILURE <-> ~ Forall clean (filenames s)) /\
  (exitcode s' = 0 <-> Forall clean (filenames s)).
Proof.
  intros HL HS Hcur He Hlim Hd.
  assert (open_ok s) as Hw by (intros Hc; by rewrite Hcur in Hc).
  assert (all_read s' /\ (failing s' <-> failing s)) as [Har Hf].
  { unfold dump in Hd.
    destruct (dump_skip_failing (Z.to_nat (startoffset s)) 0 s Hw)
      as (Hw1 & Hf1 & He1).
    destruct (dump_skip_spec (Z.to_nat (startoffset s)) 0 s)
      as ([Hk1 Hk2] & Hp & Hr).
    destruct (dump_skip _ 0 s) as [[p|] s1]; cbn [fst snd] in *.
    - destruct (decide (Z.to_nat (startoffset s) <= length (pending s))%nat)
        as [Hle|]; [|done].
      assert (beyond_end s1) as Hb1.
      { unfold beyond_end. rewrite Hp, length_drop, Hk1. lia. }
      destruct (autoskip cfg).
      + unfold dumpfileswithautoskip in Hd.
        destruct (autoskip_loop cfg _ _ 0 s1 o) as [[[h2 s2] o2]|] eqn:Hl;
          [|done].
        destruct (autoskip_finish cfg h2 o2); [|done].
        injection Hd as <- <-.
        apply autoskip_loop_failing in Hl as [? ?];
          [|done|done|done|unfold EOF; lia].
        split; [done|tauto].
      + apply dumpfiles_loop_failing in Hd as [? ?];
          [|done|done|done|unfold EOF; lia].
        split; [done|tauto].
    - injection Hd as <- <-. split; [auto|done]. }
  split; [exact Har|].
  assert (exitcode s' = EXIT_FAILURE <-> ~ Forall clean (filenames s)) as Hiff.
  { unfold failing in Hf. destruct Har as [Hfn _]. rewrite Hfn, He in Hf.
    rewrite Exists_nil in Hf. split.
    - intros HF Hall. destruct Hf as [Hf _].
      destruct (Hf (or_introl HF)) as [?|Hex]; [done|].
      apply Exists_exists in Hex as (f & Hin & Hnc).
      rewrite Forall_forall in Hall. by apply Hnc, Hall.
    - intros Hn. destruct Hf as [_ Hf].
      destruct (clean_all_or_not (filenames s)) as [?|Hex]; [done|].
      destruct (Hf (or_intror Hex)) as [?|[]]; done. }
  split; [exact Hiff|].
  apply dump_exit in Hd as [Hea _]. rewrite He in Hea.
  split.
  - intros E0. destruct (clean_all_or_not (filenames s)) as [?|Hex]; [done|].
    exfalso. apply Exists_exists in Hex as (f & Hin & Hnc).
    assert (exitcode s' = EXIT_FAILURE) as E1.
    { apply Hiff. intros Hall. rewrite Forall_forall in Hall.
      by apply Hnc, Hall. }
    rewrite E0 in E1. done.
  - intros Hall. destruct Hea as [->| E1]; [done|].
    apply Hiff in E1. done.
Qed.

Lemma exit_status_tells_failures_witness :
  let cfg := default_config in
  let line0 := replicate 256 0 in
  let broken := {| in_stdin := false; in_opens := true; in_data := [x42];
                   in_ferror := true; in_fclose_fails := false |} in
  let s := state_of [file_of [x41]; broken] 0 INT_MAX in
  let o := initoutput cfg (fun _ => false) output_start in
  match dump cfg line0 s o with
  | Some (s', _) =>
      all_read s' /\
      (exitcode s' = EXIT_FAILURE <-> ~ Forall clean (filenames s)) /\
      (exitcode s' = 0 <-> Forall clean (filenames s))
  | None => False
  end.
Proof.
  intros cfg line0 broken s o.
  destruct (dump cfg line0 s o) as [[s' o']|] eqn:H;
    [|vm_compute in H; discriminate].
  apply (exit_status_tells_failures cfg line0 s o s' o');
    [vm_compute; discriminate | vm_compute; discriminate
    | reflexivity | reflexivity | vm_compute; reflexivity | exact H].
Defined.

(** With a limit that stops the run at the last byte of the first input,
    the second input is never opened and its failure goes unreported. *)
Example exit_status_with_limit :
  let missing := {| in_stdin := false; in_opens := false; in_data := [];
                    in_ferror := false; in_fclose_fails := false |} in
  option_map (fun r => exitcode (fst r))
    (dump default_config (replicate 256 0)
       (state_of [file_of [x41]; missing] 0 1) output_start) = Some 0 /\
  option_map (fun r => exitcode (fst r))
    (dump default_config (replicate 256 0)
       (state_of [file_of [x41]; missing] 0 2) output_start)
  = Some EXIT_FAILURE.
Proof. vm_compute. split; reflexivity. Qed.

(** ** Short runs of zero lines are shown in full *)

Lemma dumpline_set_autoskip (b : bool) (cfg : config) (buf : list Z)
    (n pos : Z) (o : output) :
  dumpline (set_autoskip b cfg) buf n pos o = dumpline cfg buf n pos o.
Proof. reflexivity. Qed.

Lemma dumplines_set_autoskip (b : bool) (cfg : config) (cs : list (list Z)) :
  forall (pos : Z) (o : output),
  dumplines (set_autoskip b cfg) cs pos o = dumplines cfg cs pos o.
Proof.
  induction cs as [|c cs IH]; intros pos o; [done|].
  cbn [dumplines]. rewrite dumpline_set_autoskip.
  destruct (dumpline cfg c _ pos o); [apply IH|done].
Qed.

Lemma dumplines_app (cfg : config) (cs1 cs2 : list (list Z)) :
  forall (pos : Z) (o : output),
  dumplines cfg (cs1 ++ cs2) pos o
  = match dumplines cfg cs1 pos o with
    | Some o1 =>
        dumplines cfg cs2 (pos + Z.of_nat (length (concat cs1))) o1
    | None => None
    end.
Proof.
  induction cs1 as [|c cs1 IH]; intros pos o.
  - cbn. by rewrite Z.add_0_r.
  - cbn [app dumplines concat]. destruct (dumpline cfg c _ pos o); [|done].
    rewrite IH. destruct (dumplines cfg cs1 _ _); [|done].
    f_equal. rewrite length_app. lia.
Qed.

Lemma all_zero_is_replicate (c : list Z) :
  forallb (Z.eqb 0) c = true -> c = replicate (length c) 0.
Proof.
  induction c as [|b c IH]; [done|]. cbn [forallb]. intros H.
  apply andb_true_iff in H as [Hb Hc]. apply Z.eqb_eq in Hb. subst b.
  cbn [length replicate]. f_equal. by apply IH.
Qed.

Lemma well_chunked_chunks (L : Z) (xs : list Z) :
  1 <= L -> well_chunked (Z.to_nat L) (chunks L xs).
Proof.
  intros HL. remember (length xs) as m eqn:Hm. revert xs Hm.
  induction m as [m IH] using lt_wf_ind. intros xs ->.
  destruct xs as [|x xs]; [done|].
  rewrite chunks_step by (done || lia). cbn [well_chunked]. split; [|split].
  - rewrite length_take. cbn [length]. lia.
  - intros Hne. rewrite length_take.
    destruct (drop (Z.to_nat L) (x :: xs)) eqn:Hd; [done|].
    apply (f_equal length) in Hd. rewrite length_drop in Hd.
    cbn [length] in *. lia.
  - apply (IH (length (drop (Z.to_nat L) (x :: xs)))); [|done].
    rewrite length_drop. cbn [length]. lia.
Qed.

Lemma length_concat_replicate_zero_chunk (cfg : config) (k : nat) :
  0 <= linesize cfg ->
  Z.of_nat (length (concat (replicate k (zero_chunk cfg))))
  = Z.of_nat k * linesize cfg.
Proof.
  intros HL. induction k as [|k IH]; [done|].
  cbn [replicate concat]. rewrite length_app, length_zero_chunk. lia.
Qed.

(** The lines held back, written out, bring the plain dump to the place
    where the rounds stand. *)
Lemma autoskip_lines_short (cfg : config) (cs : list (list Z)) :
  1 <= linesize cfg <= 255 ->
  forall (h : held) (o : output),
  well_chunked (Z.to_nat (linesize cfg)) cs ->
  held_short cfg h -> (linesheld h <> 0 -> cs <> [] ->
                       lastheldsize h = linesize cfg) ->
  zero_run_ok (Z.to_nat (linesheld h)) cs = true ->
  option_map snd (autoskip_lines cfg cs h o)
  = match dumplines cfg (deferred cfg h) (holdpos h) o with
    | Some o1 => dumplines cfg cs (pos h) o1
    | None => None
    end.
Proof.
  intros HL. induction cs as [|c cs IH]; intros h o Hwc Hh Hfull Hz.
  - destruct Hh as (Hk & Hlen & Hheld).
    unfold autoskip_lines, autoskip_finish, deferred. cbn [autoskip_rounds].
    destruct (Z.eqb_spec (linesheld h) 0) as [E|Hne]; cbn [negb]; [done|].
    destruct (Hheld Hne) as (Hlh & Hpos & Htake).
    rewrite dumpzerolines_spec by lia.
    destruct (Z.gtb_spec (linesheld h - 1) 2) as [?|_]; [lia|].
    rewrite dumplines_app.
    destruct (dumplines cfg (replicate _ (zero_chunk cfg)) (holdpos h) o)
      as [o1|]; [|done].
    cbn [dumplines]. rewrite length_replicate, Z2Nat.id by lia.
    rewrite length_concat_replicate_zero_chunk, Z2Nat.id by lia.
    replace (pos h - lastheldsize h)
      with (holdpos h + (linesheld h - 1) * linesize cfg) by lia.
    rewrite (dumpline_ext cfg (line h)
               (replicate (Z.to_nat (lastheldsize h)) 0)); cycle 1.
    { intros j Hj. cbn in Hj.
      pose proof (f_equal (fun l => l !! j) Htake) as Ej. cbn beta in Ej.
      rewrite lookup_take_lt in Ej by lia.
      by rewrite !list_lookup_total_alt, Ej. }
    by destruct (dumpline cfg _ _ _ o1).
  - cbn [well_chunked] in Hwc. destruct Hwc as (Hlc & Hcfull & Hwc).
    destruct Hh as (Hk & Hlen & Hheld).
    unfold autoskip_lines. cbn [autoskip_rounds zero_run_ok] in *.
    unfold autoskip_round.
    destruct (forallb (Z.eqb 0) c) eqn:Hzc.
    + apply andb_true_iff in Hz as [Hk2 Hz]. apply Nat.ltb_lt in Hk2.
      set (h1 := {| line := c ++ drop (length c) (line h);
                    linesheld := linesheld h + 1;
                    lastheldsize := Z.of_nat (length c);
                    holdpos := if linesheld h =? 0 then pos h else holdpos h;
                    pos := pos h + Z.of_nat (length c) |}).
      fold (autoskip_lines cfg cs h1 o).
      assert (held_short cfg h1) as Hh1.
      { unfold held_short, h1. cbn [linesheld line lastheldsize pos holdpos].
        split; [lia|]. split; [rewrite length_app, length_drop; lia|].
        intros _. split; [lia|]. split.
        - destruct (Z.eqb_spec (linesheld h) 0) as [E|Hne];
            [rewrite E; lia|].
          destruct (Hheld Hne) as (Hlh & Hpos & _).
          rewrite (Hfull Hne ltac:(done)) in Hpos. nia.
        - rewrite Nat2Z.id, take_app_length.
          by apply all_zero_is_replicate. }
      rewrite (IH h1 o Hwc Hh1); cycle 1.
      { intros _ Hne. unfold h1. cbn [lastheldsize].
        rewrite (Hcfull Hne). lia. }
      { unfold h1. cbn [linesheld].
        by replace (Z.to_nat (linesheld h + 1))
          with (S (Z.to_nat (linesheld h))) by lia. }
      assert (deferred cfg h1 = deferred cfg h ++ [c]) as ->.
      { unfold deferred, h1. cbn [linesheld lastheldsize].
        destruct (Z.eqb_spec (linesheld h + 1) 0) as [?|_]; [lia|].
        rewrite Nat2Z.id, <- (all_zero_is_replicate c Hzc).
        destruct (Z.eqb_spec (linesheld h) 0) as [E|Hne].
        - by rewrite E.
        - rewrite (Hfull Hne ltac:(done)).
          replace (Z.to_nat (linesheld h + 1 - 1))
            with (S (Z.to_nat (linesheld h - 1))) by lia.
          rewrite <- app_assoc. cbn [app].
          by rewrite replicate_S_end, <- app_assoc. }
      rewrite dumplines_app.
      change (holdpos h1) with (if linesheld h =? 0 then pos h else holdpos h).
      change (pos h1) with (pos h + Z.of_nat (length c)).
      assert ((if linesheld h =? 0 then pos h else holdpos h)
              + Z.of_nat (length (concat (deferred cfg h))) = pos h) as Epos.
      { unfold deferred. destruct (Z.eqb_spec (linesheld h) 0) as [E|Hne].
        - cbn. lia.
        - destruct (Hheld Hne) as (Hlh & Hpos & _).
          rewrite concat_app, length_app. cbn [concat].
          rewrite app_nil_r, length_replicate, Nat2Z.inj_add.
          rewrite length_concat_replicate_zero_chunk by lia.
          rewrite !Z2Nat.id by lia. lia. }
      assert (dumplines cfg (deferred cfg h)
                (if linesheld h =? 0 then pos h else holdpos h) o
              = dumplines cfg (deferred cfg h) (holdpos h) o) as ->.
      { unfold deferred. by destruct (linesheld h =? 0). }
      destruct (dumplines cfg (deferred cfg h) (holdpos h) o) as [o1|]; [|done].
      cbn [dumplines]. rewrite Epos.
      by destruct (dumpline cfg c _ (pos h) o1).
    + set (h1 := {| line := c ++ drop (length c) (line h); linesheld := 0;
                    lastheldsize := lastheldsize h; holdpos := holdpos h;
                    pos := pos h + Z.of_nat (length c) |}).
      assert ((if negb (linesheld h =? 0)
               then dumpzerolines cfg (linesheld h) (holdpos h) o
               else Some o)
              = dumplines cfg (deferred cfg h) (holdpos h) o) as ->.
      { unfold deferred. destruct (Z.eqb_spec (linesheld h) 0) as [E|Hne];
          cbn [negb]; [done|].
        rewrite dumpzerolines_spec by lia.
        destruct (Z.gtb_spec (linesheld h) 2) as [?|_]; [lia|].
        rewrite (Hfull Hne ltac:(done)). fold (zero_chunk cfg).
        replace (Z.to_nat (linesheld h))
          with (S (Z.to_nat (linesheld h - 1))) by lia.
        by rewrite replicate_S_end. }
      destruct (dumplines cfg (deferred cfg h) (holdpos h) o) as [o1|]; [|done].
      cbn [dumplines].
      destruct (dumpline cfg c _ (pos h) o1) as [o2|]; [|done].
      fold (autoskip_lines cfg cs h1 o2).
      rewrite (IH h1 o2 Hwc); cycle 1.
      * unfold held_short, h1. cbn [linesheld line].
        split; [lia|]. split; [rewrite length_app, length_drop; lia|done].
      * intros Hne. by cbn in Hne.
      * exact Hz.
      * by unfold deferred, h1.
Qed.

(** X20: autoskip changes the output only where three or more lines of
    zeros follow one another.  On an input whose lines never hold zeros
    only three times in a row, [dump] with autoskip writes exactly what it
    writes without: lines of zeros held back are shown in full, one or two
    at a time, when a line with another byte or the end of the input
    follows. *)
Theorem autoskip_shows_short_zero_runs (cfg : config) (line0 : list Z)
    (s : state) (o : output) :
  1 <= linesize cfg <= 255 -> length line0 = 256%nat -> 0 <= startoffset s ->
  zero_run_ok 0 (chunks (linesize cfg) (selected s)) = true ->
  option_map snd (dump (set_autoskip true cfg) line0 s o)
  = option_map snd (dump (set_autoskip false cfg) line0 s o).
Proof.
  intros HL Hlen HS Hz.
  rewrite !dump_spec by (done || cbn; lia).
  cbn [set_autoskip autoskip linesize]. rewrite dumplines_set_autoskip.
  pose proof (autoskip_lines_short (set_autoskip true cfg)
                (chunks (linesize cfg) (selected s)) HL
                (autoskip_start line0 (startoffset s)) o) as H.
  cbn [set_autoskip linesize] in H. rewrite H.
  - unfold deferred, autoskip_start. cbn [linesheld holdpos pos dumplines].
    apply dumplines_set_autoskip.
  - apply well_chunked_chunks. lia.
  - unfold held_short, autoskip_start. cbn [linesheld line].
    split; [lia|]. split; [done|]. done.
  - intros Hne. by cbn in Hne.
  - exact Hz.
Qed.

Lemma autoskip_shows_short_zero_runs_witness :
  let cfg := parsecommandline_finish false 2 2 true true true in
  let line0 := replicate 256 0 in
  let s := state_of [file_of [x41; x00; x00; x00; x00; x00; x42; x00;
                              x00; x00; x00]] 0 INT_MAX in
  let o := initoutput cfg (fun _ => false) output_start in
  option_map snd (dump (set_autoskip true cfg) line0 s o)
  = option_map snd (dump (set_autoskip false cfg) line0 s o).
Proof.
  intros cfg line0 s o.
  apply (autoskip_shows_short_zero_runs cfg line0 s o);
    [vm_compute; split; discriminate | reflexivity | vm_compute; discriminate
    | reflexivity].
Defined.

(** Three lines of zeros in a row, and the two dumps differ. *)
Example autoskip_elides_three_zero_lines :
  let cfg := parsecommandline_finish false 2 2 true true true in
  let s := state_of [file_of [x00; x00; x00; x00; x00; x00; x42]] 0 INT_MAX in
  let o := initoutput cfg (fun _ => false) output_start in
  zero_run_ok 0 (chunks (linesize cfg) (selected s)) = false /\
  option_map snd (dump (set_autoskip true cfg) (replicate 256 0) s o)
  <> option_map snd (dump (set_autoskip false cfg) (replicate 256 0) s o).
Proof. split; [reflexivity|]. vm_compute. discriminate. Qed.
